(** * Task API (single user): a shallow embedding of server.py and models.py

    The development follows the Python sources:
    - [Py]: the [str] methods the code calls ([strip], [lower], truthiness);
    - [Json]: [json.dumps] on a list of strings, the text of the [tags] column;
    - [Sqlite]: the [LIKE] operator;
    - [TaskDB], [Task], [TaskInput], [TaskUpdate]: the ORM row and the schemas
      of models.py;
    - the table with its primary-key and foreign-key checks (models.py,
      database.py);
    - the handlers of server.py: [create_task], [list_tasks], [export_tasks],
      [import_tasks] with its nested [add_task_with_parents], [get_task],
      [update_task], [delete_task], and its helpers [get_utc_now],
      [parse_datetime], [db_to_task], [calculate_etag];
    - [JsonDecoder]: [json.loads] on the text of the [tags] column.

    Conventions of the model:
    - a Python [str] is a Rocq [string], one [ascii] per code point, so the
      model covers code points below 256;
    - a handler is taken from the point where FastAPI calls it: its payload
      has passed the schema ([validate_tags], the [Field] bounds, the
      patterns of the query parameters), and authentication is done;
    - a handler maps the table to the table after it and a result; nothing
      reaches the table before [db.commit()], so a handler that raises
      leaves the table as it was;
    - the table is a map from ids to rows: it does not keep the order in
      which the rows were inserted, so the model fixes which rows a query
      returns and how ORDER BY orders them, and not the order among rows
      that ORDER BY leaves tied;
    - the clock ([get_utc_now]), the id generator ([uuid4]), the datetime
      parser ([datetime.fromisoformat]), the depth the interpreter leaves
      to a recursion and the number of nested trigger levels the engine
      grants to a cascade are arguments. *)

From Stdlib Require Import ZArith Ascii.
From stdpp Require Import gmap strings list fin_maps sorting.

Local Open Scope Z_scope.
Local Open Scope nat_scope.

(** ** Python strings *)

Module Py.

(** [c.isspace()] for a code point below 256: TAB..CR, FS..US, space, NEL,
    NBSP. *)
Definition isspace (c : ascii) : bool :=
  let n := nat_of_ascii c in
  ((9 <=? n) && (n <=? 13)) || ((28 <=? n) && (n <=? 32))
  || (n =? 133) || (n =? 160).

Fixpoint lstrip (s : string) : string :=
  match s with
  | EmptyString => EmptyString
  | String c s' => if isspace c then lstrip s' else s
  end.

Fixpoint rstrip (s : string) : string :=
  match s with
  | EmptyString => EmptyString
  | String c s' =>
      match rstrip s' with
      | EmptyString => if isspace c then EmptyString else String c EmptyString
      | r => String c r
      end
  end.

(** [s.strip()] *)
Definition strip (s : string) : string := rstrip (lstrip s).

(** [c.lower()] on one code point below 256: A..Z and the Latin-1 capitals
    (U+00C0..U+00DE without the multiplication sign) move up by 32. *)
Definition lower_char (c : ascii) : ascii :=
  let n := nat_of_ascii c in
  if ((65 <=? n) && (n <=? 90)) || ((192 <=? n) && (n <=? 214))
     || ((216 <=? n) && (n <=? 222))
  then ascii_of_nat (n + 32) else c.

(** [s.lower()] *)
Fixpoint lower (s : string) : string :=
  match s with
  | EmptyString => EmptyString
  | String c s' => String (lower_char c) (lower s')
  end.

(** Truthiness of a [str]: the empty string is falsy. *)
Definition truthy (s : string) : bool :=
  match s with EmptyString => false | String _ _ => true end.

(** Truthiness of an [Optional[str]]: [None] and the empty string are falsy. *)
Definition truthy_opt (o : option string) : bool :=
  match o with None => false | Some s => truthy s end.

End Py.

(** ** json.dumps on a list of strings *)

Module Json.

Definition quote : ascii := ascii_of_nat 34.
Definition backslash : ascii := ascii_of_nat 92.

Definition hex_digit (n : nat) : ascii :=
  if n <? 10 then ascii_of_nat (48 + n) else ascii_of_nat (87 + n).

(** One character of a JSON string under [ensure_ascii=True]: the quote, the
    backslash and the short escapes, [\u00xx] for every other character
    outside space..tilde. *)
Definition escape_char (c : ascii) : string :=
  let n := nat_of_ascii c in
  if n =? 34 then String backslash (String quote EmptyString)
  else if n =? 92 then String backslash (String backslash EmptyString)
  else if n =? 10 then String backslash "n"
  else if n =? 13 then String backslash "r"
  else if n =? 9 then String backslash "t"
  else if n =? 8 then String backslash "b"
  else if n =? 12 then String backslash "f"
  else if (n <? 32) || (126 <? n)
  then String backslash
         (String "u" (String "0" (String "0"
            (String (hex_digit (n / 16))
               (String (hex_digit (n mod 16)) EmptyString)))))
  else String c EmptyString.

Fixpoint escape (s : string) : string :=
  match s with
  | EmptyString => EmptyString
  | String c s' => escape_char c +:+ escape s'
  end.

Definition dumps_str (s : string) : string :=
  String quote (escape s +:+ String quote EmptyString).

Fixpoint join (sep : string) (l : list string) : string :=
  match l with
  | [] => EmptyString
  | [x] => x
  | x :: l' => x +:+ sep +:+ join sep l'
  end.

(** [json.dumps(l)] for a list of strings, with the default separators. *)
Definition dumps (l : list string) : string :=
  "[" +:+ join ", " (dumps_str <$> l) +:+ "]".

End Json.

(** ** SQLite: the LIKE operator *)

Module Sqlite.

(** LIKE folds case on ASCII letters only. *)
Definition fold_ascii (c : ascii) : ascii :=
  let n := nat_of_ascii c in
  if (65 <=? n) && (n <=? 90) then ascii_of_nat (n + 32) else c.

Definition is_percent (c : ascii) : bool := nat_of_ascii c =? 37.
Definition is_underscore (c : ascii) : bool := nat_of_ascii c =? 95.

(** [txt LIKE pat], no ESCAPE clause: [%] matches any run of characters,
    [_] any one character, every other character itself up to ASCII case. *)
Fixpoint like (pat : string) : string → bool :=
  match pat with
  | EmptyString =>
      fun txt => match txt with EmptyString => true | String _ _ => false end
  | String p pat' =>
      if is_percent p then
        fix star (txt : string) : bool :=
          like pat' txt
          || match txt with
             | EmptyString => false
             | String _ txt' => star txt'
             end
      else
        fun txt =>
          match txt with
          | EmptyString => false
          | String t txt' =>
              (is_underscore p
               || bool_decide (fold_ascii p = fold_ascii t))
              && like pat' txt'
          end
  end.

End Sqlite.

(** ** Schemas and the ORM row (models.py) *)

#[local] Set Warnings "-register-all".

(** A JSON value as [json.loads] returns it; floats are left out. *)
Inductive json_value : Type :=
  | JNull
  | JBool (b : bool)
  | JInt (z : Z)
  | JStr (s : string)
  | JList (l : list json_value)
  | JDict (d : list (string * json_value)).

(** [dict[str, Any]], in insertion order. *)
Definition Metadata : Type := list (string * json_value).

(** [class TaskDB(Base)]: one row of the [tasks] table.  The [tags] column
    holds the text [json.dumps l] and [task_metadata] the text
    [json.dumps d]; the record keeps [l] and [d], which is what [json.loads]
    gives back, and [tags_text] is the stored text itself. *)
Module TaskDB.

Record t : Type := Build {
  id : string;
  title : string;
  description : option string;
  completed : bool;
  archived : bool;
  priority : Z;
  due_date : option string;
  completion_date : option string;
  parent_id : option string;
  tags : option (list string);
  task_metadata : option Metadata;
  created_at : string;
  updated_at : string
}.

Definition with_title (v : string) (r : t) : t :=
  Build (id r) v (description r) (completed r) (archived r) (priority r)
    (due_date r) (completion_date r) (parent_id r) (tags r) (task_metadata r)
    (created_at r) (updated_at r).
Definition with_description (v : option string) (r : t) : t :=
  Build (id r) (title r) v (completed r) (archived r) (priority r)
    (due_date r) (completion_date r) (parent_id r) (tags r) (task_metadata r)
    (created_at r) (updated_at r).
Definition with_completed (v : bool) (r : t) : t :=
  Build (id r) (title r) (description r) v (archived r) (priority r)
    (due_date r) (completion_date r) (parent_id r) (tags r) (task_metadata r)
    (created_at r) (updated_at r).
Definition with_archived (v : bool) (r : t) : t :=
  Build (id r) (title r) (description r) (completed r) v (priority r)
    (due_date r) (completion_date r) (parent_id r) (tags r) (task_metadata r)
    (created_at r) (updated_at r).
Definition with_priority (v : Z) (r : t) : t :=
  Build (id r) (title r) (description r) (completed r) (archived r) v
    (due_date r) (completion_date r) (parent_id r) (tags r) (task_metadata r)
    (created_at r) (updated_at r).
Definition with_due_date (v : option string) (r : t) : t :=
  Build (id r) (title r) (description r) (completed r) (archived r) (priority r)
    v (completion_date r) (parent_id r) (tags r) (task_metadata r)
    (created_at r) (updated_at r).
Definition with_completion_date (v : option string) (r : t) : t :=
  Build (id r) (title r) (description r) (completed r) (archived r) (priority r)
    (due_date r) v (parent_id r) (tags r) (task_metadata r)
    (created_at r) (updated_at r).
Definition with_parent_id (v : option string) (r : t) : t :=
  Build (id r) (title r) (description r) (completed r) (archived r) (priority r)
    (due_date r) (completion_date r) v (tags r) (task_metadata r)
    (created_at r) (updated_at r).
Definition with_tags (v : option (list string)) (r : t) : t :=
  Build (id r) (title r) (description r) (completed r) (archived r) (priority r)
    (due_date r) (completion_date r) (parent_id r) v (task_metadata r)
    (created_at r) (updated_at r).
Definition with_task_metadata (v : option Metadata) (r : t) : t :=
  Build (id r) (title r) (description r) (completed r) (archived r) (priority r)
    (due_date r) (completion_date r) (parent_id r) (tags r) v
    (created_at r) (updated_at r).
Definition with_updated_at (v : string) (r : t) : t :=
  Build (id r) (title r) (description r) (completed r) (archived r) (priority r)
    (due_date r) (completion_date r) (parent_id r) (tags r) (task_metadata r)
    (created_at r) v.

(** The text in the [tags] column, NULL when no tag list is stored. *)
Definition tags_text (r : t) : option string := Json.dumps <$> tags r.

(** [get_tags]: the column is parsed when it is truthy; the text of a stored
    list is never empty. *)
Definition get_tags (r : t) : list string :=
  match tags r with Some l => l | None => [] end.

(** [set_tags]: a truthy argument is stripped tag by tag and stored, a falsy
    one ([None] or the empty list) stores NULL. *)
Definition set_tags (tags : option (list string)) (r : t) : t :=
  match tags with
  | Some (x :: l) => with_tags (Some (Py.strip <$> x :: l)) r
  | _ => with_tags None r
  end.

(** [get_metadata] *)
Definition get_metadata (r : t) : option Metadata := task_metadata r.

(** [set_metadata]: an empty dict is falsy and stores NULL. *)
Definition set_metadata (metadata : option Metadata) (r : t) : t :=
  match metadata with
  | Some (x :: d) => with_task_metadata (Some (x :: d)) r
  | _ => with_task_metadata None r
  end.

End TaskDB.

(** [class Task] and [class TaskImport(Task)], which adds nothing. *)
Module Task.

Record t : Type := Build {
  id : string;
  title : string;
  description : option string;
  completed : bool;
  archived : bool;
  priority : Z;
  due_date : option string;
  completion_date : option string;
  parent_id : option string;
  tags : option (list string);
  metadata : option Metadata;
  created_at : string;
  updated_at : string
}.

End Task.

Abbreviation TaskImport := Task.t.

(** [class TaskInput]: [title] is required, every other field optional. *)
Module TaskInput.

Record t : Type := Build {
  title : string;
  description : option string;
  completed : option bool;
  archived : option bool;
  priority : option Z;
  due_date : option string;
  tags : option (list string);
  metadata : option Metadata;
  parent_id : option string
}.

End TaskInput.

(** [class TaskUpdate]: every field is optional, and a field that was sent
    as [null] differs from one that was not sent.  The outer [option] is
    presence in the payload ([exclude_unset]), the inner one is [null]. *)
Module TaskUpdate.

Record t : Type := Build {
  title : option (option string);
  description : option (option string);
  completed : option (option bool);
  archived : option (option bool);
  priority : option (option Z);
  due_date : option (option string);
  tags : option (option (list string));
  metadata : option (option Metadata);
  parent_id : option (option string)
}.

(** The payload that sets nothing. *)
Definition empty : t := Build None None None None None None None None None.

End TaskUpdate.

(** [tag] fails [validate_tags] when it is empty after stripping or longer
    than 64 characters. *)
Definition validate_tags (v : option (list string)) : bool :=
  match v with
  | None => true
  | Some l =>
      forallb (fun tag =>
        negb (Nat.eqb (String.length (Py.strip tag)) 0)
        && (String.length tag <=? 64)) l
  end.

(** ** Errors and results *)

(** The failures a handler can end in: the four HTTP errors the handlers
    raise themselves (404, 422, 409 with its [X-Conflicting-IDs] list, 412),
    and the exceptions that escape as an internal error: the engine's
    [IntegrityError] and [OperationalError], the interpreter's
    [RecursionError], and [ValueError]/[TypeError] from datetime parsing
    and comparison. *)
Inductive Error : Type :=
  | NotFound
  | ValidationError (detail : string)
  | Conflict (conflicting_ids : list string)
  | PreconditionFailed (detail : string)
  | IntegrityError
  | OperationalError
  | RecursionError
  | ValueError
  | TypeError.

Inductive Result (A : Type) : Type :=
  | Ok (a : A)
  | Err (e : Error).
Arguments Ok {A} a.
Arguments Err {A} e.

#[global] Instance Result_ret : MRet Result := fun A a => Ok a.
#[global] Instance Result_bind : MBind Result := fun A B f m =>
  match m with Ok a => f a | Err e => Err e end.

(** ** The tasks table (models.py, database.py) *)

(** The table, keyed by its primary key [id]. *)
Abbreviation Store := (gmap string TaskDB.t).

(** The rows as a scan of the table returns them.  The engine scans in
    the order of its rowids, which the table of the model does not keep:
    the rows come in the order of the map, so the model fixes the rows a
    query returns and what ORDER BY says of their order, and not the order
    among rows that ORDER BY leaves tied. *)
Definition table_rows (s : Store) : list TaskDB.t := (map_to_list s).*2.

(** The keys in the order of the primary-key index: ascending, compared
    code point by code point. *)
Definition index_keys (s : Store) : list string :=
  merge_sort String.le (elements (dom s)).

(** [ForeignKey("tasks.id")] under [PRAGMA foreign_keys=ON]: when the
    statement writing row [self] ends, its [parent_id] is NULL or the key of
    a row of the table, which may be the row just written. *)
Definition fk_ok (s : Store) (self : string) (parent : option string) : bool :=
  match parent with
  | None => true
  | Some p => bool_decide (p ∈ dom s) || bool_decide (p = self)
  end.

(** One INSERT: the key must be new and the reference must resolve. *)
Definition db_insert (s : Store) (r : TaskDB.t) : Result Store :=
  if bool_decide (TaskDB.id r ∈ dom s) then Err IntegrityError
  else if fk_ok s (TaskDB.id r) (TaskDB.parent_id r)
       then Ok (<[TaskDB.id r := r]> s)
       else Err IntegrityError.

(** One UPDATE of the row with key [id r]. *)
Definition db_update (s : Store) (r : TaskDB.t) : Result Store :=
  if fk_ok s (TaskDB.id r) (TaskDB.parent_id r)
  then Ok (<[TaskDB.id r := r]> s)
  else Err IntegrityError.

(** The statements of one flush run in order, each against the table the
    previous ones left. *)
Fixpoint run_statements (stmt : Store → TaskDB.t → Result Store)
    (s : Store) (rows : list TaskDB.t) : Result Store :=
  match rows with
  | [] => Ok s
  | r :: rows' => s' ← stmt s r; run_statements stmt s' rows'
  end.

(** ** server.py: helpers *)

(** [db_to_task] *)
Definition db_to_task (db_task : TaskDB.t) : Task.t :=
  Task.Build (TaskDB.id db_task) (TaskDB.title db_task)
    (TaskDB.description db_task) (TaskDB.completed db_task)
    (TaskDB.archived db_task) (TaskDB.priority db_task)
    (TaskDB.due_date db_task) (TaskDB.completion_date db_task)
    (TaskDB.parent_id db_task) (Some (TaskDB.get_tags db_task))
    (TaskDB.get_metadata db_task) (TaskDB.created_at db_task)
    (TaskDB.updated_at db_task).

(** [calculate_etag]: the [updated_at] string between two double quotes. *)
Definition calculate_etag (task : TaskDB.t) : string :=
  String Json.quote (TaskDB.updated_at task +:+ String Json.quote EmptyString).

(** ** server.py: create_task *)

(** [uuid] is the value of [str(uuid4())] and [now] that of [get_utc_now()]. *)
Definition create_task (s : Store) (uuid now : string)
    (task_input : TaskInput.t) : Store * Result Task.t :=
  let db_task :=
    TaskDB.Build uuid (TaskInput.title task_input)
      (TaskInput.description task_input)
      (default false (TaskInput.completed task_input))
      (default false (TaskInput.archived task_input))
      (default 0%Z (TaskInput.priority task_input))
      (TaskInput.due_date task_input) None
      (TaskInput.parent_id task_input) None None now now in
  let db_task :=
    match TaskInput.tags task_input with
    | Some l => TaskDB.set_tags (Some l) db_task
    | None => db_task
    end in
  let db_task :=
    match TaskInput.metadata task_input with
    | Some d => TaskDB.set_metadata (Some d) db_task
    | None => db_task
    end in
  let db_task :=
    if TaskDB.completed db_task
    then TaskDB.with_completion_date (Some now) db_task
    else db_task in
  let parent_missing :=
    match TaskDB.parent_id db_task with
    | Some p => Py.truthy p && negb (bool_decide (p ∈ dom s))
    | None => false
    end in
  if parent_missing then (s, Err (ValidationError "Parent task not found"))
  else
    match db_insert s db_task with
    | Ok s' => (s', Ok (db_to_task db_task))
    | Err e => (s, Err e)
    end.

(** ** server.py: list_tasks *)

Inductive SortBy : Type :=
  | by_created_at | by_updated_at | by_title | by_priority | by_due_date
  | by_completed.

Inductive Order : Type := asc | desc.

(** The query parameters of [list_tasks], as FastAPI hands them over. *)
Module ListQuery.

Record t : Type := Build {
  completed : option bool;
  archived : option bool;
  priority : option Z;
  tag : option (list string);
  parent_id : option string;
  search : option string;
  due_before : option string;
  due_after : option string;
  overdue : option bool;
  sort_by : SortBy;
  order : Order;
  limit : nat;
  offset : nat
}.

(** Every parameter at its default. *)
Definition default : t :=
  Build None None None None None None None None None by_created_at desc 100 0.

End ListQuery.

(** [class TaskList] *)
Module TaskList.

Record t : Type := Build {
  data : list Task.t;
  total : nat;
  limit : nat;
  offset : nat
}.

End TaskList.

(** A comparison against a nullable column is NULL on NULL, and a row is
    selected only when the filter is true. *)
Definition sql_test {A} (col : option A) (test : A → bool) : bool :=
  match col with Some v => test v | None => false end.

(** [f'%"{tag_normalized}"%'] *)
Definition tag_pattern (tag_filter : string) : string :=
  "%" +:+ String Json.quote
    (Py.lower (Py.strip tag_filter) +:+ String Json.quote "%").

Definition parent_filter (parent_id : option string) (r : TaskDB.t) : bool :=
  match parent_id with
  | None => bool_decide (TaskDB.parent_id r = None)
  | Some p =>
      if bool_decide (p = "null") then bool_decide (TaskDB.parent_id r = None)
      else sql_test (TaskDB.parent_id r) (fun v => bool_decide (v = p))
  end.

Definition tag_filters (tag : option (list string)) (r : TaskDB.t) : bool :=
  match tag with
  | Some tags =>
      forallb (fun tag_filter =>
        sql_test (TaskDB.tags_text r) (Sqlite.like (tag_pattern tag_filter)))
        tags
  | None => true
  end.

Definition search_filter (search : option string) (r : TaskDB.t) : bool :=
  match search with
  | Some q =>
      if Py.truthy q then
        let search_pattern := "%" +:+ q +:+ "%" in
        Sqlite.like search_pattern (TaskDB.title r)
        || sql_test (TaskDB.description r) (Sqlite.like search_pattern)
      else true
  | None => true
  end.

(** The filters other than the one on [parent_id]; [now] is the value of
    [get_utc_now()] that the overdue filter reads. *)
Definition other_filters (q : ListQuery.t) (now : string) (r : TaskDB.t)
    : bool :=
  match ListQuery.completed q with
  | Some c => bool_decide (TaskDB.completed r = c) | None => true end
  && match ListQuery.archived q with
     | Some a => bool_decide (TaskDB.archived r = a) | None => true end
  && match ListQuery.priority q with
     | Some p => bool_decide (TaskDB.priority r = p) | None => true end
  && tag_filters (ListQuery.tag q) r
  && search_filter (ListQuery.search q) r
  && match ListQuery.due_before q with
     | Some d =>
         if Py.truthy d
         then sql_test (TaskDB.due_date r) (fun v => String.ltb v d)
         else true
     | None => true
     end
  && match ListQuery.due_after q with
     | Some d =>
         if Py.truthy d
         then sql_test (TaskDB.due_date r) (fun v => String.ltb d v)
         else true
     | None => true
     end
  && match ListQuery.overdue q with
     | Some true =>
         sql_test (TaskDB.due_date r) (fun v => String.ltb v now)
         && negb (TaskDB.completed r)
     | _ => true
     end.

(** The WHERE clause [list_tasks] builds. *)
Definition where_clause (q : ListQuery.t) (now : string) (r : TaskDB.t)
    : bool :=
  parent_filter (ListQuery.parent_id q) r && other_filters q now r.

Definition directed (o : Order) (c : comparison) : comparison :=
  match o with asc => c | desc => CompOpp c end.

(** The first ORDER BY term; [due_date] carries NULLS LAST in both
    directions ([title] too, and is never NULL). *)
Definition primary_compare (q : ListQuery.t) (a b : TaskDB.t) : comparison :=
  let o := ListQuery.order q in
  match ListQuery.sort_by q with
  | by_created_at =>
      directed o (String.compare (TaskDB.created_at a) (TaskDB.created_at b))
  | by_updated_at =>
      directed o (String.compare (TaskDB.updated_at a) (TaskDB.updated_at b))
  | by_title =>
      directed o (String.compare (TaskDB.title a) (TaskDB.title b))
  | by_priority =>
      directed o (Z.compare (TaskDB.priority a) (TaskDB.priority b))
  | by_completed =>
      directed o (Bool.compare (TaskDB.completed a) (TaskDB.completed b))
  | by_due_date =>
      match TaskDB.due_date a, TaskDB.due_date b with
      | None, None => Eq
      | None, Some _ => Gt
      | Some _, None => Lt
      | Some x, Some y => directed o (String.compare x y)
      end
  end.

(** [ORDER BY sort_col, created_at DESC]: [a] may come before [b]. *)
Definition order_by (q : ListQuery.t) (a b : TaskDB.t) : Prop :=
  match primary_compare q a b with
  | Lt => True
  | Gt => False
  | Eq => String.le (TaskDB.created_at b) (TaskDB.created_at a)
  end.

#[global] Instance order_by_dec q : RelDecision (order_by q).
Proof. intros a b. unfold order_by. destruct (primary_compare q a b); apply _. Defined.

(** The rows the query selects, sorted, before OFFSET and LIMIT. *)
Definition selected_rows (s : Store) (q : ListQuery.t) (now : string)
    : list TaskDB.t :=
  merge_sort (order_by q) (filter (fun r => where_clause q now r) (table_rows s)).

(** [list_tasks] *)
Definition list_tasks (s : Store) (q : ListQuery.t) (now : string)
    : TaskList.t :=
  let rows := selected_rows s q now in
  let total := length rows in
  let tasks := take (ListQuery.limit q) (drop (ListQuery.offset q) rows) in
  TaskList.Build (db_to_task <$> tasks) total (ListQuery.limit q)
    (ListQuery.offset q).

(** ** server.py: export_tasks *)

Definition by_created_at_asc (a b : TaskDB.t) : Prop :=
  String.le (TaskDB.created_at a) (TaskDB.created_at b).

#[global] Instance by_created_at_asc_dec : RelDecision by_created_at_asc.
Proof. intros a b. unfold by_created_at_asc. apply _. Defined.

(** [export_tasks]: the root rows by [created_at], then the others. *)
Definition export_tasks (s : Store) : list Task.t :=
  let root_tasks :=
    merge_sort by_created_at_asc
      (filter (fun r => TaskDB.parent_id r = None) (table_rows s)) in
  let child_tasks :=
    merge_sort by_created_at_asc
      (filter (fun r => TaskDB.parent_id r ≠ None) (table_rows s)) in
  let all_tasks := root_tasks ++ child_tasks in
  db_to_task <$> all_tasks.

(** ** server.py: import_tasks *)

Inductive OnConflict : Type := fail | skip | upsert.

#[global] Instance OnConflict_eq_dec : EqDecision OnConflict.
Proof. solve_decision. Defined.

(** [class ImportResponse], with the status code the handler sets. *)
Module ImportResponse.

Record t : Type := Build {
  status_code : nat;
  imported_count : nat
}.

End ImportResponse.

(** The guard of the recursive call in [add_task_with_parents]:
    [tasks_by_id[task.parent_id]] when [task.parent_id] is truthy and a key
    of [tasks_by_id]. *)
Definition parent_in_batch (tasks_by_id : gmap string Task.t) (task : Task.t)
    : option Task.t :=
  match Task.parent_id task with
  | Some p => if Py.truthy p then tasks_by_id !! p else None
  | None => None
  end.

(** [add_task_with_parents], a closure over [tasks_by_id] and over the list
    [sorted_tasks] and the set [processed], which it updates in place: the
    pair is threaded through.  [depth] is the number of frames the
    interpreter still grants; running out of them is [RecursionError],
    here [None]. *)
Fixpoint add_task_with_parents (tasks_by_id : gmap string Task.t)
    (depth : nat) (task : Task.t) (st : list Task.t * gset string)
    : option (list Task.t * gset string) :=
  match depth with
  | 0 => None
  | S depth' =>
      if bool_decide (Task.id task ∈ st.2) then Some st
      else
        st1 ← match parent_in_batch tasks_by_id task with
              | Some parent =>
                  add_task_with_parents tasks_by_id depth' parent st
              | None => Some st
              end;
        Some (st1.1 ++ [task], {[Task.id task]} ∪ st1.2)
  end.

(** [for task in tasks: add_task_with_parents(task)] *)
Fixpoint add_all (tasks_by_id : gmap string Task.t) (depth : nat)
    (tasks : list Task.t) (st : list Task.t * gset string)
    : option (list Task.t * gset string) :=
  match tasks with
  | [] => Some st
  | task :: tasks' =>
      st1 ← add_task_with_parents tasks_by_id depth task st;
      add_all tasks_by_id depth tasks' st1
  end.

(** [{task.id: task for task in tasks}]: a later record replaces an earlier
    one with the same id. *)
Definition index_by_id (tasks : list Task.t) : gmap string Task.t :=
  foldl (fun m task => <[Task.id task := task]> m) ∅ tasks.

(** The processing order: [sorted_tasks] once the loop is over. *)
Definition sort_tasks (depth : nat) (tasks : list Task.t)
    : option (list Task.t) :=
  st ← add_all (index_by_id tasks) depth tasks ([], ∅);
  Some st.1.

(** The row an import record is written as: every column from the record,
    tags and metadata through their setters; [id] is the record's id for a
    new row and the id of the row found for an upsert. *)
Definition import_row (id : string) (task : Task.t) : TaskDB.t :=
  TaskDB.set_metadata (Task.metadata task)
    (TaskDB.set_tags
       (Some (match Task.tags task with
              | Some (x :: l) => x :: l
              | _ => []
              end))
       (TaskDB.Build id (Task.title task) (Task.description task)
          (Task.completed task) (Task.archived task) (Task.priority task)
          (Task.due_date task) (Task.completion_date task)
          (Task.parent_id task) None None (Task.created_at task)
          (Task.updated_at task))).

(** What the write loop leaves in the session: rows to UPDATE (upserts of
    rows found in the table) and rows to INSERT, in the order of
    [sorted_tasks], and the count. *)
Module Pending.

Record t : Type := Build {
  updates : list TaskDB.t;
  inserts : list TaskDB.t;
  imported_count : nat
}.

End Pending.

Fixpoint write_loop (s : Store) (on_conflict : OnConflict)
    (existing_ids : list string) (sorted_tasks : list Task.t) : Pending.t :=
  match sorted_tasks with
  | [] => Pending.Build [] [] 0
  | task :: rest =>
      let p := write_loop s on_conflict existing_ids rest in
      if bool_decide (on_conflict = upsert)
         && bool_decide (Task.id task ∈ existing_ids)
      then
        match s !! Task.id task with
        | Some db_task =>
            Pending.Build
              (import_row (TaskDB.id db_task) task :: Pending.updates p)
              (Pending.inserts p) (S (Pending.imported_count p))
        | None => p
        end
      else
        Pending.Build (Pending.updates p)
          (import_row (Task.id task) task :: Pending.inserts p)
          (S (Pending.imported_count p))
  end.

(** [db.commit()]: the flush sends the UPDATEs, then the INSERTs in the
    order the rows were added; any failure rolls everything back. *)
Definition commit (s : Store) (p : Pending.t) : Result Store :=
  s1 ← run_statements db_update s (Pending.updates p);
  run_statements db_insert s1 (Pending.inserts p).

(** [import_tasks]; [depth] is the recursion depth left to
    [add_task_with_parents].  The query for [existing_ids] goes through
    the primary-key index, so the ids come in ascending order. *)
Definition import_tasks (s : Store) (depth : nat) (tasks : list Task.t)
    (validate_only : bool) (on_conflict : OnConflict)
    : Store * Result ImportResponse.t :=
  let task_ids := Task.id <$> tasks in
  if bool_decide (length task_ids ≠ size (list_to_set task_ids : gset string))
  then (s, Err (ValidationError "Duplicate IDs in import payload"))
  else
    let existing_ids := filter (fun i => i ∈ task_ids) (index_keys s) in
    if bool_decide (existing_ids ≠ []) && bool_decide (on_conflict = fail)
    then (s, Err (Conflict existing_ids))
    else
      let tasks :=
        if bool_decide (existing_ids ≠ []) && bool_decide (on_conflict = skip)
        then filter (fun task => Task.id task ∉ existing_ids) tasks
        else tasks in
      if validate_only
      then (s, Ok (ImportResponse.Build 200 (length tasks)))
      else
        match sort_tasks depth tasks with
        | None => (s, Err RecursionError)
        | Some sorted_tasks =>
            let p := write_loop s on_conflict existing_ids sorted_tasks in
            match commit s p with
            | Ok s' =>
                (s', Ok (ImportResponse.Build 201 (Pending.imported_count p)))
            | Err e => (s, Err e)
            end
        end.

(** ** server.py: parse_datetime and update_task *)

(** A [datetime]: whether it carries a UTC offset, and its instant in
    microseconds. *)
Record datetime : Type := Build_datetime {
  aware : bool;
  instant : Z
}.

(** [a > b] on datetimes: comparing an aware one with a naive one raises
    [TypeError]. *)
Definition datetime_gt (a b : datetime) : Result bool :=
  if Bool.eqb (aware a) (aware b) then Ok (instant b <? instant a)%Z
  else Err TypeError.

(** [dt_str[:-1] + '+00:00'] when [dt_str] ends in [Z], else [dt_str]. *)
Fixpoint utc_offset (dt_str : string) : string :=
  match dt_str with
  | EmptyString => EmptyString
  | String c EmptyString =>
      if bool_decide (c = "Z"%char) then "+00:00" else String c EmptyString
  | String c rest => String c (utc_offset rest)
  end.

(** The fields of [update_data], one constructor per field of [TaskUpdate]. *)
Inductive field_value : Type :=
  | f_title (value : option string)
  | f_description (value : option string)
  | f_completed (value : option bool)
  | f_archived (value : option bool)
  | f_priority (value : option Z)
  | f_due_date (value : option string)
  | f_tags (value : option (list string))
  | f_metadata (value : option Metadata)
  | f_parent_id (value : option string).

(** [task_update.model_dump(exclude_unset=True)]: the fields that were
    sent, in the order the schema declares them. *)
Definition model_dump (u : TaskUpdate.t) : list field_value :=
  option_list (f_title <$> TaskUpdate.title u)
  ++ option_list (f_description <$> TaskUpdate.description u)
  ++ option_list (f_completed <$> TaskUpdate.completed u)
  ++ option_list (f_archived <$> TaskUpdate.archived u)
  ++ option_list (f_priority <$> TaskUpdate.priority u)
  ++ option_list (f_due_date <$> TaskUpdate.due_date u)
  ++ option_list (f_tags <$> TaskUpdate.tags u)
  ++ option_list (f_metadata <$> TaskUpdate.metadata u)
  ++ option_list (f_parent_id <$> TaskUpdate.parent_id u).

(** The ORM object while [update_task] assigns to it.  A [None] assigned to
    a NOT NULL column ([title], [completed], [archived], [priority]) stays
    on the object until the commit refuses it: [null_assigned] records it,
    and the typed field keeps its old value, which nothing observes since
    that commit fails. *)
Module Dirty.

Record t : Type := Build {
  task : TaskDB.t;
  null_assigned : bool
}.

End Dirty.

Definition assign {A} (set : A → TaskDB.t → TaskDB.t) (value : option A)
    (d : Dirty.t) : Dirty.t :=
  match value with
  | Some v => Dirty.Build (set v (Dirty.task d)) (Dirty.null_assigned d)
  | None => Dirty.Build (Dirty.task d) true
  end.

(** One round of [for field, value in update_data.items()]. *)
Definition apply_field (s : Store) (d : Dirty.t) (fv : field_value)
    : Result Dirty.t :=
  let task := Dirty.task d in
  let keep f := Ok (Dirty.Build (f task) (Dirty.null_assigned d)) in
  match fv with
  | f_tags value => keep (TaskDB.set_tags value)
  | f_metadata value => keep (TaskDB.set_metadata value)
  | f_parent_id value =>
      if Py.truthy_opt value && negb (bool_decide (default "" value ∈ dom s))
      then Err (ValidationError "Parent task not found")
      else if Py.truthy_opt value
              && bool_decide (default "" value = TaskDB.id task)
      then Err (ValidationError "Task cannot be its own parent")
      else keep (TaskDB.with_parent_id value)
  | f_title value => Ok (assign TaskDB.with_title value d)
  | f_description value => keep (TaskDB.with_description value)
  | f_completed value => Ok (assign TaskDB.with_completed value d)
  | f_archived value => Ok (assign TaskDB.with_archived value d)
  | f_priority value => Ok (assign TaskDB.with_priority value d)
  | f_due_date value => keep (TaskDB.with_due_date value)
  end.

Fixpoint apply_fields (s : Store) (d : Dirty.t) (update_data : list field_value)
    : Result Dirty.t :=
  match update_data with
  | [] => Ok d
  | fv :: rest => d' ← apply_field s d fv; apply_fields s d' rest
  end.

(** ["completed" in update_data] *)
Definition sets_completed (update_data : list field_value) : bool :=
  existsb (fun fv => match fv with f_completed _ => true | _ => false end)
    update_data.

(** The completion-date rule after the loop; [now] is [get_utc_now()]. *)
Definition completion_rule (update_data : list field_value)
    (old_completed : bool) (now : string) (task : TaskDB.t) : TaskDB.t :=
  if sets_completed update_data then
    if TaskDB.completed task && negb old_completed
    then TaskDB.with_completion_date (Some now) task
    else if negb (TaskDB.completed task) && old_completed
    then TaskDB.with_completion_date None task
    else task
  else task.

(** The [If-Match] check. *)
Definition check_if_match (task : TaskDB.t) (if_match : option string)
    : Result unit :=
  if Py.truthy_opt if_match then
    let current_etag := calculate_etag task in
    if bool_decide (default "" if_match ≠ current_etag)
    then Err (PreconditionFailed "ETag does not match current resource")
    else Ok ()
  else Ok ().

Section Update.

(** [datetime.fromisoformat]; [None] is its [ValueError]. *)
Variable fromisoformat : string → option datetime.

(** [parse_datetime] *)
Definition parse_datetime (dt_str : option string)
    : Result (option datetime) :=
  match dt_str with
  | None => Ok None
  | Some str =>
      if Py.truthy str then
        match fromisoformat (utc_offset str) with
        | Some d => Ok (Some d)
        | None => Err ValueError
        end
      else Ok None
  end.

(** The [If-Unmodified-Since] check. *)
Definition check_if_unmodified_since (task : TaskDB.t)
    (if_unmodified_since : option string) : Result unit :=
  if Py.truthy_opt if_unmodified_since then
    task_updated ← parse_datetime (Some (TaskDB.updated_at task));
    client_time ← parse_datetime if_unmodified_since;
    match task_updated, client_time with
    | Some a, Some b =>
        later ← datetime_gt a b;
        if later : bool
        then Err (PreconditionFailed
                    "Task has been modified since specified time")
        else Ok ()
    | _, _ => Ok ()
    end
  else Ok ().

(** The body of [update_task] once the row is found: the new row, not yet
    committed.  [now_completed] and [now_updated] are the values of the two
    calls of [get_utc_now()]. *)
Definition updated_row (s : Store) (task : TaskDB.t)
    (task_update : TaskUpdate.t) (if_unmodified_since if_match : option string)
    (now_completed now_updated : string) : Result Dirty.t :=
  _ ← check_if_unmodified_since task if_unmodified_since;
  _ ← check_if_match task if_match;
  let old_completed := TaskDB.completed task in
  let update_data := model_dump task_update in
  d ← apply_fields s (Dirty.Build task false) update_data;
  let task := completion_rule update_data old_completed now_completed
                (Dirty.task d) in
  let task := TaskDB.with_updated_at now_updated task in
  Ok (Dirty.Build task (Dirty.null_assigned d)).

(** [update_task] *)
Definition update_task (s : Store) (id : string) (task_update : TaskUpdate.t)
    (if_unmodified_since if_match : option string)
    (now_completed now_updated : string) : Store * Result Task.t :=
  match s !! id with
  | None => (s, Err NotFound)
  | Some task =>
      match updated_row s task task_update if_unmodified_since if_match
              now_completed now_updated with
      | Err e => (s, Err e)
      | Ok d =>
          if Dirty.null_assigned d then (s, Err IntegrityError)
          else
            match db_update s (Dirty.task d) with
            | Ok s' => (s', Ok (db_to_task (Dirty.task d)))
            | Err e => (s, Err e)
            end
      end
  end.

End Update.

(** ** server.py: delete_task *)

(** The row's parent is one of [doomed]. *)
Definition child_of (doomed : gset string) (r : TaskDB.t) : bool :=
  match TaskDB.parent_id r with
  | Some p => bool_decide (p ∈ doomed)
  | None => false
  end.

(** The keys of the rows whose parent is one of [doomed]. *)
Definition children_of (s : Store) (doomed : gset string) : gset string :=
  dom (filter (fun kr : string * TaskDB.t => child_of doomed kr.2) s).

(** [ondelete=CASCADE]: the keys that go with [doomed], one more
    generation of children per round. *)
Fixpoint cascade (rounds : nat) (s : Store) (doomed : gset string)
    : gset string :=
  match rounds with
  | 0 => doomed
  | S rounds' => cascade rounds' s (doomed ∪ children_of s doomed)
  end.

(** [delete_task]: the row and, through the cascade, its descendants.
    The engine runs the cascade as nested trigger programs, one level per
    generation: the program of the deleted row runs at level 0, that of a
    child inside it at level 1, and so on.  [trigger_depth] is the number
    of levels the engine grants (SQLITE_LIMIT_TRIGGER_DEPTH, 1000 unless
    configured otherwise); a cascade that reaches a row at that level
    fails with [OperationalError] and deletes nothing. *)
Definition delete_task (s : Store) (trigger_depth : nat) (id : string)
    : Store * Result unit :=
  match s !! id with
  | None => (s, Err NotFound)
  | Some task =>
      match trigger_depth with
      | 0 => (s, Err OperationalError)
      | S levels =>
          let doomed := cascade levels s {[TaskDB.id task]} in
          if bool_decide (children_of s doomed ⊆ doomed)
          then (filter (fun kr : string * TaskDB.t => kr.1 ∉ doomed) s, Ok ())
          else (s, Err OperationalError)
      end
  end.

(** ** server.py: get_task *)

(** [get_task]: the task and the [ETag] header of the response. *)
Definition get_task (s : Store) (id : string) : Result (Task.t * string) :=
  match s !! id with
  | None => Err NotFound
  | Some task => Ok (db_to_task task, calculate_etag task)
  end.

(** ** json.loads on the text of the tags column *)

(** The decoder of [json.loads], for the documents the [tags] column
    holds: an array of strings.  [None] stands for [JSONDecodeError], and
    also for what lies outside the model: a value that is not a string, or
    an escape of a code point above 255. *)
Module JsonDecoder.

(** The white space between tokens: space, TAB, LF, CR. *)
Definition is_whitespace (c : ascii) : bool :=
  let n := nat_of_ascii c in (n =? 32) || (n =? 9) || (n =? 10) || (n =? 13).

Fixpoint skip_whitespace (txt : string) : string :=
  match txt with
  | EmptyString => EmptyString
  | String c txt' => if is_whitespace c then skip_whitespace txt' else txt
  end.

(** A hexadecimal digit of a [\uXXXX] escape, in either case. *)
Definition hex_value (c : ascii) : option nat :=
  let n := nat_of_ascii c in
  if (48 <=? n) && (n <=? 57) then Some (n - 48)
  else if (97 <=? n) && (n <=? 102) then Some (n - 87)
  else if (65 <=? n) && (n <=? 70) then Some (n - 55)
  else None.

(** The character a one-letter escape stands for. *)
Definition unescape (c : ascii) : option ascii :=
  let n := nat_of_ascii c in
  if n =? 34 then Some Json.quote
  else if n =? 92 then Some Json.backslash
  else if n =? 47 then Some "/"%char
  else if n =? 98 then Some (ascii_of_nat 8)
  else if n =? 102 then Some (ascii_of_nat 12)
  else if n =? 110 then Some (ascii_of_nat 10)
  else if n =? 114 then Some (ascii_of_nat 13)
  else if n =? 116 then Some (ascii_of_nat 9)
  else None.

(** Where the scanner of a string stands: in plain text, after a
    backslash, or in a [\u] escape with [digits] digits read and [value]
    their value. *)
Inductive scan_state : Type :=
  | Plain
  | Escaped
  | Hex (digits value : nat).

(** [scanstring], in strict mode, from the character after the opening
    quote: the decoded string and the text after the closing quote. *)
Fixpoint scanstring (st : scan_state) (txt : string)
    : option (string * string) :=
  match txt with
  | EmptyString => None
  | String c txt' =>
      match st with
      | Plain =>
          if nat_of_ascii c =? 34 then Some (EmptyString, txt')
          else if nat_of_ascii c =? 92 then scanstring Escaped txt'
          else if nat_of_ascii c <? 32 then None
          else
            match scanstring Plain txt' with
            | Some (s, rest) => Some (String c s, rest)
            | None => None
            end
      | Escaped =>
          if nat_of_ascii c =? 117 then scanstring (Hex 0 0) txt'
          else
            match unescape c with
            | Some d =>
                match scanstring Plain txt' with
                | Some (s, rest) => Some (String d s, rest)
                | None => None
                end
            | None => None
            end
      | Hex digits value =>
          match hex_value c with
          | Some d =>
              let value' := 16 * value + d in
              if digits =? 3 then
                if value' <? 256 then
                  match scanstring Plain txt' with
                  | Some (s, rest) => Some (String (ascii_of_nat value') s, rest)
                  | None => None
                  end
                else None
              else scanstring (Hex (S digits) value') txt'
          | None => None
          end
      end
  end.

(** The items of an array from its first value on, up to the closing
    bracket, and the text after it.  Each item takes at least one
    character, so [fuel] above the length of the text is never used up. *)
Fixpoint array_items (fuel : nat) (txt : string)
    : option (list string * string) :=
  match fuel with
  | 0 => None
  | S fuel' =>
      match txt with
      | EmptyString => None
      | String c txt1 =>
          if nat_of_ascii c =? 34 then
            match scanstring Plain txt1 with
            | Some (s, rest) =>
                match skip_whitespace rest with
                | EmptyString => None
                | String c2 rest2 =>
                    if nat_of_ascii c2 =? 44 then
                      match array_items fuel' (skip_whitespace rest2) with
                      | Some (l, rest3) => Some (s :: l, rest3)
                      | None => None
                      end
                    else if nat_of_ascii c2 =? 93 then Some ([s], rest2)
                    else None
                end
            | None => None
            end
          else None
      end
  end.

(** [json.loads(txt)] *)
Definition loads (txt : string) : option (list string) :=
  match skip_whitespace txt with
  | EmptyString => None
  | String c txt1 =>
      if nat_of_ascii c =? 91 then
        match
          match skip_whitespace txt1 with
          | EmptyString => None
          | String c2 txt2 =>
              if nat_of_ascii c2 =? 93 then Some ([], txt2)
              else array_items (String.length txt) (skip_whitespace txt1)
          end
        with
        | Some (l, rest) =>
            match skip_whitespace rest with
            | EmptyString => Some l
            | String _ _ => None
            end
        | None => None
        end
      else None
  end.

End JsonDecoder.

(** The [tags] column as text.  [set_tags_text] is the text [set_tags]
    assigns to [self.tags], NULL for a falsy argument; [get_tags_text] is
    [get_tags] on such a column, [None] when [json.loads] raises. *)
Definition set_tags_text (tags : option (list string)) : option string :=
  match tags with
  | Some (x :: l) => Some (Json.dumps (Py.strip <$> x :: l))
  | _ => None
  end.

Definition get_tags_text (column : option string) : option (list string) :=
  match column with
  | Some txt => if Py.truthy txt then JsonDecoder.loads txt else Some []
  | None => Some []
  end.

(** ** server.py: get_utc_now *)

(** [old] stands at the head of [s]. *)
Fixpoint startswith (old s : string) : bool :=
  match old, s with
  | EmptyString, _ => true
  | String _ _, EmptyString => false
  | String a old', String c s' => bool_decide (a = c) && startswith old' s'
  end.

(** [s.replace(old, new)] for an [old] that is not empty: every occurrence
    of [old], found from the left and without overlap, becomes [new].
    [skip] counts the characters of the occurrence just found that are
    still to be passed over. *)
Fixpoint replace_from (skip : nat) (old new s : string) : string :=
  match s with
  | EmptyString => EmptyString
  | String c s' =>
      match skip with
      | S skip' => replace_from skip' old new s'
      | 0 =>
          if startswith old s
          then new +:+ replace_from (String.length old - 1) old new s'
          else String c (replace_from 0 old new s')
      end
  end.

Definition replace (old new s : string) : string := replace_from 0 old new s.

(** [datetime.now(timezone.utc)]: the fields of an aware datetime in UTC.
    A datetime keeps its year below 10000, its month, day, hour, minute
    and second below 100 and its microsecond below 1000000. *)
Module UtcDatetime.

Record t : Type := Build {
  year : N;
  month : N;
  day : N;
  hour : N;
  minute : N;
  second : N;
  microsecond : N
}.

End UtcDatetime.

Definition digit (n : N) : ascii := ascii_of_N (48 + n).

(** ["%0<width>d" % n] for [n] below [10 ^ width]: its [width] digits. *)
Fixpoint zero_padded (width : nat) (n : N) : string :=
  match width with
  | 0 => EmptyString
  | S width' =>
      zero_padded width' (n / 10) +:+ String (digit (n mod 10)) EmptyString
  end.

(** The date and the time of [isoformat()], to the second. *)
Definition isoformat_seconds (d : UtcDatetime.t) : string :=
  zero_padded 4 (UtcDatetime.year d) +:+ "-"
  +:+ zero_padded 2 (UtcDatetime.month d) +:+ "-"
  +:+ zero_padded 2 (UtcDatetime.day d) +:+ "T"
  +:+ zero_padded 2 (UtcDatetime.hour d) +:+ ":"
  +:+ zero_padded 2 (UtcDatetime.minute d) +:+ ":"
  +:+ zero_padded 2 (UtcDatetime.second d).

(** The fraction of [isoformat()]: left out when the microsecond is 0. *)
Definition isoformat_fraction (d : UtcDatetime.t) : string :=
  if (UtcDatetime.microsecond d =? 0)%N then EmptyString
  else "." +:+ zero_padded 6 (UtcDatetime.microsecond d).

(** [d.isoformat()] for an aware [d] in UTC. *)
Definition isoformat (d : UtcDatetime.t) : string :=
  isoformat_seconds d +:+ isoformat_fraction d +:+ "+00:00".

(** [get_utc_now]; [now] is the value of [datetime.now(timezone.utc)]. *)
Definition get_utc_now (now : UtcDatetime.t) : string :=
  replace "+00:00" "Z" (isoformat now).

(** * Specification vocabulary *)

(** ** The processing order of an import *)

(** The ids of a list of records, as a list and as a set. *)
Definition ids (l : list Task.t) : list string := Task.id <$> l.
Definition id_set (l : list Task.t) : gset string := list_to_set (ids l).

(** [Run M P t new]: called on [t] with [processed = P], the recursion of
    [add_task_with_parents] appends exactly [new] to [sorted_tasks].  The
    descent to the parent changes nothing, the appends happen on the way
    back. *)
Inductive Run (M : gmap string Task.t) (P : gset string)
    : Task.t → list Task.t → Prop :=
  | Run_done t : Task.id t ∈ P → Run M P t []
  | Run_root t :
      Task.id t ∉ P → parent_in_batch M t = None → Run M P t [t]
  | Run_step t p new :
      Task.id t ∉ P → parent_in_batch M t = Some p → Run M P p new →
      Run M P t (new ++ [t]).

(** Every value of the dict sits under its own id. *)
Definition keyed (M : gmap string Task.t) : Prop :=
  ∀ k x, M !! k = Some x → Task.id x = k.

(** [t] is the record the dict holds for its id. *)
Definition indexed (M : gmap string Task.t) (t : Task.t) : Prop :=
  M !! Task.id t = Some t.

(** In [L], the in-batch parent of every record stands before it. *)
Definition parents_first (M : gmap string Task.t) (L : list Task.t) : Prop :=
  ∀ l1 x l2 p, L = l1 ++ x :: l2 → parent_in_batch M x = Some p → p ∈ l1.

(** The invariant of [sorted_tasks] between two calls of the loop. *)
Record Inv (M : gmap string Task.t) (L : list Task.t) : Prop := {
  Inv_indexed : Forall (indexed M) L;
  Inv_NoDup : NoDup L;
  Inv_parents : parents_first M L
}.

(** [grounded M t]: following in-batch parent references from [t] ends at a
    record that has none.  A reference is what the recursion follows: a
    truthy [parent_id] that is a key of [tasks_by_id]. *)
Inductive grounded (M : gmap string Task.t) : Task.t → Prop :=
  | grounded_root t : parent_in_batch M t = None → grounded M t
  | grounded_step t p :
      parent_in_batch M t = Some p → grounded M p → grounded M t.

(** Every chain of in-batch parent references of [batch] ends. *)
Definition all_grounded (batch : list Task.t) : Prop :=
  Forall (grounded (index_by_id batch)) batch.

(** [a] stands before [b] in [l]. *)
Definition before (a b : Task.t) (l : list Task.t) : Prop :=
  ∃ l1 l2 l3, l = l1 ++ a :: l2 ++ b :: l3.

(** [reaches M t u]: [u] is an ancestor of [t] along in-batch parent
    references. *)
Inductive reaches (M : gmap string Task.t) : Task.t → Task.t → Prop :=
  | reaches_parent t p : parent_in_batch M t = Some p → reaches M t p
  | reaches_step t p u :
      parent_in_batch M t = Some p → reaches M p u → reaches M t u.

(** The in-batch parent references of [batch] form no cycle: no record is
    its own ancestor. *)
Definition acyclic (batch : list Task.t) : Prop :=
  ∀ t, t ∈ batch → ¬ reaches (index_by_id batch) t t.

(** ** The import pipeline *)

(** The ids of the batch that are keys of the table, in the order of the
    primary-key index, as the query for [existing_ids] returns them. *)
Definition existing_ids (s : Store) (tasks : list Task.t) : list string :=
  filter (fun i => i ∈ ids tasks) (index_keys s).

(** The records left after the conflict policy: [skip] drops those whose
    id exists. *)
Definition remaining_tasks (s : Store) (on_conflict : OnConflict)
    (tasks : list Task.t) : list Task.t :=
  if bool_decide (existing_ids s tasks ≠ []) && bool_decide (on_conflict = skip)
  then filter (fun task => Task.id task ∉ existing_ids s tasks) tasks
  else tasks.

(** ** The states of the table *)

(** The tables the handlers can produce from the empty one. *)
Inductive reachable (fromisoformat : string → option datetime)
    : Store → Prop :=
  | reachable_empty : reachable fromisoformat ∅
  | reachable_create s uuid now task_input :
      reachable fromisoformat s →
      reachable fromisoformat (create_task s uuid now task_input).1
  | reachable_update s id task_update if_unmodified_since if_match
      now_completed now_updated :
      reachable fromisoformat s →
      reachable fromisoformat
        (update_task fromisoformat s id task_update if_unmodified_since
           if_match now_completed now_updated).1
  | reachable_delete s trigger_depth id :
      reachable fromisoformat s →
      reachable fromisoformat (delete_task s trigger_depth id).1
  | reachable_import s depth tasks validate_only on_conflict :
      reachable fromisoformat s →
      reachable fromisoformat
        (import_tasks s depth tasks validate_only on_conflict).1.

(** ** Invariants of the table *)

(** Every row sits under its own id. *)
Definition keyed_store (s : Store) : Prop :=
  ∀ k r, s !! k = Some r → TaskDB.id r = k.

(** No row with a truthy [parent_id] is its own parent. *)
Definition no_self_parent (s : Store) : Prop :=
  ∀ k r p, s !! k = Some r → TaskDB.parent_id r = Some p →
           Py.truthy p = true → p ≠ TaskDB.id r.

(** A row as [set_tags] and [set_metadata] leave it: a stored tag list is
    not empty and its tags are stripped, a stored dict is not empty. *)
Definition normal_row (r : TaskDB.t) : Prop :=
  match TaskDB.tags r with
  | Some l => l ≠ [] ∧ Forall (fun tag => Py.strip tag = tag) l
  | None => True
  end
  ∧ TaskDB.task_metadata r ≠ Some [].

Definition normal_store (s : Store) : Prop :=
  ∀ k r, s !! k = Some r → normal_row r.

(** [rooted s r]: the parent chain of [r] leads, through truthy ids of
    rows of the table, to a row without parent. *)
Inductive rooted (s : Store) : TaskDB.t → Prop :=
  | rooted_root r : TaskDB.parent_id r = None → rooted s r
  | rooted_child r p parent :
      TaskDB.parent_id r = Some p → Py.truthy p = true →
      s !! p = Some parent → rooted s parent → rooted s r.

(** The table is a forest: every row is rooted. *)
Definition forest (s : Store) : Prop :=
  ∀ k r, s !! k = Some r → rooted s r.

(** A statement writes its row under the row's id and touches nothing
    else. *)
Definition writes_row (stmt : Store → TaskDB.t → Result Store) : Prop :=
  ∀ s r s', stmt s r = Ok s' → s' = <[TaskDB.id r := r]> s.

(** ** The field loop of update_task *)

(** [parent_ok r]: the row is not its own parent through a truthy id. *)
Definition parent_ok (r : TaskDB.t) : Prop :=
  ∀ p, TaskDB.parent_id r = Some p → Py.truthy p = true → p ≠ TaskDB.id r.

(** The columns the field loop never assigns. *)
Definition same_identity (a b : TaskDB.t) : Prop :=
  TaskDB.id a = TaskDB.id b
  ∧ TaskDB.completion_date a = TaskDB.completion_date b
  ∧ TaskDB.created_at a = TaskDB.created_at b
  ∧ TaskDB.updated_at a = TaskDB.updated_at b.

(** The value [completed] holds after the loop over [update_data]. *)
Definition completed_after (update_data : list field_value) (old : bool) : bool :=
  foldl (fun c fv => match fv with f_completed (Some b) => b | _ => c end)
    old update_data.

(** The row [update_task] commits when the field loop ends in [d]. *)
Definition committed_row (task : TaskDB.t) (u : TaskUpdate.t)
    (now_completed now_updated : string) (d : Dirty.t) : TaskDB.t :=
  TaskDB.with_updated_at now_updated
    (completion_rule (model_dump u) (TaskDB.completed task) now_completed
       (Dirty.task d)).

(** ** Export and re-import *)

(** The rows in the order [export_tasks] returns them. *)
Definition export_rows (s : Store) : list TaskDB.t :=
  merge_sort by_created_at_asc
    (filter (fun r => TaskDB.parent_id r = None) (table_rows s))
  ++ merge_sort by_created_at_asc
       (filter (fun r => TaskDB.parent_id r ≠ None) (table_rows s)).

(** A row with the key it is stored under. *)
Definition key_row (r : TaskDB.t) : string * TaskDB.t := (TaskDB.id r, r).

(** The row an import record is inserted as. *)
Definition inserted_row (t : Task.t) : TaskDB.t := import_row (Task.id t) t.

(** ** Listing *)

(** The rows a default listing is about: root rows that pass the other
    filters. *)
Definition root_and_filtered (q : ListQuery.t) (now : string) (r : TaskDB.t)
    : Prop :=
  TaskDB.parent_id r = None ∧ other_filters q now r = true.

#[global] Instance root_and_filtered_dec q now r :
  Decision (root_and_filtered q now r).
Proof. unfold root_and_filtered. apply _. Defined.

(** ** Sample data *)

(** An import record with the given id and parent id. *)
Definition record (id : string) (parent_id : option string) : Task.t :=
  Task.Build id "Task" None false false 0%Z None None parent_id None None
    "2025-11-01T00:00:00Z" "2025-11-01T00:00:00Z".

(** A stored row with the given id and parent id. *)
Definition sample_row (id : string) (parent_id : option string) : TaskDB.t :=
  TaskDB.Build id "Task" None false false 0%Z None None parent_id None None
    "2025-11-01T00:00:00Z" "2025-11-01T00:00:00Z".

(** A parser for the examples, none of which sends a date: it accepts
    nothing. *)
Definition no_datetime : string → option datetime := fun _ => None.

(** A table with one root task. *)
Definition one_task : Store := {["t1" := sample_row "t1" None]}.

(** The payload that sets [completed] and nothing else. *)
Definition set_completed (b : bool) : TaskUpdate.t :=
  TaskUpdate.Build None None (Some (Some b)) None None None None None None.

(** The payload that sets [title] and nothing else. *)
Definition set_title (title : string) : TaskUpdate.t :=
  TaskUpdate.Build (Some (Some title)) None None None None None None None None.

(** A parent and its child. *)
Definition parent_and_child : Store :=
  <["B" := sample_row "B" (Some "A")]> {["A" := sample_row "A" None]}.

(** The payload that sets [parent_id] and nothing else. *)
Definition set_parent_id (parent_id : option string) : TaskUpdate.t :=
  TaskUpdate.Build None None None None None None None None (Some parent_id).

(** A task with the given title under the given parent. *)
Definition new_task (title : string) (parent_id : option string)
    : TaskInput.t :=
  TaskInput.Build title None None None None None None None parent_id.

(** Create A, create B under A, then move A under B. *)
Definition two_cycle : Store :=
  (update_task no_datetime
     (create_task
        (create_task ∅ "A" "2025-11-01T00:00:00Z" (new_task "A" None)).1
        "B" "2025-11-01T00:00:01Z" (new_task "B" (Some "A"))).1
     "A" (set_parent_id (Some "B")) None None
     "2025-11-01T00:00:02Z" "2025-11-01T00:00:02Z").1.

(** A root task with the given tags. *)
Definition tagged_row (id : string) (tags : list string) : TaskDB.t :=
  TaskDB.set_tags (Some tags) (sample_row id None).

(** The query that only filters by tags. *)
Definition tag_query (tags : list string) : ListQuery.t :=
  ListQuery.Build None None None (Some tags) None None None None None
    by_created_at desc 100 0.

(** Following the spec: every supplied tag, trimmed and compared without
    regard to case, is one of the task's tags. *)
Definition tags_present (filters : list string) (r : TaskDB.t) : bool :=
  forallb (fun tag_filter =>
    existsb (fun tag =>
      bool_decide (Py.lower (Py.strip tag_filter) = Py.lower tag))
      (TaskDB.get_tags r)) filters.


(** ** The depth of the recursion *)

(** [grounded_within M n t]: following in-batch parent references from [t]
    ends after at most [n] of them; the call on [t] then needs at most
    [n + 1] frames. *)
Inductive grounded_within (M : gmap string Task.t) : nat → Task.t → Prop :=
  | grounded_within_root n t :
      parent_in_batch M t = None → grounded_within M n t
  | grounded_within_step n t p :
      parent_in_batch M t = Some p → grounded_within M n p →
      grounded_within M (S n) t.

(** [chain_of M n t]: from [t], [n] in-batch parent references can be
    followed in a row. *)
Inductive chain_of (M : gmap string Task.t) : nat → Task.t → Prop :=
  | chain_of_0 t : chain_of M 0 t
  | chain_of_S n t p :
      parent_in_batch M t = Some p → chain_of M n p → chain_of M (S n) t.

(** [rooted_within s n r]: the parent chain of [r] leads, through at most
    [n] truthy ids of rows of the table, to a row without parent. *)
Inductive rooted_within (s : Store) : nat → TaskDB.t → Prop :=
  | rooted_within_root n r : TaskDB.parent_id r = None → rooted_within s n r
  | rooted_within_child n r p parent :
      TaskDB.parent_id r = Some p → Py.truthy p = true →
      s !! p = Some parent → rooted_within s n parent →
      rooted_within s (S n) r.

(** The records the conflict policy keeps: all of them, except under
    [skip] those whose id is stored. *)
Definition kept (s : Store) (on_conflict : OnConflict) (task : Task.t)
    : Prop :=
  ¬ (on_conflict = skip ∧ Task.id task ∈ dom s).

#[global] Instance kept_dec s on_conflict task :
  Decision (kept s on_conflict task).
Proof. unfold kept. apply _. Defined.

(** ** Chains *)

(** The ids of a chain: [t], [+t], [++t], ... *)
Fixpoint chain_id (n : nat) : string :=
  match n with
  | 0 => "t"
  | S n' => String "+" (chain_id n')
  end.

(** The record at position [n] of a chain: its parent is the record at
    position [n - 1], the record at position 0 has none. *)
Definition chain_record (n : nat) : Task.t :=
  record (chain_id n)
    (match n with 0 => None | S n' => Some (chain_id n') end).

(** A chain of [n + 1] records, submitted from the deepest record up to
    the root. *)
Fixpoint chain_batch (n : nat) : list Task.t :=
  chain_record n ::
  match n with
  | 0 => []
  | S n' => chain_batch n'
  end.

(** Create three root tasks, then move the first under the second and the
    second under the third: a chain whose deepest task is the oldest. *)
Definition reversed_chain : Store :=
  (update_task no_datetime
     (update_task no_datetime
        (create_task
           (create_task
              (create_task ∅ "C" "2025-11-01T00:00:00Z" (new_task "C" None)).1
              "B" "2025-11-01T00:00:01Z" (new_task "B" None)).1
           "A" "2025-11-01T00:00:02Z" (new_task "A" None)).1
        "B" (set_parent_id (Some "A")) None None
        "2025-11-01T00:00:03Z" "2025-11-01T00:00:03Z").1
     "C" (set_parent_id (Some "B")) None None
     "2025-11-01T00:00:04Z" "2025-11-01T00:00:04Z").1.
(** ** Referential integrity and the cascade *)

(** Every [parent_id] that is not NULL is the key of a row. *)
Definition referential_integrity (s : Store) : Prop :=
  ∀ k r p, s !! k = Some r → TaskDB.parent_id r = Some p → p ∈ dom s.

(** [descends s root k]: [k] is [root], or the key of a row whose parent
    chain leads to [root]. *)
Inductive descends (s : Store) (root : string) : string → Prop :=
  | descends_self : descends s root root
  | descends_child k r p :
      s !! k = Some r → TaskDB.parent_id r = Some p → descends s root p →
      descends s root k.

(** [level s root n k]: [k] is [n] generations below [root]: [root]
    itself for [n = 0], else the key of a row other than [root] whose
    parent is [n - 1] generations below [root].  The cascade reaches [k]
    in the trigger program nested [n] levels deep. *)
Inductive level (s : Store) (root : string) : nat → string → Prop :=
  | level_root : level s root 0 root
  | level_child n k r p :
      k ≠ root → s !! k = Some r → TaskDB.parent_id r = Some p →
      level s root n p → level s root (S n) k.

(** ** The fields of a partial update *)

(** The keys [update_data] can hold. *)
Inductive field_name : Type :=
  | n_title | n_description | n_completed | n_archived | n_priority
  | n_due_date | n_tags | n_metadata | n_parent_id.

#[global] Instance field_name_eq_dec : EqDecision field_name.
Proof. solve_decision. Defined.

(** The fields in the order the schema declares them. *)
Definition field_names : list field_name :=
  [n_title; n_description; n_completed; n_archived; n_priority; n_due_date;
   n_tags; n_metadata; n_parent_id].

(** The key of an item of [update_data]. *)
Definition name_of (fv : field_value) : field_name :=
  match fv with
  | f_title _ => n_title
  | f_description _ => n_description
  | f_completed _ => n_completed
  | f_archived _ => n_archived
  | f_priority _ => n_priority
  | f_due_date _ => n_due_date
  | f_tags _ => n_tags
  | f_metadata _ => n_metadata
  | f_parent_id _ => n_parent_id
  end.

(** The payload sets the field, to a value or to [null]. *)
Definition sent (n : field_name) (u : TaskUpdate.t) : bool :=
  match n with
  | n_title => bool_decide (is_Some (TaskUpdate.title u))
  | n_description => bool_decide (is_Some (TaskUpdate.description u))
  | n_completed => bool_decide (is_Some (TaskUpdate.completed u))
  | n_archived => bool_decide (is_Some (TaskUpdate.archived u))
  | n_priority => bool_decide (is_Some (TaskUpdate.priority u))
  | n_due_date => bool_decide (is_Some (TaskUpdate.due_date u))
  | n_tags => bool_decide (is_Some (TaskUpdate.tags u))
  | n_metadata => bool_decide (is_Some (TaskUpdate.metadata u))
  | n_parent_id => bool_decide (is_Some (TaskUpdate.parent_id u))
  end.

(** The column of a row that a field names, read as a field value. *)
Definition column (n : field_name) (r : TaskDB.t) : field_value :=
  match n with
  | n_title => f_title (Some (TaskDB.title r))
  | n_description => f_description (TaskDB.description r)
  | n_completed => f_completed (Some (TaskDB.completed r))
  | n_archived => f_archived (Some (TaskDB.archived r))
  | n_priority => f_priority (Some (TaskDB.priority r))
  | n_due_date => f_due_date (TaskDB.due_date r)
  | n_tags => f_tags (TaskDB.tags r)
  | n_metadata => f_metadata (TaskDB.task_metadata r)
  | n_parent_id => f_parent_id (TaskDB.parent_id r)
  end.

(** What a column holds once a field value went through its setter: tags
    are stripped, an empty tag list and an empty dict become NULL, every
    other value is kept. *)
Definition stored (fv : field_value) : field_value :=
  match fv with
  | f_tags (Some (x :: l)) => f_tags (Some (Py.strip <$> x :: l))
  | f_tags _ => f_tags None
  | f_metadata (Some (x :: d)) => f_metadata (Some (x :: d))
  | f_metadata _ => f_metadata None
  | _ => fv
  end.

(** ** Queries *)

(** [q] with another page. *)
Definition page (limit offset : nat) (q : ListQuery.t) : ListQuery.t :=
  ListQuery.Build (ListQuery.completed q) (ListQuery.archived q)
    (ListQuery.priority q) (ListQuery.tag q) (ListQuery.parent_id q)
    (ListQuery.search q) (ListQuery.due_before q) (ListQuery.due_after q)
    (ListQuery.overdue q) (ListQuery.sort_by q) (ListQuery.order q)
    limit offset.

(** [q] with another [parent_id] parameter. *)
Definition under (parent_id : option string) (q : ListQuery.t)
    : ListQuery.t :=
  ListQuery.Build (ListQuery.completed q) (ListQuery.archived q)
    (ListQuery.priority q) (ListQuery.tag q) parent_id
    (ListQuery.search q) (ListQuery.due_before q) (ListQuery.due_after q)
    (ListQuery.overdue q) (ListQuery.sort_by q) (ListQuery.order q)
    (ListQuery.limit q) (ListQuery.offset q).

(** The rows a listing under parent [p] is about. *)
Definition child_and_filtered (p : string) (q : ListQuery.t) (now : string)
    (r : TaskDB.t) : Prop :=
  TaskDB.parent_id r = Some p ∧ other_filters q now r = true.

#[global] Instance child_and_filtered_dec p q now r :
  Decision (child_and_filtered p q now r).
Proof. unfold child_and_filtered. apply _. Defined.



(** A string with its ASCII capitals folded, as LIKE compares it. *)
Fixpoint fold_string (s : string) : string :=
  match s with
  | EmptyString => EmptyString
  | String c s' => String (Sqlite.fold_ascii c) (fold_string s')
  end.

(** A character [json.dumps] writes as it is and [lower] leaves in ASCII:
    space to tilde without the quote and the backslash. *)
Definition plain_char (c : ascii) : bool :=
  let n := nat_of_ascii c in
  (32 <=? n) && (n <=? 126) && negb (n =? 34) && negb (n =? 92).

Fixpoint plain (s : string) : bool :=
  match s with
  | EmptyString => true
  | String c s' => plain_char c && plain s'
  end.

(** ** Orders *)

(** Comparisons that order their type. *)
Record ordering {A} (cmp : A → A → comparison) : Prop := {
  ordering_eq a b : cmp a b = Eq → a = b;
  ordering_refl a : cmp a a = Eq;
  ordering_antisym a b : cmp b a = CompOpp (cmp a b);
  ordering_trans a b c : cmp a b = Lt → cmp b c = Lt → cmp a c = Lt
}.

(** NULLS LAST over a directed comparison. *)
Definition nulls_last {A} (cmp : A → A → comparison) (a b : option A)
    : comparison :=
  match a, b with
  | None, None => Eq
  | None, Some _ => Gt
  | Some _, None => Lt
  | Some x, Some y => cmp x y
  end.

(** ** The ORDER BY clause *)

(** A value of a sort column: text, an integer or a boolean. *)
Inductive sort_value : Type :=
  | text_value (v : string)
  | int_value (v : Z)
  | bool_value (v : bool).

(** The value a row has in the column [sort_by] names; NULL is [None],
    and only [due_date] can be NULL. *)
Definition sort_column (sort_by : SortBy) (r : TaskDB.t)
    : option sort_value :=
  match sort_by with
  | by_created_at => Some (text_value (TaskDB.created_at r))
  | by_updated_at => Some (text_value (TaskDB.updated_at r))
  | by_title => Some (text_value (TaskDB.title r))
  | by_priority => Some (int_value (TaskDB.priority r))
  | by_due_date => text_value <$> TaskDB.due_date r
  | by_completed => Some (bool_value (TaskDB.completed r))
  end.

(** [x] sorts strictly before [y] in ascending order: text by code
    points, integers by value, false before true. *)
Definition value_lt (x y : sort_value) : Prop :=
  match x, y with
  | text_value a, text_value b => String.le a b ∧ a ≠ b
  | int_value a, int_value b => (a < b)%Z
  | bool_value a, bool_value b => a = false ∧ b = true
  | _, _ => False
  end.

(** Following the clause [ORDER BY sort_col <order> NULLS LAST,
    created_at DESC]: [a] may stand before [b] when its value in the sort
    column comes strictly first in the direction asked for, or when [b]
    has NULL there and [a] has not, or when both have the same value, or
    both NULL, and [a] was not created before [b]. *)
Definition in_order (q : ListQuery.t) (a b : TaskDB.t) : Prop :=
  match sort_column (ListQuery.sort_by q) a,
        sort_column (ListQuery.sort_by q) b with
  | Some x, Some y =>
      match ListQuery.order q with
      | asc => value_lt x y
      | desc => value_lt y x
      end
      ∨ (x = y ∧ String.le (TaskDB.created_at b) (TaskDB.created_at a))
  | Some _, None => True
  | None, Some _ => False
  | None, None => String.le (TaskDB.created_at b) (TaskDB.created_at a)
  end.

(** ** Export and import *)

(** [a] was created no later than [b], as the [created_at] strings
    compare. *)
Definition created_before (a b : Task.t) : Prop :=
  String.le (Task.created_at a) (Task.created_at b).

(** A statement that writes its row under the row's id once the foreign
    key has been checked against the table before it. *)
Definition checks_fk (stmt : Store → TaskDB.t → Result Store) : Prop :=
  ∀ s r s', stmt s r = Ok s' →
    s' = <[TaskDB.id r := r]> s
    ∧ fk_ok s (TaskDB.id r) (TaskDB.parent_id r) = true.

(** The rows a commit sends, UPDATEs first. *)
Definition pending_rows (p : Pending.t) : list TaskDB.t :=
  Pending.updates p ++ Pending.inserts p.

(** ** More sample data *)

(** A parser that knows two instants, one day apart. *)
Definition sample_fromisoformat (dt_str : string) : option datetime :=
  if bool_decide (dt_str = "2025-11-01T00:00:00+00:00")
  then Some (Build_datetime true 0)
  else if bool_decide (dt_str = "2025-11-02T00:00:00+00:00")
  then Some (Build_datetime true 86400000000)
  else None.

(** A task with a title and tags, everything else left out. *)
Definition tagged_task (title : string) (tags : list string) : TaskInput.t :=
  TaskInput.Build title None None None None None (Some tags) None None.

(** ** NOT NULL columns *)

(** The item assigns [None] to a column that is NOT NULL. *)
Definition null_for_not_null (fv : field_value) : bool :=
  match fv with
  | f_title None | f_completed None | f_archived None | f_priority None => true
  | _ => false
  end.

(** The payload sends [null] for a column that is NOT NULL. *)
Definition sends_null (u : TaskUpdate.t) : bool :=
  bool_decide (TaskUpdate.title u = Some None)
  || bool_decide (TaskUpdate.completed u = Some None)
  || bool_decide (TaskUpdate.archived u = Some None)
  || bool_decide (TaskUpdate.priority u = Some None).

(** The parent the payload names, if it names one, is stored and is not
    the task itself; the empty string passes the handler's check, so for
    it only the foreign key asks that it is stored. *)
Definition parent_accepted (s : Store) (id : string) (u : TaskUpdate.t)
    : Prop :=
  ∀ p, TaskUpdate.parent_id u = Some (Some p) →
       p ∈ dom s ∧ (Py.truthy p = true → p ≠ id).

(** ** Clock readings *)

(** The fields are in the ranges a datetime keeps them in. *)
Definition in_range (d : UtcDatetime.t) : Prop :=
  (UtcDatetime.year d < 10000 ∧ UtcDatetime.month d < 100
   ∧ UtcDatetime.day d < 100 ∧ UtcDatetime.hour d < 100
   ∧ UtcDatetime.minute d < 100 ∧ UtcDatetime.second d < 100
   ∧ UtcDatetime.microsecond d < 1000000)%N.

(** One comparison after another. *)
Definition then_compare (c1 c2 : comparison) : comparison :=
  match c1 with Eq => c2 | _ => c1 end.

(** Two readings compared to the second, in the order of time. *)
Definition compare_seconds (a b : UtcDatetime.t) : comparison :=
  then_compare (UtcDatetime.year a ?= UtcDatetime.year b)%N
    (then_compare (UtcDatetime.month a ?= UtcDatetime.month b)%N
       (then_compare (UtcDatetime.day a ?= UtcDatetime.day b)%N
          (then_compare (UtcDatetime.hour a ?= UtcDatetime.hour b)%N
             (then_compare (UtcDatetime.minute a ?= UtcDatetime.minute b)%N
                (UtcDatetime.second a ?= UtcDatetime.second b)%N)))).

(** Two readings in the order of time. *)
Definition compare_time (a b : UtcDatetime.t) : comparison :=
  then_compare (compare_seconds a b)
    (UtcDatetime.microsecond a ?= UtcDatetime.microsecond b)%N.

(** No [+] in the string. *)
Fixpoint no_plus (s : string) : bool :=
  match s with
  | EmptyString => true
  | String c s' => negb (bool_decide (c = "+"%char)) && no_plus s'
  end.

(** A reading on a whole second and one within the same second. *)
Definition whole_second : UtcDatetime.t :=
  UtcDatetime.Build 2025 11 1 0 0 0 0.
Definition same_second : UtcDatetime.t :=
  UtcDatetime.Build 2025 11 1 0 0 0 5.

(** * Proofs *)

(** ** The recursion of add_task_with_parents *)

Lemma add_task_with_parents_Run M depth t L P st' :
  add_task_with_parents M depth t (L, P) = Some st' →
  ∃ new, Run M P t new ∧ st' = (L ++ new, id_set new ∪ P).
Proof.
  revert t st'. induction depth as [|depth IH]; intros t st' H; [done|].
  simpl in H. case_bool_decide as Hin.
  - simplify_eq. exists []. split; [by constructor|].
    rewrite app_nil_r. f_equal. unfold id_set. simpl. set_solver.
  - destruct (parent_in_batch M t) as [p|] eqn:Hp; simplify_option_eq.
    + destruct (IH _ _ Heqo) as (new & Hrun & ->). 
      exists (new ++ [t]). split; [by eapply Run_step|].
      simpl. rewrite app_assoc. f_equal. unfold id_set, ids. rewrite fmap_app, list_to_set_app_L. simpl. set_solver.
    + exists [t]. split; [by constructor|]. simpl. f_equal. unfold id_set. simpl. set_solver.
Qed.

Lemma Run_add_task_with_parents M P t new L depth :
  Run M P t new → length new < depth →
  add_task_with_parents M depth t (L, P) = Some (L ++ new, id_set new ∪ P).
Proof.
  intros Hrun. revert depth. induction Hrun as [t Hin|t Hin Hp|t p new Hin Hp Hrun IH]; intros depth Hd.
  - destruct depth; [lia|]. simpl. rewrite bool_decide_eq_true_2 by done.
    rewrite app_nil_r. do 2 f_equal. unfold id_set; simpl. set_solver.
  - destruct depth; [simpl in Hd; lia|]. simpl. rewrite bool_decide_eq_false_2 by done.
    rewrite Hp. simpl. do 2 f_equal. unfold id_set; simpl. set_solver.
  - destruct depth; [simpl in Hd; lia|]. simpl. rewrite bool_decide_eq_false_2 by done.
    rewrite Hp. rewrite IH by (rewrite length_app in Hd; simpl in Hd; lia).
    simpl. rewrite app_assoc. do 2 f_equal. unfold id_set, ids. rewrite fmap_app, list_to_set_app_L. simpl. set_solver.
Qed.

Lemma parent_in_batch_Some M t p :
  parent_in_batch M t = Some p →
  ∃ k, Task.parent_id t = Some k ∧ Py.truthy k = true ∧ M !! k = Some p.
Proof.
  unfold parent_in_batch. destruct (Task.parent_id t) as [k|]; [|done].
  destruct (Py.truthy k) eqn:Hk; [|done]. eauto.
Qed.

Lemma parent_in_batch_indexed M t p :
  keyed M → parent_in_batch M t = Some p → indexed M p.
Proof.
  intros HM (k & _ & _ & Hk)%parent_in_batch_Some.
  unfold indexed. by rewrite (HM _ _ Hk).
Qed.

Lemma indexed_inj M x y : indexed M x → indexed M y → Task.id x = Task.id y → x = y.
Proof. unfold indexed. intros Hx Hy E. rewrite E in Hx. congruence. Qed.

Lemma Run_fresh M P t new x : Run M P t new → x ∈ new → Task.id x ∉ P.
Proof.
  induction 1 as [| |t p new Hin Hp Hrun IH]; intros Hx.
  - by apply elem_of_nil in Hx.
  - by apply list_elem_of_singleton in Hx as ->.
  - apply elem_of_app in Hx as [Hx|Hx]; [auto|].
    by apply list_elem_of_singleton in Hx as ->.
Qed.

Lemma Run_functional M P t new1 new2 : Run M P t new1 → Run M P t new2 → new1 = new2.
Proof.
  intros H1. revert new2.
  induction H1 as [| |t p new Hin Hp Hrun IH]; intros new2 H2; inversion H2; simplify_eq; try done.
  f_equal. auto.
Qed.

Lemma Run_prefix M P t new x :
  Run M P t new → x ∈ new → ∃ pre suf, new = pre ++ suf ∧ Run M P x pre.
Proof.
  induction 1 as [t Hin|t Hin Hp|t p new Hin Hp Hrun IH]; intros Hx.
  - by apply elem_of_nil in Hx.
  - apply list_elem_of_singleton in Hx as ->. exists [t], []. split; [done|by constructor].
  - apply elem_of_app in Hx as [Hx|Hx].
    + destruct (IH Hx) as (pre & suf & -> & Hpre).
      exists pre, (suf ++ [t]). by rewrite app_assoc.
    + apply list_elem_of_singleton in Hx as ->.
      exists (new ++ [t]), []. rewrite app_nil_r. split; [done|by eapply Run_step].
Qed.

Lemma Run_NoDup M P t new : Run M P t new → NoDup new.
Proof.
  induction 1 as [t Hin|t Hin Hp|t p new Hin Hp Hrun IH].
  - constructor.
  - apply NoDup_singleton.
  - apply NoDup_app. split_and!; [done| |apply NoDup_singleton].
    intros x Hx Hx'. apply list_elem_of_singleton in Hx'. subst x.
    destruct (Run_prefix _ _ _ _ _ Hrun Hx) as (pre & suf & -> & Hpre).
    assert (Run M P t ((pre ++ suf) ++ [t])) as Hfull by by eapply Run_step.
    pose proof (Run_functional _ _ _ _ _ Hpre Hfull) as E.
    apply (f_equal length) in E. rewrite !length_app in E. simpl in E. lia.
Qed.

Lemma Run_indexed M P t new :
  keyed M → indexed M t → Run M P t new → Forall (indexed M) new.
Proof.
  intros HM Ht. induction 1 as [t Hin|t Hin Hp|t p new Hin Hp Hrun IH].
  - constructor.
  - by repeat constructor.
  - apply Forall_app. split; [|by repeat constructor].
    apply IH. by eapply parent_in_batch_indexed.
Qed.

Lemma Run_processed M P t new : Run M P t new → Task.id t ∈ id_set new ∪ P.
Proof.
  unfold id_set, ids. destruct 1; [set_solver|set_solver|]. rewrite fmap_app. set_solver.
Qed.

(** After the run of [p], [p] is in the list or was processed before. *)
Lemma Run_covers M P t new : Run M P t new → Task.id t ∈ P ∨ t ∈ new.
Proof. destruct 1; [by left|right..]; set_solver. Qed.

Lemma NoDup_ids_indexed M (l : list Task.t) :
  Forall (indexed M) l → NoDup l → NoDup (ids l).
Proof.
  intros Hl Hnd. unfold ids. apply NoDup_fmap_2_strong; [|done].
  intros x y Hx Hy. rewrite Forall_forall in Hl. apply (indexed_inj M); auto.
Qed.

Lemma elem_of_id_set (l : list Task.t) k : k ∈ id_set l ↔ ∃ x, x ∈ l ∧ Task.id x = k.
Proof. unfold id_set, ids. rewrite elem_of_list_to_set, list_elem_of_fmap. naive_solver. Qed.

Lemma id_set_indexed M L x :
  Forall (indexed M) L → indexed M x → Task.id x ∈ id_set L → x ∈ L.
Proof.
  intros HL Hx (y & Hy & E)%elem_of_id_set. rewrite Forall_forall in HL.
  by rewrite <- (indexed_inj M y x) by auto.
Qed.

Lemma parents_first_snoc M L t :
  parents_first M L → (∀ p, parent_in_batch M t = Some p → p ∈ L) →
  parents_first M (L ++ [t]).
Proof.
  intros HL Ht l1 x l2 p E Hp.
  destruct l2 as [|y l2 _] using rev_ind.
  - apply app_inj_tail in E as [-> ->]. auto.
  - rewrite app_comm_cons, app_assoc in E. apply app_inj_tail in E as [-> ->].
    by eapply HL.
Qed.

Lemma Run_parents_first M L t new :
  keyed M → Forall (indexed M) L → parents_first M L →
  Run M (id_set L) t new → parents_first M (L ++ new).
Proof.
  intros HM HL Hpf. induction 1 as [t Hin|t Hin Hp|t p new Hin Hp Hrun IH].
  - by rewrite app_nil_r.
  - apply parents_first_snoc; [done|]. congruence.
  - rewrite app_assoc. apply parents_first_snoc; [done|].
    intros p' Hp'. simplify_eq. apply elem_of_app.
    destruct (Run_covers _ _ _ _ Hrun) as [Hin'|Hin']; [left|by right].
    eapply id_set_indexed; [done| |done]. by eapply parent_in_batch_indexed.
Qed.

Lemma Run_Inv M L t new :
  keyed M → indexed M t → Inv M L → Run M (id_set L) t new → Inv M (L ++ new).
Proof.
  intros HM Ht [HL Hnd Hpf] Hrun. split.
  - apply Forall_app. split; [done|]. by eapply Run_indexed.
  - apply NoDup_app. split_and!; [done| |by eapply Run_NoDup].
    intros x Hx Hx'. apply (Run_fresh _ _ _ _ _ Hrun) in Hx'. apply Hx'.
    apply elem_of_id_set. eauto.
  - by eapply Run_parents_first.
Qed.

Lemma id_set_app (l1 l2 : list Task.t) : id_set (l1 ++ l2) = id_set l2 ∪ id_set l1.
Proof. unfold id_set, ids. rewrite fmap_app, list_to_set_app_L. set_solver. Qed.

Lemma add_all_Inv M depth tasks L st' :
  keyed M → Forall (indexed M) tasks → Inv M L →
  add_all M depth tasks (L, id_set L) = Some st' →
  ∃ L', st' = (L', id_set L') ∧ Inv M L' ∧ (∃ new, L' = L ++ new)
        ∧ ∀ t, t ∈ tasks → t ∈ L'.
Proof.
  intros HM. revert L st'.
  induction tasks as [|t tasks IH]; intros L st' Hts HL H; simpl in H.
  - simplify_eq. exists L. split_and!; [done..|by exists []; rewrite app_nil_r|set_solver].
  - apply Forall_cons in Hts as [Ht Hts].
    destruct (add_task_with_parents M depth t (L, id_set L)) as [st1|] eqn:H1; [|done].
    simpl in H. apply add_task_with_parents_Run in H1 as (new & Hrun & ->).
    rewrite <- id_set_app in H.
    pose proof (Run_Inv _ _ _ _ HM Ht HL Hrun) as HL1.
    destruct (IH _ _ Hts HL1 H) as (L' & -> & HL' & (new' & ->) & Hall).
    exists ((L ++ new) ++ new'). split_and!; [done|done|by exists (new ++ new'); rewrite app_assoc|].
    intros x [->|Hx]%elem_of_cons; [|auto].
    apply elem_of_app. left.
    destruct (Run_covers _ _ _ _ Hrun) as [Hin|Hin]; [|set_solver].
    apply elem_of_app. left. eapply id_set_indexed; [apply HL|done..].
Qed.

Lemma index_by_id_snoc l x :
  index_by_id (l ++ [x]) = <[Task.id x := x]> (index_by_id l).
Proof. unfold index_by_id. by rewrite foldl_app. Qed.

Lemma index_by_id_lookup l k x :
  index_by_id l !! k = Some x → x ∈ l ∧ Task.id x = k.
Proof.
  induction l as [|y l IH] using rev_ind; [done|].
  rewrite index_by_id_snoc. intros H.
  apply lookup_insert_Some in H as [[<- <-]|[_ H]]; [set_solver|].
  destruct (IH H). set_solver.
Qed.

Lemma index_by_id_keyed l : keyed (index_by_id l).
Proof. intros k x H. by apply index_by_id_lookup in H as [_ ?]. Qed.

Lemma index_by_id_indexed l x :
  NoDup (ids l) → x ∈ l → indexed (index_by_id l) x.
Proof.
  unfold indexed, ids. induction l as [|y l IH] using rev_ind; [by intros _ ?%elem_of_nil|].
  rewrite fmap_app, index_by_id_snoc. simpl.
  intros [Hnd [Hdisj _]]%NoDup_app Hx.
  destruct (decide (Task.id y = Task.id x)) as [E|NE].
  - rewrite E, lookup_insert_eq. f_equal.
    apply elem_of_app in Hx as [Hx|Hx]; [|by apply list_elem_of_singleton in Hx].
    exfalso. apply (Hdisj (Task.id x)); [by apply list_elem_of_fmap_2|]. rewrite E. set_solver.
  - rewrite lookup_insert_ne by done. apply IH; [done|].
    apply elem_of_app in Hx as [Hx|Hx]; [done|]. apply list_elem_of_singleton in Hx. congruence.
Qed.

Lemma Inv_nil M : Inv M [].
Proof.
  split; [constructor|constructor|]. intros l1 x l2 p E. by destruct l1.
Qed.

Lemma NoDup_ids (l : list Task.t) : NoDup (ids l) → NoDup l.
Proof. apply NoDup_fmap_1. Qed.

(** What a computed processing order is. *)
Lemma sort_tasks_Some depth batch sorted :
  NoDup (ids batch) → sort_tasks depth batch = Some sorted →
  sorted ≡ₚ batch ∧ parents_first (index_by_id batch) sorted.
Proof.
  intros Hnd H. unfold sort_tasks in H.
  destruct (add_all _ _ _ _) as [st|] eqn:Hall; [|done]. simpl in H. simplify_eq.
  change (∅ : gset string) with (id_set []) in Hall.
  apply add_all_Inv in Hall as (L' & -> & [Hidx Hnd' Hpf] & _ & Hcov);
    [|apply index_by_id_keyed| |apply Inv_nil].
  - simpl. split; [|done]. apply NoDup_Permutation; [done|by apply NoDup_ids|].
    intros x. split; [|apply Hcov].
    intros Hx. rewrite Forall_forall in Hidx.
    by apply Hidx, index_by_id_lookup in Hx as [? _].
  - apply Forall_forall. intros x Hx. by apply index_by_id_indexed.
Qed.

Lemma grounded_Run M P t : grounded M t → ∃ new, Run M P t new.
Proof.
  induction 1 as [t Hp|t p Hp Hg [new IH]].
  - destruct (decide (Task.id t ∈ P)); [exists []; by constructor|exists [t]; by constructor].
  - destruct (decide (Task.id t ∈ P)); [exists []; by constructor|].
    exists (new ++ [t]). by eapply Run_step.
Qed.

Lemma Inv_length batch L :
  Inv (index_by_id batch) L → length L ≤ length batch.
Proof.
  intros [Hidx Hnd _]. apply submseteq_length, NoDup_submseteq; [done|].
  intros x Hx. rewrite Forall_forall in Hidx.
  by apply Hidx, index_by_id_lookup in Hx as [? _].
Qed.

Lemma add_all_total batch depth tasks L :
  let M := index_by_id batch in
  Forall (indexed M) tasks → Forall (grounded M) tasks → Inv M L →
  length batch < depth →
  is_Some (add_all M depth tasks (L, id_set L)).
Proof.
  intros M. revert L. induction tasks as [|t tasks IH]; intros L Hidx Hg HL Hd; [done|].
  apply Forall_cons in Hidx as [Ht Hidx]. apply Forall_cons in Hg as [Hgt Hg].
  destruct (grounded_Run M (id_set L) t Hgt) as [new Hrun].
  pose proof (Run_Inv _ _ _ _ (index_by_id_keyed batch) Ht HL Hrun) as HL1.
  simpl. rewrite (Run_add_task_with_parents _ _ _ _ _ _ Hrun).
  - simpl. rewrite <- id_set_app. by apply IH.
  - apply Inv_length in HL1. rewrite length_app in HL1. lia.
Qed.

Lemma sort_tasks_total depth batch :
  NoDup (ids batch) → all_grounded batch → length batch < depth →
  is_Some (sort_tasks depth batch).
Proof.
  intros Hnd Hac Hd. unfold sort_tasks.
  destruct (add_all_total batch depth batch []) as [st Hst];
    [|done|apply Inv_nil|done|].
  - apply Forall_forall. intros x Hx. by apply index_by_id_indexed.
  - change (id_set []) with (∅ : gset string) in Hst. by rewrite Hst.
Qed.

Lemma parents_first_prefix M L x : parents_first M (L ++ [x]) → parents_first M L.
Proof.
  intros H l1 y l2 p -> Hp. apply (H l1 y (l2 ++ [x]) p); [|done].
  by rewrite <- app_assoc.
Qed.

Lemma parents_first_grounded M L : parents_first M L → Forall (grounded M) L.
Proof.
  induction L as [|x L IH] using rev_ind; [constructor|].
  intros H. pose proof (IH (parents_first_prefix _ _ _ H)) as HL.
  apply Forall_app. split; [done|]. constructor; [|constructor].
  destruct (parent_in_batch M x) as [p|] eqn:Hp; [|by constructor].
  eapply grounded_step; [done|]. rewrite Forall_forall in HL. apply HL.
  apply (H L x [] p); [done|done].
Qed.

Lemma sort_tasks_all_grounded depth batch sorted :
  NoDup (ids batch) → sort_tasks depth batch = Some sorted → all_grounded batch.
Proof.
  intros Hnd H. destruct (sort_tasks_Some _ _ _ Hnd H) as [Hperm Hpf].
  unfold all_grounded. apply parents_first_grounded in Hpf.
  rewrite Forall_forall in Hpf |- *. intros x Hx. apply Hpf. by rewrite Hperm.
Qed.

(** ** The duplicate-id check *)

Lemma size_list_to_set_le (l : list string) :
  size (list_to_set l : gset string) ≤ length l.
Proof.
  induction l as [|x l IH]; [done|].
  rewrite list_to_set_cons. simpl length.
  pose proof (size_union_alt ({[x]} : gset string) (list_to_set l)) as E.
  rewrite size_singleton in E.
  assert (size (list_to_set l ∖ {[x]} : gset string) ≤ size (list_to_set l : gset string))
    by (apply subseteq_size; set_solver).
  lia.
Qed.


Lemma length_size_NoDup (l : list string) :
  length l = size (list_to_set l : gset string) ↔ NoDup l.
Proof.
  split.
  - induction l as [|x l IH]; [constructor|].
    rewrite list_to_set_cons. simpl length.
    intros E. pose proof (size_list_to_set_le l) as Hle.
    destruct (decide (x ∈ l)) as [Hin|Hin].
    + exfalso. replace ({[x]} ∪ list_to_set l : gset string) with (list_to_set l : gset string) in E by set_solver.
      lia.
    + rewrite size_union, size_singleton in E by set_solver.
      constructor; [done|]. apply IH. lia.
  - intros Hnd. induction Hnd as [|x l Hin Hnd IH]; [done|].
    rewrite list_to_set_cons. simpl length.
    rewrite size_union, size_singleton by set_solver. lia.
Qed.

(** ** What an import run goes through *)

Lemma remaining_tasks_NoDup s oc tasks :
  NoDup (ids tasks) → NoDup (ids (remaining_tasks s oc tasks)).
Proof.
  intros Hnd. unfold remaining_tasks.
  destruct (_ && _); [|done]. unfold ids in *.
  eapply sublist_NoDup; [done|]. apply fmap_sublist, sublist_filter.
Qed.

(** What a committed import went through. *)
Lemma import_tasks_committed s depth tasks oc s' resp :
  import_tasks s depth tasks false oc = (s', Ok resp) →
  NoDup (ids tasks)
  ∧ ∃ sorted,
      sort_tasks depth (remaining_tasks s oc tasks) = Some sorted
      ∧ commit s (write_loop s oc (existing_ids s tasks) sorted) = Ok s'
      ∧ resp = ImportResponse.Build 201
                 (Pending.imported_count
                    (write_loop s oc (existing_ids s tasks) sorted)).
Proof.
  unfold import_tasks. fold (ids tasks). fold (existing_ids s tasks).
  case_bool_decide as Hdup; [done|].
  apply length_size_NoDup in Hdup.
  destruct (bool_decide (existing_ids s tasks ≠ []) && bool_decide (oc = fail)); [done|].
  fold (remaining_tasks s oc tasks).
  destruct (sort_tasks depth (remaining_tasks s oc tasks)) as [sorted|]; [|done].
  destruct (commit _ _) as [s1|] eqn:Hc; [|done].
  intros [= <- <-]. split; [done|]. by exists sorted.
Qed.

Lemma import_tasks_validate_only s depth tasks oc :
  import_tasks s depth tasks true oc =
  if bool_decide (¬ NoDup (ids tasks))
  then (s, Err (ValidationError "Duplicate IDs in import payload"))
  else if bool_decide (existing_ids s tasks ≠ []) && bool_decide (oc = fail)
  then (s, Err (Conflict (existing_ids s tasks)))
  else (s, Ok (ImportResponse.Build 200 (length (remaining_tasks s oc tasks)))).
Proof.
  unfold import_tasks. fold (ids tasks). fold (existing_ids s tasks).
  rewrite (bool_decide_ext _ (¬ NoDup (ids tasks))).
  2:{ rewrite <- length_size_NoDup. done. }
  case_bool_decide; [done|].
  by destruct (_ && _).
Qed.

Lemma write_loop_count s oc existing sorted :
  (∀ t, t ∈ sorted → Task.id t ∈ existing → is_Some (s !! Task.id t)) →
  Pending.imported_count (write_loop s oc existing sorted) = length sorted.
Proof.
  induction sorted as [|t sorted IH]; intros H; [done|].
  simpl. destruct (_ && _) eqn:Hc.
  - apply andb_prop in Hc as [_ Hin%bool_decide_eq_true].
    destruct (H t) as [r ->]; [set_solver|done|]. simpl. rewrite IH; [done|set_solver].
  - simpl. rewrite IH; [done|set_solver].
Qed.

Lemma index_keys_Permutation s : index_keys s ≡ₚ elements (dom s).
Proof. apply merge_sort_Permutation. Qed.

Lemma elem_of_index_keys s k : k ∈ index_keys s ↔ k ∈ dom s.
Proof. by rewrite index_keys_Permutation, elem_of_elements. Qed.

Lemma NoDup_index_keys s : NoDup (index_keys s).
Proof. rewrite index_keys_Permutation. apply NoDup_elements. Qed.

Lemma index_keys_sorted s : StronglySorted String.le (index_keys s).
Proof. apply (StronglySorted_merge_sort _). Qed.

Lemma elem_of_existing_ids s tasks k :
  k ∈ existing_ids s tasks ↔ k ∈ dom s ∧ k ∈ ids tasks.
Proof.
  unfold existing_ids. rewrite list_elem_of_filter, elem_of_index_keys.
  tauto.
Qed.

Lemma import_tasks_run s depth tasks oc :
  import_tasks s depth tasks false oc =
  if bool_decide (¬ NoDup (ids tasks))
  then (s, Err (ValidationError "Duplicate IDs in import payload"))
  else if bool_decide (existing_ids s tasks ≠ []) && bool_decide (oc = fail)
  then (s, Err (Conflict (existing_ids s tasks)))
  else
    match sort_tasks depth (remaining_tasks s oc tasks) with
    | None => (s, Err RecursionError)
    | Some sorted =>
        let p := write_loop s oc (existing_ids s tasks) sorted in
        match commit s p with
        | Ok s' => (s', Ok (ImportResponse.Build 201 (Pending.imported_count p)))
        | Err e => (s, Err e)
        end
    end.
Proof.
  unfold import_tasks. fold (ids tasks). fold (existing_ids s tasks).
  rewrite (bool_decide_ext _ (¬ NoDup (ids tasks))).
  2:{ rewrite <- length_size_NoDup. done. }
  case_bool_decide; [done|].
  by destruct (_ && _).
Qed.


(** The count is the number of statements the commit sends. *)
Lemma imported_count_counts_writes s oc existing sorted :
  Pending.imported_count (write_loop s oc existing sorted)
  = length (Pending.updates (write_loop s oc existing sorted))
    + length (Pending.inserts (write_loop s oc existing sorted)).
Proof.
  induction sorted as [|t sorted IH]; [done|]. simpl.
  destruct (_ && _); [destruct (s !! Task.id t)|]; simpl; lia.
Qed.
(** ** Rows written by the setters and by a commit *)

Lemma set_tags_id v r : TaskDB.id (TaskDB.set_tags v r) = TaskDB.id r.
Proof. by destruct v as [[|??]|]. Qed.
Lemma set_tags_parent_id v r :
  TaskDB.parent_id (TaskDB.set_tags v r) = TaskDB.parent_id r.
Proof. by destruct v as [[|??]|]. Qed.
Lemma set_metadata_id v r : TaskDB.id (TaskDB.set_metadata v r) = TaskDB.id r.
Proof. by destruct v as [[|??]|]. Qed.
Lemma set_metadata_parent_id v r :
  TaskDB.parent_id (TaskDB.set_metadata v r) = TaskDB.parent_id r.
Proof. by destruct v as [[|??]|]. Qed.

Lemma import_row_id i t : TaskDB.id (import_row i t) = i.
Proof. unfold import_row. by rewrite set_metadata_id, set_tags_id. Qed.
Lemma import_row_parent_id i t :
  TaskDB.parent_id (import_row i t) = Task.parent_id t.
Proof. unfold import_row. by rewrite set_metadata_parent_id, set_tags_parent_id. Qed.

Lemma db_insert_writes_row : writes_row db_insert.
Proof.
  intros s r s'. unfold db_insert. repeat case_match; by intros [= <-].
Qed.
Lemma db_update_writes_row : writes_row db_update.
Proof.
  intros s r s'. unfold db_update. repeat case_match; by intros [= <-].
Qed.

Lemma run_statements_rows stmt s rows s' k r :
  writes_row stmt → run_statements stmt s rows = Ok s' →
  s' !! k = Some r → s !! k = Some r ∨ r ∈ rows.
Proof.
  intros Hstmt. revert s. induction rows as [|x rows IH]; intros s H Hk; simpl in H.
  - left. congruence.
  - destruct (stmt s x) as [s1|] eqn:Hx; [|done]. simpl in H.
    destruct (IH _ H Hk) as [Hk1|Hin]; [|set_solver].
    rewrite (Hstmt _ _ _ Hx) in Hk1.
    apply lookup_insert_Some in Hk1 as [[_ <-]|[_ ?]]; [set_solver|by left].
Qed.

Lemma commit_rows s p s' k r :
  commit s p = Ok s' → s' !! k = Some r →
  s !! k = Some r ∨ r ∈ Pending.updates p ∨ r ∈ Pending.inserts p.
Proof.
  unfold commit. intros H Hk.
  destruct (run_statements db_update s (Pending.updates p)) as [s1|] eqn:H1; [|done].
  simpl in H.
  destruct (run_statements_rows _ _ _ _ _ _ db_insert_writes_row H Hk) as [Hk1|?]; [|auto].
  destruct (run_statements_rows _ _ _ _ _ _ db_update_writes_row H1 Hk1); auto.
Qed.

(** Every row the write loop leaves pending comes from a record of the
    processing order, under the record's id. *)
Lemma write_loop_rows s oc existing sorted r :
  keyed_store s →
  r ∈ Pending.updates (write_loop s oc existing sorted)
  ∨ r ∈ Pending.inserts (write_loop s oc existing sorted) →
  ∃ t, t ∈ sorted ∧ r = import_row (Task.id t) t.
Proof.
  intros Hs. induction sorted as [|t sorted IH]; simpl.
  - intros [[]%elem_of_nil|[]%elem_of_nil].
  - destruct (_ && _).
    + destruct (s !! Task.id t) as [db_task|] eqn:Hdb; simpl.
      * rewrite (Hs _ _ Hdb). rewrite elem_of_cons.
        intros [[->|?]|?]; [set_solver|..]; destruct IH as (t' & ? & ?); set_solver.
      * intros H. destruct (IH H) as (t' & ? & ?). set_solver.
    + simpl. rewrite elem_of_cons.
      intros [?|[->|?]]; [|set_solver|]; destruct IH as (t' & ? & ?); set_solver.
Qed.

Lemma self_parent_not_grounded M t :
  parent_in_batch M t = Some t → ¬ grounded M t.
Proof. intros Hp Hg. induction Hg; simplify_eq; auto. Qed.

(** A processing order is computed only for a batch in which no record
    names itself as its parent through a truthy id. *)
Lemma sort_tasks_no_self_parent depth batch sorted t p :
  NoDup (ids batch) → sort_tasks depth batch = Some sorted →
  t ∈ batch → Task.parent_id t = Some p → Py.truthy p = true →
  p ≠ Task.id t.
Proof.
  intros Hnd Hs Ht Hp Htr ->.
  pose proof (sort_tasks_all_grounded _ _ _ Hnd Hs) as Hac.
  unfold all_grounded in Hac. rewrite Forall_forall in Hac.
  apply (self_parent_not_grounded (index_by_id batch) t); [|auto].
  unfold parent_in_batch. rewrite Hp, Htr. by apply index_by_id_indexed.
Qed.

Lemma remaining_tasks_subseteq s oc tasks t :
  t ∈ remaining_tasks s oc tasks → t ∈ tasks.
Proof.
  unfold remaining_tasks. destruct (_ && _); [|done].
  by intros [_ ?]%list_elem_of_filter.
Qed.

Lemma import_no_self_parent s depth tasks validate_only oc :
  keyed_store s → no_self_parent s →
  no_self_parent (import_tasks s depth tasks validate_only oc).1.
Proof.
  intros Hk Hs. destruct validate_only.
  { rewrite import_tasks_validate_only. by repeat case_match. }
  destruct (import_tasks s depth tasks false oc) as [s' [resp|e]] eqn:H.
  2:{ assert (s' = s) as ->; [|done].
      unfold import_tasks in H. repeat case_match; by simplify_eq. }
  apply import_tasks_committed in H as (Hnd & sorted & Hsort & Hc & _). simpl.
  intros k r p Hr Hp Htr.
  destruct (commit_rows _ _ _ _ _ Hc Hr) as [Hold|Hnew]; [by eapply Hs|].
  apply write_loop_rows in Hnew as (t & Ht & ->); [|done].
  rewrite import_row_id. rewrite import_row_parent_id in Hp.
  pose proof (remaining_tasks_NoDup s oc tasks Hnd) as Hnd'.
  eapply sort_tasks_no_self_parent; [done..| |done|done].
  destruct (sort_tasks_Some _ _ _ Hnd' Hsort) as [Hperm _]. by rewrite <- Hperm.
Qed.

Lemma create_no_self_parent s uuid now task_input :
  no_self_parent s → no_self_parent (create_task s uuid now task_input).1.
Proof.
  intros Hs. unfold create_task.
  set (r0 := TaskDB.Build _ _ _ _ _ _ _ _ _ _ _ _ _).
  set (r1 := match TaskInput.tags task_input with Some l => _ | None => _ end).
  set (r2 := match TaskInput.metadata task_input with Some l => _ | None => _ end).
  set (r3 := if TaskDB.completed r2 then _ else _).
  assert (TaskDB.id r3 = uuid ∧ TaskDB.parent_id r3 = TaskInput.parent_id task_input) as [Hid Hpar].
  { assert (TaskDB.id r2 = uuid ∧ TaskDB.parent_id r2 = TaskInput.parent_id task_input) as [??].
    { unfold r2, r1. repeat case_match;
        by rewrite ?set_metadata_id, ?set_tags_id, ?set_metadata_parent_id,
             ?set_tags_parent_id. }
    unfold r3. by destruct (TaskDB.completed r2). }
  destruct (match TaskDB.parent_id r3 with Some p => _ | None => _ end) eqn:Hmiss; [done|].
  unfold db_insert. case_bool_decide as Hfresh; [done|].
  destruct (fk_ok _ _ _); [|done]. simpl.
  intros k r p Hr Hp Htr.
  apply lookup_insert_Some in Hr as [[_ <-]|[_ Hr]]; [|by eapply Hs].
  rewrite Hp, Htr in Hmiss. simpl in Hmiss.
  apply negb_false_iff, bool_decide_eq_true in Hmiss. congruence.
Qed.

(** ** The field loop of update_task *)

Lemma apply_field_identity s d fv d' :
  apply_field s d fv = Ok d' → same_identity (Dirty.task d') (Dirty.task d).
Proof.
  intros H. unfold apply_field in H.
  destruct fv as [[?|]|?|[?|]|[?|]|[?|]|?|[[|??]|]|[[|??]|]|?];
    simpl in H; repeat case_match; simplify_eq; done.
Qed.

Lemma apply_fields_identity s d update_data d' :
  apply_fields s d update_data = Ok d' →
  same_identity (Dirty.task d') (Dirty.task d).
Proof.
  revert d. induction update_data as [|fv l IH]; intros d H; simpl in H.
  - by simplify_eq.
  - destruct (apply_field s d fv) as [d1|] eqn:H1; [|done]. simpl in H.
    destruct (IH _ H) as (?&?&?&?), (apply_field_identity _ _ _ _ H1) as (?&?&?&?).
    split_and!; congruence.
Qed.

Lemma apply_field_parent_ok s d fv d' :
  apply_field s d fv = Ok d' → parent_ok (Dirty.task d) →
  parent_ok (Dirty.task d').
Proof.
  intros H Hd. unfold apply_field in H.
  destruct fv as [[?|]|?|[?|]|[?|]|[?|]|?|[[|??]|]|[[|??]|]|value];
    simpl in H; simplify_eq; try done.
  destruct (Py.truthy_opt value) eqn:Htr; simpl in H.
  - repeat case_bool_decide; simpl in H; simplify_eq.
    intros p Hp _. simpl in *. subst value. simpl in *. congruence.
  - simplify_eq. intros p Hp Hp'. simpl in *. subst value. simpl in Htr. congruence.
Qed.

Lemma apply_fields_parent_ok s d update_data d' :
  apply_fields s d update_data = Ok d' → parent_ok (Dirty.task d) →
  parent_ok (Dirty.task d').
Proof.
  revert d. induction update_data as [|fv l IH]; intros d H Hd; simpl in H.
  - by simplify_eq.
  - destruct (apply_field s d fv) as [d1|] eqn:H1; [|done].
    eauto using apply_field_parent_ok.
Qed.

Lemma apply_field_completed s d fv d' :
  apply_field s d fv = Ok d' → Dirty.null_assigned d' = false →
  Dirty.null_assigned d = false
  ∧ TaskDB.completed (Dirty.task d')
    = match fv with
      | f_completed (Some b) => b
      | _ => TaskDB.completed (Dirty.task d)
      end.
Proof.
  intros H. unfold apply_field in H.
  destruct fv as [[?|]|?|[?|]|[?|]|[?|]|?|[[|??]|]|[[|??]|]|?];
    simpl in H; repeat case_match; simplify_eq; done.
Qed.

Lemma apply_fields_completed s d update_data d' :
  apply_fields s d update_data = Ok d' → Dirty.null_assigned d' = false →
  Dirty.null_assigned d = false
  ∧ TaskDB.completed (Dirty.task d')
    = completed_after update_data (TaskDB.completed (Dirty.task d)).
Proof.
  revert d. induction update_data as [|fv l IH]; intros d H Hn; simpl in H.
  - by simplify_eq.
  - destruct (apply_field s d fv) as [d1|] eqn:H1; [|done]. simpl in H.
    destruct (IH _ H Hn) as [Hn1 ->].
    destruct (apply_field_completed _ _ _ _ H1 Hn1) as [? ->].
    split; [done|]. simpl. by destruct fv as [| |[]| | | | | |].
Qed.

Lemma sets_completed_model_dump u :
  sets_completed (model_dump u) = bool_decide (is_Some (TaskUpdate.completed u)).
Proof.
  destruct u as [a b c d e f g h i]. unfold sets_completed, model_dump. simpl.
  destruct c as [c|]; destruct a, b, d, e, f, g, h, i; reflexivity.
Qed.

Lemma completed_after_model_dump u old :
  completed_after (model_dump u) old
  = match TaskUpdate.completed u with Some (Some b) => b | _ => old end.
Proof.
  destruct u as [a b c d e f g h i]. unfold completed_after, model_dump. simpl.
  rewrite !foldl_app.
  destruct a, b, d, e, f, g, h, i; simpl; by destruct c as [[?|]|].
Qed.

Section UpdateProofs.

Variable fromisoformat : string → option datetime.

Lemma update_task_Ok s id task u ius im n1 n2 s' resp :
  s !! id = Some task →
  update_task fromisoformat s id u ius im n1 n2 = (s', Ok resp) →
  ∃ d, check_if_unmodified_since fromisoformat task ius = Ok ()
       ∧ check_if_match task im = Ok ()
       ∧ apply_fields s (Dirty.Build task false) (model_dump u) = Ok d
       ∧ Dirty.null_assigned d = false
       ∧ s' = <[TaskDB.id task := committed_row task u n1 n2 d]> s
       ∧ resp = db_to_task (committed_row task u n1 n2 d).
Proof.
  intros Ht. unfold update_task, updated_row. rewrite Ht.
  destruct (check_if_unmodified_since _ _ _) as [[]|]; [|done]. simpl.
  destruct (check_if_match _ _) as [[]|]; [|done]. simpl.
  destruct (apply_fields _ _ _) as [d|] eqn:Hd; [|done]. simpl.
  destruct (Dirty.null_assigned d) eqn:Hn; [done|].
  fold (committed_row task u n1 n2 d).
  destruct (db_update _ _) as [s1|] eqn:Hu; [|done].
  intros [= <- <-]. exists d. split_and!; try done.
  apply db_update_writes_row in Hu. rewrite Hu. f_equal.
  destruct (apply_fields_identity _ _ _ _ Hd) as (Hid & _).
  unfold committed_row, completion_rule. simpl in Hid. rewrite <- Hid.
  by repeat case_match.
Qed.

Lemma update_task_Err s id u ius im n1 n2 s' e :
  update_task fromisoformat s id u ius im n1 n2 = (s', Err e) → s' = s.
Proof.
  unfold update_task. repeat case_match; by intros [= <- _].
Qed.

Lemma committed_row_completion_date s task u n1 n2 d :
  apply_fields s (Dirty.Build task false) (model_dump u) = Ok d →
  Dirty.null_assigned d = false →
  TaskDB.completion_date (committed_row task u n1 n2 d)
  = match TaskUpdate.completed u with
    | Some (Some true) =>
        if TaskDB.completed task then TaskDB.completion_date task else Some n1
    | Some (Some false) =>
        if TaskDB.completed task then None else TaskDB.completion_date task
    | _ => TaskDB.completion_date task
    end.
Proof.
  intros Hd Hn.
  destruct (apply_fields_identity _ _ _ _ Hd) as (_ & Hcd & _).
  destruct (apply_fields_completed _ _ _ _ Hd Hn) as [_ Hc].
  rewrite completed_after_model_dump in Hc. simpl in Hc, Hcd.
  unfold committed_row, completion_rule. rewrite sets_completed_model_dump, Hc.
  destruct (TaskUpdate.completed u) as [[[]|]|]; simpl;
    destruct (TaskDB.completed task); simpl; try done.
  all: by destruct (TaskDB.completed (Dirty.task d)).
Qed.

End UpdateProofs.

(** ** Normalised tags and metadata *)

Lemma lstrip_length s : String.length (Py.lstrip s) ≤ String.length s.
Proof.
  induction s as [|c s IH]; simpl; [done|].
  destruct (Py.isspace c); simpl; lia.
Qed.

Lemma rstrip_length s : String.length (Py.rstrip s) ≤ String.length s.
Proof.
  induction s as [|c s IH]; simpl; [done|].
  destruct (Py.rstrip s); [destruct (Py.isspace c)|]; simpl in *; lia.
Qed.

Lemma strip_length s : String.length (Py.strip s) ≤ String.length s.
Proof.
  unfold Py.strip. etrans; [apply rstrip_length|apply lstrip_length].
Qed.

Lemma rstrip_idemp s : Py.rstrip (Py.rstrip s) = Py.rstrip s.
Proof.
  induction s as [|c s IH]; [done|]. simpl.
  destruct (Py.rstrip s) as [|d r] eqn:Hr.
  - destruct (Py.isspace c) eqn:Hc; [done|]. simpl. by rewrite Hc.
  - simpl. simpl in IH. by rewrite IH.
Qed.

Lemma lstrip_rstrip_fixed s :
  Py.lstrip s = s → Py.lstrip (Py.rstrip s) = Py.rstrip s.
Proof.
  destruct s as [|c s]; [done|]. simpl.
  destruct (Py.isspace c) eqn:Hc.
  - intros E. exfalso. pose proof (lstrip_length s) as H.
    rewrite E in H. simpl in H. lia.
  - intros _. destruct (Py.rstrip s); simpl; by rewrite Hc.
Qed.

Lemma lstrip_idemp s : Py.lstrip (Py.lstrip s) = Py.lstrip s.
Proof.
  induction s as [|c s IH]; [done|]. simpl.
  destruct (Py.isspace c) eqn:Hc; [done|]. simpl. by rewrite Hc.
Qed.

(** [strip] is idempotent: a stored tag is its own normal form. *)
Lemma strip_idemp s : Py.strip (Py.strip s) = Py.strip s.
Proof.
  unfold Py.strip.
  rewrite (lstrip_rstrip_fixed (Py.lstrip s)) by apply lstrip_idemp.
  apply rstrip_idemp.
Qed.

(** Tags that pass [validate_tags] still pass it once [set_tags] has
    stripped them: what is stored can be exported and imported again. *)
Lemma validate_tags_strip l :
  validate_tags (Some l) = true → validate_tags (Some (Py.strip <$> l)) = true.
Proof.
  unfold validate_tags. rewrite !forallb_forall. intros H tag Hin.
  apply list_elem_of_In, list_elem_of_fmap in Hin as (t & -> & Ht).
  apply list_elem_of_In, H in Ht. apply andb_prop in Ht as [Hne Hlen].
  rewrite strip_idemp, Hne. simpl.
  apply Nat.leb_le in Hlen. apply Nat.leb_le.
  pose proof (strip_length t). lia.
Qed.

Lemma set_tags_normal v r :
  normal_row r → normal_row (TaskDB.set_tags v r).
Proof.
  intros [_ Hm]. destruct v as [[|x l]|]; split; try done.
  unfold TaskDB.set_tags, TaskDB.with_tags, TaskDB.tags.
  split; [done|]. apply Forall_fmap, Forall_forall. intros t _. apply strip_idemp.
Qed.

Lemma set_metadata_normal v r :
  normal_row r → normal_row (TaskDB.set_metadata v r).
Proof. intros [Ht _]. by destruct v as [[|x l]|]. Qed.

Lemma import_row_normal i t : normal_row (import_row i t).
Proof.
  unfold import_row. apply set_metadata_normal, set_tags_normal. by split.
Qed.

Lemma apply_field_normal s d fv d' :
  apply_field s d fv = Ok d' → normal_row (Dirty.task d) →
  normal_row (Dirty.task d').
Proof.
  intros H Hd. unfold apply_field in H.
  destruct fv as [[?|]|?|[?|]|[?|]|[?|]|?|v|v|?];
    simpl in H; repeat case_match; simplify_eq; try done.
  - by apply set_tags_normal.
  - by apply set_metadata_normal.
Qed.

Lemma apply_fields_normal s d update_data d' :
  apply_fields s d update_data = Ok d' → normal_row (Dirty.task d) →
  normal_row (Dirty.task d').
Proof.
  revert d. induction update_data as [|fv l IH]; intros d H Hd; simpl in H.
  - by simplify_eq.
  - destruct (apply_field s d fv) as [d1|] eqn:H1; [|done].
    eauto using apply_field_normal.
Qed.

Lemma committed_row_normal task u n1 n2 d :
  normal_row (Dirty.task d) → normal_row (committed_row task u n1 n2 d).
Proof. unfold committed_row, completion_rule. by repeat case_match. Qed.

Lemma normal_store_insert s k r :
  normal_store s → normal_row r → normal_store (<[k := r]> s).
Proof.
  intros Hs Hr k' x [[_ <-]|[_ H]]%lookup_insert_Some; [done|by eapply Hs].
Qed.

Lemma create_normal s uuid now task_input :
  normal_store s → normal_store (create_task s uuid now task_input).1.
Proof.
  intros Hs. unfold create_task.
  set (r0 := TaskDB.Build _ _ _ _ _ _ _ _ _ _ _ _ _).
  set (r1 := match TaskInput.tags task_input with Some l => _ | None => _ end).
  set (r2 := match TaskInput.metadata task_input with Some l => _ | None => _ end).
  set (r3 := if TaskDB.completed r2 then _ else _).
  assert (normal_row r3) as Hr3.
  { assert (normal_row r0) as H0 by by split.
    assert (normal_row r1) as H1.
    { unfold r1. destruct (TaskInput.tags task_input); [by apply set_tags_normal|done]. }
    assert (normal_row r2) as H2.
    { unfold r2. destruct (TaskInput.metadata task_input); [by apply set_metadata_normal|done]. }
    unfold r3. by destruct (TaskDB.completed r2). }
  destruct (match TaskDB.parent_id r3 with Some p => _ | None => _ end); [done|].
  unfold db_insert. destruct (bool_decide _); [done|].
  destruct (fk_ok _ _ _); [|done]. by apply normal_store_insert.
Qed.

Lemma update_normal fromisoformat s id u ius im n1 n2 :
  normal_store s →
  normal_store (update_task fromisoformat s id u ius im n1 n2).1.
Proof.
  intros Hs.
  destruct (update_task fromisoformat s id u ius im n1 n2) as [s' [resp|e]] eqn:H.
  2:{ by rewrite (update_task_Err _ _ _ _ _ _ _ _ _ _ H). }
  destruct (s !! id) as [task|] eqn:Ht.
  2:{ unfold update_task in H. rewrite Ht in H. by simplify_eq. }
  destruct (update_task_Ok _ _ _ _ _ _ _ _ _ _ _ Ht H) as (d & _ & _ & Hd & _ & -> & _).
  simpl. apply normal_store_insert; [done|].
  apply committed_row_normal. eapply apply_fields_normal; [done|]. by eapply Hs.
Qed.

Lemma write_loop_rows_normal s oc existing sorted r :
  r ∈ Pending.updates (write_loop s oc existing sorted)
  ∨ r ∈ Pending.inserts (write_loop s oc existing sorted) →
  normal_row r.
Proof.
  induction sorted as [|t sorted IH]; simpl.
  - intros [[]%elem_of_nil|[]%elem_of_nil].
  - destruct (_ && _).
    + destruct (s !! Task.id t) as [db_task|]; simpl; [|done].
      rewrite elem_of_cons. intros [[->|?]|?]; [apply import_row_normal|auto..].
    + simpl. rewrite elem_of_cons.
      intros [?|[->|?]]; [auto|apply import_row_normal|auto].
Qed.

Lemma import_normal s depth tasks validate_only oc :
  normal_store s → normal_store (import_tasks s depth tasks validate_only oc).1.
Proof.
  intros Hs. destruct validate_only.
  { rewrite import_tasks_validate_only. by repeat case_match. }
  destruct (import_tasks s depth tasks false oc) as [s' [resp|e]] eqn:H.
  2:{ assert (s' = s) as ->; [|done].
      unfold import_tasks in H. repeat case_match; by simplify_eq. }
  apply import_tasks_committed in H as (_ & sorted & _ & Hc & _). simpl.
  intros k r Hr.
  destruct (commit_rows _ _ _ _ _ Hc Hr) as [Hold|Hnew]; [by eapply Hs|].
  by eapply write_loop_rows_normal.
Qed.

(** ** Invariants of the reachable tables *)

Lemma keyed_store_insert s r :
  keyed_store s → keyed_store (<[TaskDB.id r := r]> s).
Proof.
  intros Hs k x [[<- <-]|[_ H]]%lookup_insert_Some; [done|by apply Hs].
Qed.

Lemma run_statements_keyed stmt s rows s' :
  writes_row stmt → run_statements stmt s rows = Ok s' →
  keyed_store s → keyed_store s'.
Proof.
  intros Hstmt. revert s. induction rows as [|x rows IH]; intros s H Hs; simpl in H.
  - by simplify_eq.
  - destruct (stmt s x) as [s1|] eqn:Hx; [|done]. simpl in H.
    apply (IH _ H). rewrite (Hstmt _ _ _ Hx). by apply keyed_store_insert.
Qed.

Lemma create_task_store s uuid now task_input :
  (create_task s uuid now task_input).1 = s
  ∨ ∃ r, TaskDB.id r = uuid
         ∧ (create_task s uuid now task_input).1 = <[uuid := r]> s.
Proof.
  unfold create_task.
  set (r0 := TaskDB.Build _ _ _ _ _ _ _ _ _ _ _ _ _).
  set (r1 := match TaskInput.tags task_input with Some l => _ | None => _ end).
  set (r2 := match TaskInput.metadata task_input with Some l => _ | None => _ end).
  set (r3 := if TaskDB.completed r2 then _ else _).
  assert (TaskDB.id r3 = uuid) as Hid.
  { assert (TaskDB.id r2 = uuid).
    { unfold r2, r1. repeat case_match; by rewrite ?set_metadata_id, ?set_tags_id. }
    unfold r3. by destruct (TaskDB.completed r2). }
  destruct (match TaskDB.parent_id r3 with Some p => _ | None => _ end); [by left|].
  unfold db_insert. rewrite Hid.
  destruct (bool_decide (uuid ∈ dom s)); [by left|].
  destruct (fk_ok s uuid (TaskDB.parent_id r3)); [right; by exists r3|by left].
Qed.

Lemma create_keyed s uuid now task_input :
  keyed_store s → keyed_store (create_task s uuid now task_input).1.
Proof.
  intros Hs. destruct (create_task_store s uuid now task_input) as [->|(r & <- & ->)];
    [done|by apply keyed_store_insert].
Qed.

Lemma committed_row_id task u n1 n2 d :
  TaskDB.id (committed_row task u n1 n2 d) = TaskDB.id (Dirty.task d).
Proof. unfold committed_row, completion_rule. by repeat case_match. Qed.

Lemma committed_row_parent_id task u n1 n2 d :
  TaskDB.parent_id (committed_row task u n1 n2 d)
  = TaskDB.parent_id (Dirty.task d).
Proof. unfold committed_row, completion_rule. by repeat case_match. Qed.

Lemma update_keyed fromisoformat s id u ius im n1 n2 :
  keyed_store s →
  keyed_store (update_task fromisoformat s id u ius im n1 n2).1.
Proof.
  intros Hs.
  destruct (update_task fromisoformat s id u ius im n1 n2) as [s' [resp|e]] eqn:H.
  2:{ by rewrite (update_task_Err _ _ _ _ _ _ _ _ _ _ H). }
  destruct (s !! id) as [task|] eqn:Ht.
  2:{ unfold update_task in H. rewrite Ht in H. by simplify_eq. }
  destruct (update_task_Ok _ _ _ _ _ _ _ _ _ _ _ Ht H) as (d & _ & _ & Hd & _ & -> & _).
  simpl. intros k r [[<- <-]|[_ Hr]]%lookup_insert_Some; [|by apply Hs].
  destruct (apply_fields_identity _ _ _ _ Hd) as (Hid & _). simpl in Hid.
  by rewrite committed_row_id.
Qed.

Lemma update_no_self_parent fromisoformat s id u ius im n1 n2 :
  no_self_parent s →
  no_self_parent (update_task fromisoformat s id u ius im n1 n2).1.
Proof.
  intros Hs.
  destruct (update_task fromisoformat s id u ius im n1 n2) as [s' [resp|e]] eqn:H.
  2:{ by rewrite (update_task_Err _ _ _ _ _ _ _ _ _ _ H). }
  destruct (s !! id) as [task|] eqn:Ht.
  2:{ unfold update_task in H. rewrite Ht in H. by simplify_eq. }
  destruct (update_task_Ok _ _ _ _ _ _ _ _ _ _ _ Ht H) as (d & _ & _ & Hd & _ & -> & _).
  simpl. intros k r p [[_ <-]|[_ Hr]]%lookup_insert_Some; [|by eapply Hs].
  assert (parent_ok (Dirty.task d)) as Hok.
  { eapply apply_fields_parent_ok; [done|]. simpl. intros q. by eapply Hs. }
  rewrite committed_row_id, committed_row_parent_id. apply Hok.
Qed.

Lemma delete_task_lookup s trigger_depth id k r :
  (delete_task s trigger_depth id).1 !! k = Some r → s !! k = Some r.
Proof.
  unfold delete_task. destruct (s !! id); [|done].
  destruct trigger_depth as [|levels]; [done|]. simpl.
  case_bool_decide; [|done]. simpl.
  by intros [? _]%map_lookup_filter_Some.
Qed.

Lemma import_keyed s depth tasks validate_only oc :
  keyed_store s → keyed_store (import_tasks s depth tasks validate_only oc).1.
Proof.
  intros Hs. destruct validate_only.
  { rewrite import_tasks_validate_only. by repeat case_match. }
  destruct (import_tasks s depth tasks false oc) as [s' [resp|e]] eqn:H.
  2:{ assert (s' = s) as ->; [|done].
      unfold import_tasks in H. repeat case_match; by simplify_eq. }
  apply import_tasks_committed in H as (_ & sorted & _ & Hc & _). simpl.
  unfold commit in Hc.
  destruct (run_statements db_update s _) as [s1|] eqn:H1; [|done]. simpl in Hc.
  eapply run_statements_keyed; [apply db_insert_writes_row|done|].
  eapply run_statements_keyed; [apply db_update_writes_row|done|done].
Qed.

Lemma reachable_invariants fromisoformat s :
  reachable fromisoformat s →
  keyed_store s ∧ no_self_parent s ∧ normal_store s.
Proof.
  induction 1 as [|s uuid now inp _ (Hk & Hs & Hn)
                  |s id u ius im n1 n2 _ (Hk & Hs & Hn)
                  |s levels id _ (Hk & Hs & Hn)|s depth tasks vo oc _ (Hk & Hs & Hn)].
  - split_and!; intros k r; by rewrite lookup_empty.
  - split_and!;
      [by apply create_keyed|by apply create_no_self_parent|by apply create_normal].
  - split_and!;
      [by apply update_keyed|by apply update_no_self_parent|by apply update_normal].
  - split_and!.
    + intros k r Hr%delete_task_lookup. by apply Hk.
    + intros k r p Hr%delete_task_lookup. by eapply Hs.
    + intros k r Hr%delete_task_lookup. by eapply Hn.
  - split_and!;
      [by apply import_keyed|by apply import_no_self_parent|by apply import_normal].
Qed.

(** ** The If-Match check *)

Lemma calculate_etag_truthy task : Py.truthy (calculate_etag task) = true.
Proof. done. Qed.

Lemma check_if_match_current task :
  check_if_match task (Some (calculate_etag task)) = Ok ().
Proof.
  unfold check_if_match. simpl. by rewrite bool_decide_eq_false_2 by (by intros []).
Qed.

Lemma check_if_match_other task v :
  v ≠ calculate_etag task → Py.truthy v = true →
  check_if_match task (Some v)
  = Err (PreconditionFailed "ETag does not match current resource").
Proof.
  intros Hv Htr. unfold check_if_match. simpl. rewrite Htr.
  by rewrite bool_decide_eq_true_2.
Qed.

(** An update that only sets [completed], sent without precondition
    headers, succeeds on every stored task whose parent reference
    resolves. *)
Lemma toggle_completed_succeeds fromisoformat s id task b n1 n2 :
  s !! id = Some task →
  fk_ok s (TaskDB.id task) (TaskDB.parent_id task) = true →
  ∃ s' resp,
    update_task fromisoformat s id (set_completed b) None None n1 n2
    = (s', Ok resp).
Proof.
  intros Ht Hfk. unfold update_task, updated_row. rewrite Ht. simpl.
  unfold db_update, completion_rule. simpl.
  destruct b, (TaskDB.completed task); simpl; rewrite Hfk; eauto.
Qed.
(** ** Export and re-import *)

Lemma export_tasks_rows s : export_tasks s = db_to_task <$> export_rows s.
Proof. done. Qed.

Lemma export_rows_Permutation s : export_rows s ≡ₚ table_rows s.
Proof.
  unfold export_rows. rewrite !merge_sort_Permutation.
  apply (filter_app_complement (fun r => TaskDB.parent_id r = None)).
Qed.

Lemma elem_of_table_rows s r :
  r ∈ table_rows s ↔ ∃ k, s !! k = Some r.
Proof.
  unfold table_rows. rewrite list_elem_of_fmap. split.
  - intros ([k r'] & -> & H%elem_of_map_to_list). eauto.
  - intros [k H]. exists (k, r). by rewrite elem_of_map_to_list.
Qed.

Lemma key_row_table_rows s :
  keyed_store s → key_row <$> table_rows s = map_to_list s.
Proof.
  intros Hs. unfold table_rows. rewrite <- list_fmap_compose.
  rewrite <- (list_fmap_id (map_to_list s)) at 2.
  apply list_fmap_ext_elem_of || apply Forall_fmap_ext_1.
  apply Forall_forall. intros [k r] H%elem_of_map_to_list.
  unfold key_row. simpl. by rewrite (Hs _ _ H).
Qed.

Lemma ids_table_rows s :
  keyed_store s → TaskDB.id <$> table_rows s = (map_to_list s).*1.
Proof.
  intros Hs. rewrite <- (key_row_table_rows s Hs).
  by rewrite <- list_fmap_compose.
Qed.

Lemma ids_db_to_task rows : ids (db_to_task <$> rows) = TaskDB.id <$> rows.
Proof. unfold ids. by rewrite <- list_fmap_compose. Qed.

Lemma export_tasks_NoDup s : keyed_store s → NoDup (ids (export_tasks s)).
Proof.
  intros Hs. rewrite export_tasks_rows, ids_db_to_task.
  rewrite export_rows_Permutation, ids_table_rows by done.
  apply NoDup_fst_map_to_list.
Qed.

Lemma strip_fixed_fmap l :
  Forall (fun tag => Py.strip tag = tag) l → Py.strip <$> l = l.
Proof.
  intros H. rewrite <- (list_fmap_id l) at 2. by apply Forall_fmap_ext_1.
Qed.

Lemma inserted_row_db_to_task r :
  normal_row r → inserted_row (db_to_task r) = r.
Proof.
  destruct r as [i ti de co ar pr du cd pa tg md ca ua].
  unfold normal_row, inserted_row, import_row, db_to_task. simpl.
  intros [Htags Hmd]. unfold TaskDB.get_tags, TaskDB.get_metadata. simpl.
  destruct tg as [[|x l]|]; [by destruct Htags| |].
  - destruct Htags as [_ Hl]. apply strip_fixed_fmap in Hl.
    injection Hl as Hx Hl. unfold TaskDB.set_tags. simpl. rewrite Hx, Hl.
    by destruct md as [[|??]|].
  - by destruct md as [[|??]|].
Qed.

Lemma db_to_task_id r : Task.id (db_to_task r) = TaskDB.id r.
Proof. done. Qed.
Lemma db_to_task_parent_id r : Task.parent_id (db_to_task r) = TaskDB.parent_id r.
Proof. done. Qed.

Lemma elem_of_export_tasks s t :
  t ∈ export_tasks s ↔ ∃ k r, s !! k = Some r ∧ t = db_to_task r.
Proof.
  rewrite export_tasks_rows, list_elem_of_fmap.
  setoid_rewrite export_rows_Permutation. setoid_rewrite elem_of_table_rows.
  naive_solver.
Qed.

(** The dict of an exported batch holds the record of every row. *)
Lemma index_export_tasks s k r :
  keyed_store s → s !! k = Some r →
  index_by_id (export_tasks s) !! k = Some (db_to_task r).
Proof.
  intros Hs Hr. rewrite <- (Hs _ _ Hr), <- db_to_task_id.
  apply index_by_id_indexed; [by apply export_tasks_NoDup|].
  apply elem_of_export_tasks. eauto.
Qed.

Lemma rooted_grounded s r :
  keyed_store s → rooted s r →
  grounded (index_by_id (export_tasks s)) (db_to_task r).
Proof.
  intros Hs. induction 1 as [r Hp|r p parent Hp Htr Hparent _ IH].
  - apply grounded_root. unfold parent_in_batch. by rewrite db_to_task_parent_id, Hp.
  - eapply grounded_step; [|exact IH]. unfold parent_in_batch.
    rewrite db_to_task_parent_id, Hp, Htr. by apply index_export_tasks.
Qed.

Lemma export_tasks_all_grounded s :
  keyed_store s → forest s → all_grounded (export_tasks s).
Proof.
  intros Hs Hf. apply Forall_forall.
  intros t (k & r & Hr & ->)%elem_of_export_tasks.
  apply rooted_grounded; [done|]. by eapply Hf.
Qed.

Lemma existing_ids_empty tasks : existing_ids ∅ tasks = [].
Proof.
  unfold existing_ids, index_keys. by rewrite dom_empty_L, elements_empty.
Qed.

(** With no existing id, every record of the order is inserted. *)
Lemma write_loop_fresh s oc sorted :
  write_loop s oc [] sorted
  = Pending.Build [] (inserted_row <$> sorted) (length sorted).
Proof.
  induction sorted as [|t sorted IH]; [done|].
  cbn [write_loop]. rewrite IH.
  rewrite (bool_decide_eq_false_2 (Task.id t ∈ [])) by apply not_elem_of_nil.
  by rewrite andb_false_r.
Qed.

(** Inserting rows with distinct new ids, each after the row it refers to,
    succeeds and adds exactly these rows. *)
Lemma run_inserts s rows :
  NoDup (TaskDB.id <$> rows) →
  (∀ r, r ∈ rows → TaskDB.id r ∉ dom s) →
  (∀ l1 r l2 p, rows = l1 ++ r :: l2 → TaskDB.parent_id r = Some p →
                p ∈ dom s ∨ p ∈ TaskDB.id <$> l1) →
  run_statements db_insert s rows
  = Ok (list_to_map (key_row <$> rows) ∪ s).
Proof.
  revert s. induction rows as [|r rows IH]; intros s Hnd Hnew Hfk.
  - simpl. by rewrite (left_id_L ∅ (∪)).
  - rewrite fmap_cons in Hnd. apply NoDup_cons in Hnd as [Hr Hnd].
    assert (db_insert s r = Ok (<[TaskDB.id r := r]> s)) as Hins.
    { unfold db_insert.
      rewrite bool_decide_eq_false_2 by (apply Hnew; set_solver).
      assert (fk_ok s (TaskDB.id r) (TaskDB.parent_id r) = true) as ->; [|done].
      unfold fk_ok. destruct (TaskDB.parent_id r) as [p|] eqn:Hp; [|done].
      destruct (Hfk [] r rows p eq_refl Hp) as [?|[]%elem_of_nil].
      by rewrite bool_decide_eq_true_2. }
    cbn [run_statements]. rewrite Hins. cbn [mbind Result_bind].
    rewrite IH; [| done | |].
    + f_equal. unfold key_row at 2. simpl.
      rewrite <- insert_union_l, <- insert_union_r; [done|].
      apply not_elem_of_list_to_map. by rewrite <- list_fmap_compose.
    + intros r' Hr'. rewrite dom_insert_L.
      assert (TaskDB.id r' ≠ TaskDB.id r).
      { intros E. apply Hr. rewrite <- E. by apply list_elem_of_fmap_2. }
      assert (TaskDB.id r' ∉ dom s) by (apply Hnew; set_solver).
      set_solver.
    + intros l1 r' l2 p -> Hp. rewrite dom_insert_L.
      destruct (Hfk (r :: l1) r' l2 p eq_refl Hp) as [?|Hin]; [set_solver|].
      rewrite fmap_cons in Hin. set_solver.
Qed.

Lemma import_export_inserts s sorted :
  keyed_store s → normal_store s → sorted ≡ₚ export_tasks s →
  key_row <$> (inserted_row <$> sorted) ≡ₚ map_to_list s.
Proof.
  intros Hs Hn Hp. rewrite Hp, export_tasks_rows.
  assert (inserted_row <$> (db_to_task <$> export_rows s) = export_rows s) as ->.
  { rewrite <- list_fmap_compose.
    rewrite <- (list_fmap_id (export_rows s)) at 2.
    apply Forall_fmap_ext_1, Forall_forall.
    intros r Hr. rewrite export_rows_Permutation in Hr.
    apply elem_of_table_rows in Hr as [k Hr]. simpl.
    apply inserted_row_db_to_task. by eapply Hn. }
  by rewrite export_rows_Permutation, key_row_table_rows.
Qed.

Lemma inserted_row_id t : TaskDB.id (inserted_row t) = Task.id t.
Proof. apply import_row_id. Qed.
Lemma inserted_row_parent_id t :
  TaskDB.parent_id (inserted_row t) = Task.parent_id t.
Proof. apply import_row_parent_id. Qed.

(** ** Cycles of parent references *)

Lemma reaches_snoc M a b c :
  reaches M a b → parent_in_batch M b = Some c → reaches M a c.
Proof.
  induction 1 as [t p Hp|t p u Hp _ IH]; intros Hc.
  - eapply reaches_step; [done|]. by apply reaches_parent.
  - eapply reaches_step; [done|]. by apply IH.
Qed.

(** A record on a cycle is not grounded. *)
Lemma grounded_no_cycle M t : grounded M t → ¬ reaches M t t.
Proof.
  induction 1 as [t Hp|t p Hp Hg IH]; intros Hc.
  - inversion Hc; congruence.
  - apply IH. inversion Hc as [? ? Hp'|? p' ? Hp' Hr]; simplify_eq.
    + by apply reaches_parent.
    + by eapply reaches_snoc.
Qed.

Lemma import_cyclic_export s depth oc :
  keyed_store s → ¬ all_grounded (export_tasks s) →
  import_tasks ∅ depth (export_tasks s) false oc = (∅, Err RecursionError).
Proof.
  intros Hs Hcyc. pose proof (export_tasks_NoDup s Hs) as Hnd.
  unfold import_tasks. fold (ids (export_tasks s)).
  rewrite bool_decide_eq_false_2 by (by rewrite length_size_NoDup; intros []).
  fold (existing_ids ∅ (export_tasks s)). rewrite existing_ids_empty. simpl.
  destruct (sort_tasks depth (export_tasks s)) as [sorted|] eqn:Hsort; [|done].
  destruct Hcyc. by eapply sort_tasks_all_grounded.
Qed.

(** Two rows that name each other as parent: a chain of the export never
    ends. *)
Lemma two_cycle_not_all_grounded s a b ra rb :
  keyed_store s → s !! a = Some ra → s !! b = Some rb →
  TaskDB.parent_id ra = Some b → TaskDB.parent_id rb = Some a →
  Py.truthy a = true → Py.truthy b = true →
  ¬ all_grounded (export_tasks s).
Proof.
  intros Hs Ha Hb Hpa Hpb Hta Htb Hac.
  set (M := index_by_id (export_tasks s)).
  assert (parent_in_batch M (db_to_task ra) = Some (db_to_task rb)) as H1.
  { unfold parent_in_batch. rewrite db_to_task_parent_id, Hpa, Htb.
    by apply index_export_tasks. }
  assert (parent_in_batch M (db_to_task rb) = Some (db_to_task ra)) as H2.
  { unfold parent_in_batch. rewrite db_to_task_parent_id, Hpb, Hta.
    by apply index_export_tasks. }
  apply (grounded_no_cycle M (db_to_task ra)).
  - unfold all_grounded in Hac. rewrite Forall_forall in Hac. apply Hac.
    apply elem_of_export_tasks. eauto.
  - eapply reaches_step; [done|]. by apply reaches_parent.
Qed.

Lemma parent_and_child_lookup k r :
  parent_and_child !! k = Some r →
  (k = "B" ∧ r = sample_row "B" (Some "A")) ∨ (k = "A" ∧ r = sample_row "A" None).
Proof.
  unfold parent_and_child.
  intros [[<- <-]|[_ H]]%lookup_insert_Some; [by left|].
  apply lookup_singleton_Some in H as [<- <-]. by right.
Qed.

Lemma two_cycle_reachable : reachable no_datetime two_cycle.
Proof. apply reachable_update, reachable_create, reachable_create, reachable_empty. Qed.

Lemma parent_in_batch_elem_of batch t p :
  parent_in_batch (index_by_id batch) t = Some p → p ∈ batch.
Proof.
  intros (k & _ & _ & Hk)%parent_in_batch_Some.
  by apply index_by_id_lookup in Hk as [? _].
Qed.

(** Walking up from a record of an acyclic batch: the records passed are
    pairwise distinct, so the walk ends before it has passed more records
    than the batch holds. *)
Lemma walk_grounded batch n path t :
  acyclic batch →
  Forall (fun u => reaches (index_by_id batch) u t) path →
  NoDup (path ++ [t]) → Forall (fun u => u ∈ batch) (path ++ [t]) →
  length batch ≤ length path + n →
  grounded (index_by_id batch) t.
Proof.
  intros Hac. revert path t.
  induction n as [|n IH]; intros path t Hreach Hnd Hin Hlen.
  - exfalso. assert (length (path ++ [t]) ≤ length batch) as Hle.
    { apply submseteq_length, NoDup_submseteq; [done|].
      by apply Forall_forall. }
    rewrite length_app in Hle. simpl in Hle. lia.
  - destruct (parent_in_batch (index_by_id batch) t) as [p|] eqn:Hp;
      [|by apply grounded_root].
    eapply grounded_step; [done|].
    assert (p ∈ batch) as Hpb by apply (parent_in_batch_elem_of batch t p Hp).
    apply (IH (path ++ [t])).
    + apply Forall_app. split.
      * eapply Forall_impl; [done|]. intros u Hu. exact (reaches_snoc _ _ _ _ Hu Hp).
      * constructor; [by apply reaches_parent|constructor].
    + apply NoDup_app. split_and!; [done| |apply NoDup_singleton].
      intros u Hu Hu'. apply list_elem_of_singleton in Hu'. subst u.
      apply (Hac p Hpb).
      apply elem_of_app in Hu as [Hu|Hu].
      * rewrite Forall_forall in Hreach.
        exact (reaches_snoc _ _ _ _ (Hreach _ Hu) Hp).
      * apply list_elem_of_singleton in Hu. subst p. by apply reaches_parent.
    + apply Forall_app. split; [done|]. by constructor.
    + rewrite length_app. simpl. lia.
Qed.

(** No cycle, or every chain of parents ends: the same batches. *)
Lemma acyclic_all_grounded batch : acyclic batch ↔ all_grounded batch.
Proof.
  split.
  - intros Hac. apply Forall_forall. intros t Ht.
    apply (walk_grounded batch (length batch) []); simpl;
      [done|constructor|apply NoDup_singleton|by constructor|lia].
  - intros Hg t Ht. apply grounded_no_cycle.
    unfold all_grounded in Hg. rewrite Forall_forall in Hg. auto.
Qed.

(** On a batch with a cycle the recursion runs out of frames, whatever
    their number. *)
Lemma sort_tasks_cyclic depth batch :
  NoDup (ids batch) → ¬ acyclic batch → sort_tasks depth batch = None.
Proof.
  intros Hnd Hcyc. destruct (sort_tasks depth batch) as [sorted|] eqn:Hs; [|done].
  destruct Hcyc. apply acyclic_all_grounded. by eapply sort_tasks_all_grounded.
Qed.

(** ** Listing *)

Lemma selected_rows_default s q now :
  ListQuery.parent_id q = None →
  selected_rows s q now ≡ₚ filter (root_and_filtered q now) (table_rows s).
Proof.
  intros Hq. unfold selected_rows. rewrite merge_sort_Permutation.
  erewrite list_filter_iff; [done|]. intros r.
  unfold where_clause, root_and_filtered, parent_filter. rewrite Hq.
  rewrite andb_True, bool_decide_spec. by rewrite Is_true_true.
Qed.

Lemma sublist_take_drop {A} n m (l : list A) : take n (drop m l) `sublist_of` l.
Proof. etrans; [apply sublist_take|apply sublist_drop]. Qed.


(** ** The depth the recursion needs *)

Lemma grounded_within_mono M n m t :
  grounded_within M n t → n ≤ m → grounded_within M m t.
Proof.
  intros H. revert m. induction H as [n t Hp|n t p Hp _ IH]; intros m Hm.
  - by apply grounded_within_root.
  - destruct m as [|m]; [lia|].
    eapply grounded_within_step; [done|]. apply IH. lia.
Qed.

Lemma grounded_within_grounded M n t : grounded_within M n t → grounded M t.
Proof.
  induction 1 as [n t Hp|n t p Hp _ IH].
  - by apply grounded_root.
  - by eapply grounded_step.
Qed.

Lemma grounded_grounded_within M t : grounded M t → ∃ n, grounded_within M n t.
Proof.
  induction 1 as [t Hp|t p Hp _ [n IH]].
  - exists 0. by apply grounded_within_root.
  - exists (S n). by eapply grounded_within_step.
Qed.

(** A chain that ends within [n] references has no [n + 1] of them. *)
Lemma grounded_within_chain_of M n t :
  grounded_within M n t → ¬ chain_of M (S n) t.
Proof.
  induction 1 as [n t Hp|n t p Hp _ IH]; intros Hc.
  - inversion Hc; congruence.
  - inversion Hc as [|? ? p' Hp' Hc']; simplify_eq. by apply IH.
Qed.

Lemma grounded_within_or_chain_of M n t :
  grounded_within M n t ∨ chain_of M (S n) t.
Proof.
  revert t. induction n as [|n IH]; intros t.
  - destruct (parent_in_batch M t) as [p|] eqn:Hp.
    + right. eapply chain_of_S; [done|]. constructor.
    + left. by apply grounded_within_root.
  - destruct (parent_in_batch M t) as [p|] eqn:Hp.
    + destruct (IH p) as [Hg|Hc].
      * left. by eapply grounded_within_step.
      * right. by eapply chain_of_S.
    + left. by apply grounded_within_root.
Qed.

(** Enough frames: the call returns, whatever has been processed. *)
Lemma add_task_with_parents_within M n t depth st :
  grounded_within M n t → n < depth →
  is_Some (add_task_with_parents M depth t st).
Proof.
  intros H. revert depth.
  induction H as [n t Hp|n t p Hp _ IH]; intros depth Hd.
  - destruct depth as [|depth]; [lia|]. simpl.
    case_bool_decide; [done|]. by rewrite Hp.
  - destruct depth as [|depth]; [lia|]. simpl.
    case_bool_decide; [done|]. rewrite Hp.
    destruct (IH depth) as [st1 ->]; [lia|]. done.
Qed.

Lemma add_all_within M n depth tasks st :
  Forall (grounded_within M n) tasks → n < depth →
  is_Some (add_all M depth tasks st).
Proof.
  intros Hg Hd. revert st.
  induction Hg as [|t tasks Ht _ IH]; intros st; [done|].
  simpl. destruct (add_task_with_parents_within M n t depth st Ht Hd)
    as [st1 ->].
  apply IH.
Qed.

Lemma sort_tasks_within n depth batch :
  Forall (grounded_within (index_by_id batch) n) batch → n < depth →
  is_Some (sort_tasks depth batch).
Proof.
  intros Hg Hd. unfold sort_tasks.
  by destruct (add_all_within _ n depth batch ([], ∅) Hg Hd) as [st ->].
Qed.

(** Too few frames: with nothing processed yet, the call on a record that
    has [depth] references above it runs out of them. *)
Lemma add_task_with_parents_chain M depth t L :
  chain_of M depth t → add_task_with_parents M depth t (L, ∅) = None.
Proof.
  revert t. induction depth as [|depth IH]; intros t Hc; [done|].
  inversion Hc as [|? ? p Hp Hc']; simplify_eq. simpl.
  rewrite bool_decide_eq_false_2 by set_solver.
  rewrite Hp. by rewrite IH.
Qed.

Lemma sort_tasks_chain depth t rest :
  chain_of (index_by_id (t :: rest)) depth t →
  sort_tasks depth (t :: rest) = None.
Proof.
  intros Hc. unfold sort_tasks. cbn [add_all].
  by rewrite add_task_with_parents_chain.
Qed.

(** Walking up from a record of an acyclic batch passes pairwise distinct
    records, so it takes fewer references than the batch has records. *)
Lemma walk_grounded_within batch n path t :
  acyclic batch →
  Forall (fun u => reaches (index_by_id batch) u t) path →
  NoDup (path ++ [t]) → Forall (fun u => u ∈ batch) (path ++ [t]) →
  length batch ≤ length path + S n →
  grounded_within (index_by_id batch) n t.
Proof.
  intros Hac. revert path t.
  induction n as [|n IH]; intros path t Hreach Hnd Hin Hlen;
    (destruct (parent_in_batch (index_by_id batch) t) as [p|] eqn:Hp;
       [|by apply grounded_within_root]);
    assert (p ∈ batch) as Hpb by apply (parent_in_batch_elem_of batch t p Hp);
    assert (NoDup ((path ++ [t]) ++ [p])) as Hnd'
      by (apply NoDup_app; split_and!; [done| |apply NoDup_singleton];
          intros u Hu Hu'; apply list_elem_of_singleton in Hu'; subst u;
          apply (Hac p Hpb);
          apply elem_of_app in Hu as [Hu|Hu];
          [rewrite Forall_forall in Hreach;
           exact (reaches_snoc _ _ _ _ (Hreach _ Hu) Hp)
          |apply list_elem_of_singleton in Hu; subst p;
           by apply reaches_parent]);
    assert (Forall (fun u => u ∈ batch) ((path ++ [t]) ++ [p])) as Hin'
      by (apply Forall_app; split; [done|by constructor]).
  - exfalso.
    assert (length ((path ++ [t]) ++ [p]) ≤ length batch) as Hle.
    { apply submseteq_length, NoDup_submseteq; [done|].
      by apply Forall_forall. }
    rewrite !length_app in Hle. simpl in Hle. lia.
  - eapply grounded_within_step; [done|].
    apply (IH (path ++ [t])); [|done|done|].
    + apply Forall_app. split.
      * eapply Forall_impl; [done|]. intros u Hu.
        exact (reaches_snoc _ _ _ _ Hu Hp).
      * constructor; [by apply reaches_parent|constructor].
    + rewrite length_app. simpl. lia.
Qed.

(** In a batch without cycle, every chain of references has fewer
    references than the batch has records. *)
Lemma acyclic_grounded_within batch :
  acyclic batch →
  Forall (grounded_within (index_by_id batch) (length batch - 1)) batch.
Proof.
  intros Hac. apply Forall_forall. intros t Ht.
  apply (walk_grounded_within batch (length batch - 1) []); simpl;
    [done|constructor|apply NoDup_singleton|by constructor|lia].
Qed.

Lemma sort_tasks_acyclic depth batch :
  acyclic batch → length batch ≤ depth → is_Some (sort_tasks depth batch).
Proof.
  intros Hac Hd. destruct batch as [|t batch]; [done|].
  apply (sort_tasks_within (length (t :: batch) - 1)).
  - by apply acyclic_grounded_within.
  - simpl in *. lia.
Qed.

(** ** The records the policy keeps *)

Lemma elem_of_remaining_tasks s oc tasks t :
  t ∈ remaining_tasks s oc tasks
  ↔ t ∈ tasks ∧ ¬ (oc = skip ∧ Task.id t ∈ dom s).
Proof.
  unfold remaining_tasks.
  destruct (bool_decide (existing_ids s tasks ≠ [])) eqn:He;
    destruct (bool_decide (oc = skip)) eqn:Ho; cbn [andb].
  - apply bool_decide_eq_true in Ho as ->.
    rewrite list_elem_of_filter, elem_of_existing_ids. split.
    + intros [Hn Ht]. split; [done|]. intros [_ Hd]. apply Hn. split; [done|].
      by apply list_elem_of_fmap_2.
    + intros [Ht Hn]. split; [|done]. intros [Hd _]. by apply Hn.
  - apply bool_decide_eq_false in Ho. naive_solver.
  - apply bool_decide_eq_false in He. apply dec_stable in He.
    split; [|naive_solver]. intros Ht. split; [done|]. intros [_ Hd].
    assert (Task.id t ∈ existing_ids s tasks) as Hin.
    { apply elem_of_existing_ids. split; [done|]. by apply list_elem_of_fmap_2. }
    rewrite He in Hin. by apply elem_of_nil in Hin.
  - apply bool_decide_eq_false in Ho. naive_solver.
Qed.

Lemma filter_ext_elem_of {A} (P Q : A → Prop) `{!∀ x, Decision (P x)}
    `{!∀ x, Decision (Q x)} (l : list A) :
  (∀ x, x ∈ l → P x ↔ Q x) → filter P l = filter Q l.
Proof.
  induction l as [|x l IH]; intros Hl; [done|].
  rewrite !filter_cons.
  rewrite IH by (intros y Hy; apply Hl; by right).
  destruct (decide (P x)) as [HP|HP], (decide (Q x)) as [HQ|HQ];
    try done; exfalso; [apply HQ|apply HP]; by apply (Hl x); [left|].
Qed.

Lemma filter_all {A} (P : A → Prop) `{!∀ x, Decision (P x)} (l : list A) :
  (∀ x, x ∈ l → P x) → filter P l = l.
Proof.
  induction l as [|x l IH]; intros Hl; [done|].
  rewrite filter_cons_True by (apply Hl; by left).
  f_equal. apply IH. intros y Hy. apply Hl. by right.
Qed.

(** What the skip branch leaves, in the order of the batch. *)
Lemma remaining_tasks_kept s oc tasks :
  remaining_tasks s oc tasks = filter (kept s oc) tasks.
Proof.
  unfold remaining_tasks.
  destruct (bool_decide (existing_ids s tasks ≠ [])) eqn:He;
    destruct (bool_decide (oc = skip)) eqn:Ho; cbn [andb].
  - apply bool_decide_eq_true in Ho as ->.
    apply filter_ext_elem_of. intros t Ht. unfold kept.
    rewrite elem_of_existing_ids. split.
    + intros Hn [_ Hd]. apply Hn. split; [done|]. by apply list_elem_of_fmap_2.
    + intros Hn [Hd _]. by apply Hn.
  - apply bool_decide_eq_false in Ho. symmetry. apply filter_all.
    intros t _ [? _]. done.
  - apply bool_decide_eq_false in He. apply dec_stable in He.
    symmetry. apply filter_all. intros t Ht [_ Hd].
    assert (Task.id t ∈ existing_ids s tasks) as Hin.
    { apply elem_of_existing_ids. split; [done|]. by apply list_elem_of_fmap_2. }
    rewrite He in Hin. by apply elem_of_nil in Hin.
  - apply bool_decide_eq_false in Ho. symmetry. apply filter_all.
    intros t _ [? _]. done.
Qed.

(** The conflict check fires when some id of a batch is stored. *)
Lemma existing_ids_nil s tasks :
  existing_ids s tasks = [] ↔ ∀ t, t ∈ tasks → Task.id t ∉ dom s.
Proof.
  split.
  - intros He t Ht Hd.
    assert (Task.id t ∈ existing_ids s tasks) as Hin.
    { apply elem_of_existing_ids. split; [done|]. by apply list_elem_of_fmap_2. }
    rewrite He in Hin. by apply elem_of_nil in Hin.
  - intros H. destruct (existing_ids s tasks) as [|k l] eqn:E; [done|].
    assert (k ∈ existing_ids s tasks) as Hin by (rewrite E; left).
    apply elem_of_existing_ids in Hin as [Hd (t & -> & Ht)%list_elem_of_fmap].
    by destruct (H t Ht).
Qed.

(** ** Chains of rows *)

Lemma rooted_within_rooted s n r : rooted_within s n r → rooted s r.
Proof.
  induction 1 as [n r Hp|n r p parent Hp Htr Hparent _ IH].
  - by apply rooted_root.
  - by eapply rooted_child.
Qed.

Lemma rooted_within_grounded_within s n r :
  keyed_store s → rooted_within s n r →
  grounded_within (index_by_id (export_tasks s)) n (db_to_task r).
Proof.
  intros Hs. induction 1 as [n r Hp|n r p parent Hp Htr Hparent _ IH].
  - apply grounded_within_root. unfold parent_in_batch.
    by rewrite db_to_task_parent_id, Hp.
  - eapply grounded_within_step; [|exact IH]. unfold parent_in_batch.
    rewrite db_to_task_parent_id, Hp, Htr. by apply index_export_tasks.
Qed.

Lemma export_tasks_grounded_within s n :
  keyed_store s → (∀ k r, s !! k = Some r → rooted_within s n r) →
  Forall (grounded_within (index_by_id (export_tasks s)) n) (export_tasks s).
Proof.
  intros Hs Hf. apply Forall_forall.
  intros t (k & r & Hr & ->)%elem_of_export_tasks.
  apply rooted_within_grounded_within; [done|]. by eapply Hf.
Qed.

(** ** The chain batches *)

Lemma chain_id_truthy n : Py.truthy (chain_id n) = true.
Proof. by destruct n. Qed.

Lemma chain_id_length n : String.length (chain_id n) = S n.
Proof. induction n as [|n IH]; [done|]. simpl. by rewrite IH. Qed.

Lemma chain_id_inj n m : chain_id n = chain_id m → n = m.
Proof.
  intros H. apply (f_equal String.length) in H.
  rewrite !chain_id_length in H. lia.
Qed.

Lemma elem_of_chain_batch n t :
  t ∈ chain_batch n ↔ ∃ k, k ≤ n ∧ t = chain_record k.
Proof.
  induction n as [|n IH]; simpl.
  - rewrite list_elem_of_singleton. split; [intros ->; exists 0; auto|].
    intros (k & Hk & ->). by replace k with 0 by lia.
  - rewrite elem_of_cons, IH. split.
    + intros [->|(k & Hk & ->)]; [exists (S n); auto|exists k; auto with lia].
    + intros (k & Hk & ->). destruct (decide (k = S n)) as [->|Hne];
        [by left|right; exists k; split; [lia|done]].
Qed.

Lemma chain_batch_NoDup n : NoDup (ids (chain_batch n)).
Proof.
  induction n as [|n IH]; simpl.
  - apply NoDup_singleton.
  - unfold ids in *. apply NoDup_cons. split; [|done].
    intros (t & Hid & (k & Hk & ->)%elem_of_chain_batch)%list_elem_of_fmap.
    simpl in Hid. change (String "+" (chain_id n)) with (chain_id (S n)) in Hid.
    apply chain_id_inj in Hid. lia.
Qed.

Lemma chain_batch_parent n k :
  S k ≤ n →
  parent_in_batch (index_by_id (chain_batch n)) (chain_record (S k))
  = Some (chain_record k).
Proof.
  intros Hk. unfold parent_in_batch. simpl.
  change (match chain_id k with "" => false | _ => true end)
    with (Py.truthy (chain_id k)).
  rewrite chain_id_truthy.
  change (chain_id k) with (Task.id (chain_record k)).
  apply index_by_id_indexed; [apply chain_batch_NoDup|].
  apply elem_of_chain_batch. exists k. split; [lia|done].
Qed.

Lemma chain_batch_grounded_within n k :
  k ≤ n →
  grounded_within (index_by_id (chain_batch n)) k (chain_record k).
Proof.
  induction k as [|k IH]; intros Hk.
  - by apply grounded_within_root.
  - eapply grounded_within_step; [by apply chain_batch_parent|].
    apply IH. lia.
Qed.

Lemma chain_batch_chain_of n k :
  k ≤ n → chain_of (index_by_id (chain_batch n)) k (chain_record k).
Proof.
  induction k as [|k IH]; intros Hk; [constructor|].
  eapply chain_of_S; [by apply chain_batch_parent|]. apply IH. lia.
Qed.

(** A chain is acyclic; submitted from its deepest record, it needs one
    frame per record. *)
Lemma chain_batch_acyclic n : acyclic (chain_batch n).
Proof.
  apply acyclic_all_grounded, Forall_forall.
  intros t (k & Hk & ->)%elem_of_chain_batch.
  eapply grounded_within_grounded. by apply chain_batch_grounded_within.
Qed.

Lemma sort_tasks_chain_batch depth : sort_tasks depth (chain_batch depth) = None.
Proof.
  destruct depth as [|depth]; [done|].
  apply (sort_tasks_chain (S depth) (chain_record (S depth)) (chain_batch depth)).
  by apply (chain_batch_chain_of (S depth) (S depth)).
Qed.

Lemma sort_tasks_chain_batch_Some depth :
  is_Some (sort_tasks (S depth) (chain_batch depth)).
Proof.
  apply (sort_tasks_within depth); [|lia].
  apply Forall_forall. intros t (k & Hk & ->)%elem_of_chain_batch.
  eapply grounded_within_mono; [by apply chain_batch_grounded_within|done].
Qed.

(** ** The round trip, once the export can be ordered *)

Lemma export_tasks_size s : length (export_tasks s) = size s.
Proof.
  rewrite export_tasks_rows, length_fmap, export_rows_Permutation.
  unfold table_rows. by rewrite length_fmap, length_map_to_list.
Qed.

Lemma import_export_ordered s depth on_conflict :
  keyed_store s → normal_store s → forest s →
  is_Some (sort_tasks depth (export_tasks s)) →
  import_tasks ∅ depth (export_tasks s) false on_conflict
  = (s, Ok (ImportResponse.Build 201 (size s))).
Proof.
  intros Hs Hn Hf [sorted Hsort].
  pose proof (export_tasks_NoDup s Hs) as Hnd.
  pose proof (export_tasks_size s) as Hlen.
  destruct (sort_tasks_Some _ _ _ Hnd Hsort) as [Hperm Hpf].
  unfold import_tasks. fold (ids (export_tasks s)).
  rewrite bool_decide_eq_false_2 by (by rewrite length_size_NoDup; intros []).
  fold (existing_ids ∅ (export_tasks s)). rewrite existing_ids_empty. simpl.
  rewrite Hsort, write_loop_fresh. unfold commit. simpl.
  rewrite run_inserts.
  - simpl. rewrite (right_id_L ∅ (∪)).
    rewrite (list_to_map_proper _ (map_to_list s)).
    + rewrite list_to_map_to_list. by rewrite Hperm, Hlen.
    + rewrite <- !list_fmap_compose.
      rewrite (list_fmap_ext _ Task.id) by (intros; apply inserted_row_id).
      unfold ids in Hnd. by rewrite Hperm.
    + by apply import_export_inserts.
  - rewrite <- list_fmap_compose.
    rewrite (list_fmap_ext _ Task.id) by (intros; apply inserted_row_id).
    unfold ids in Hnd. by rewrite Hperm.
  - intros r _. rewrite dom_empty_L. set_solver.
  - intros l1 r l2 p E Hp. right.
    apply fmap_app_inv in E as (k1 & k2' & -> & Hk2 & ->).
    symmetry in Hk2. apply fmap_cons_inv in Hk2 as (t & k2 & -> & -> & ->).
    rewrite inserted_row_parent_id in Hp.
    assert (t ∈ export_tasks s) as Ht by (rewrite <- Hperm; set_solver).
    apply elem_of_export_tasks in Ht as (k & r & Hr & ->).
    rewrite db_to_task_parent_id in Hp.
    pose proof (Hf _ _ Hr) as Hroot.
    inversion Hroot as [|? p' parent Hp' Htr Hparent _]; simplify_eq.
    assert (db_to_task parent ∈ k1) as Hin.
    { apply (Hpf k1 (db_to_task r) k2); [done|].
      unfold parent_in_batch. rewrite db_to_task_parent_id, Hp, Htr.
      by apply index_export_tasks. }
    rewrite <- list_fmap_compose.
    apply list_elem_of_fmap. exists (db_to_task parent). split; [|done].
    simpl. rewrite inserted_row_id, db_to_task_id. symmetry. by apply Hs.
Qed.

(** ** The chain whose deepest task is the oldest *)

Lemma reversed_chain_reachable : reachable no_datetime reversed_chain.
Proof.
  apply reachable_update, reachable_update, reachable_create,
    reachable_create, reachable_create, reachable_empty.
Qed.

Lemma reversed_chain_rooted_within k r :
  reversed_chain !! k = Some r → rooted_within reversed_chain 2 r.
Proof.
  intros H%elem_of_map_to_list. revert H.
  replace (map_to_list reversed_chain)
    with [("C", TaskDB.Build "C" "C" None false false 0%Z None None
                  (Some "B") None None
                  "2025-11-01T00:00:00Z" "2025-11-01T00:00:04Z");
          ("A", TaskDB.Build "A" "A" None false false 0%Z None None
                  None None None
                  "2025-11-01T00:00:02Z" "2025-11-01T00:00:02Z");
          ("B", TaskDB.Build "B" "B" None false false 0%Z None None
                  (Some "A") None None
                  "2025-11-01T00:00:01Z" "2025-11-01T00:00:03Z")]
    by (vm_compute; reflexivity).
  assert (rooted_within reversed_chain 0
            (TaskDB.Build "A" "A" None false false 0%Z None None None None
               None "2025-11-01T00:00:02Z" "2025-11-01T00:00:02Z")) as HA
    by (by apply rooted_within_root).
  assert (rooted_within reversed_chain 1
            (TaskDB.Build "B" "B" None false false 0%Z None None (Some "A")
               None None "2025-11-01T00:00:01Z" "2025-11-01T00:00:03Z")) as HB.
  { eapply (rooted_within_child _ _ _ "A");
      [reflexivity|reflexivity|vm_compute; reflexivity|exact HA]. }
  intros [H|[H|[H|H]%elem_of_cons]%elem_of_cons]%elem_of_cons.
  - injection H as _ ->.
    eapply (rooted_within_child _ _ _ "B");
      [reflexivity|reflexivity|vm_compute; reflexivity|exact HB].
  - injection H as _ ->. by apply rooted_within_root.
  - injection H as _ ->.
    eapply (rooted_within_child _ _ _ "A");
      [reflexivity|reflexivity|vm_compute; reflexivity|].
    by apply rooted_within_root.
  - by apply elem_of_nil in H.
Qed.
(** ** The string functions on examples *)

Example strip_example : Py.strip "  Work	" = "Work".
Proof. reflexivity. Qed.

Example lower_example : Py.lower "Work-ITEM 7" = "work-item 7".
Proof. reflexivity. Qed.

Example dumps_example :
  Json.dumps ["Work"; "Urgent"]
  = "[" +:+ Json.dumps_str "Work" +:+ ", " +:+ Json.dumps_str "Urgent" +:+ "]".
Proof. reflexivity. Qed.

(** A backslash is stored doubled. *)
Example dumps_backslash_example :
  String.length (Json.dumps_str "R&D\QA") = 2 + String.length "R&D\\QA".
Proof. reflexivity. Qed.

Example like_example :
  Sqlite.like (tag_pattern " work ") (Json.dumps ["Work"; "x"]) = true
  ∧ Sqlite.like (tag_pattern "wor") (Json.dumps ["Work"; "x"]) = false.
Proof. split; vm_compute; reflexivity. Qed.

Example etag_example :
  calculate_etag (sample_row "t1" None)
  = String Json.quote "2025-11-01T00:00:00Z" +:+ String Json.quote "".
Proof. reflexivity. Qed.

(** ** The cascade of delete_task *)

Lemma elem_of_children_of s D k :
  k ∈ children_of s D
  ↔ ∃ r p, s !! k = Some r ∧ TaskDB.parent_id r = Some p ∧ p ∈ D.
Proof.
  unfold children_of. rewrite elem_of_dom. split.
  - intros [r Hr]. apply map_lookup_filter_Some in Hr as [Hr Hc].
    simpl in Hc. unfold child_of in Hc.
    destruct (TaskDB.parent_id r) as [p|] eqn:Hp; [|done].
    apply bool_decide_unpack in Hc. by exists r, p.
  - intros (r & p & Hr & Hp & HD). exists r.
    apply map_lookup_filter_Some. split; [done|]. simpl. unfold child_of.
    rewrite Hp. by apply bool_decide_pack.
Qed.

Lemma cascade_S n s D : cascade (S n) s D = cascade n s (D ∪ children_of s D).
Proof. reflexivity. Qed.

Lemma cascade_mono n s D : D ⊆ cascade n s D.
Proof.
  revert D. induction n as [|n IH]; intros D; [done|].
  rewrite cascade_S. etrans; [|apply IH]. set_solver.
Qed.

Lemma children_of_dom s D : children_of s D ⊆ dom s.
Proof.
  intros k (r & _ & Hr & _)%elem_of_children_of. by apply elem_of_dom.
Qed.

Lemma cascade_dom n s D : D ⊆ dom s → cascade n s D ⊆ dom s.
Proof.
  revert D. induction n as [|n IH]; intros D HD; [done|].
  rewrite cascade_S. apply IH. pose proof (children_of_dom s D). set_solver.
Qed.

Lemma cascade_descends n s root D :
  (∀ k, k ∈ D → descends s root k) →
  ∀ k, k ∈ cascade n s D → descends s root k.
Proof.
  revert D. induction n as [|n IH]; intros D HD k Hk; [by apply HD|].
  rewrite cascade_S in Hk. apply (IH (D ∪ children_of s D)); [|done].
  intros k' [?|Hc]%elem_of_union; [by apply HD|].
  apply elem_of_children_of in Hc as (r & p & Hr & Hp & HpD).
  exact (descends_child s root k' r p Hr Hp (HD p HpD)).
Qed.

(** ** Generations *)

Lemma level_functional s root n m k :
  level s root n k → level s root m k → n = m.
Proof.
  intros H. revert m. induction H as [|n k r p Hne Hr Hp _ IH]; intros m Hm.
  - by inversion Hm.
  - inversion Hm as [|m' ? r' p' _ Hr' Hp' Hm']; simplify_eq.
    f_equal. by apply IH.
Qed.

Lemma level_descends s root n k : level s root n k → descends s root k.
Proof.
  induction 1 as [|n k r p _ Hr Hp _ IH]; [constructor|].
  by eapply descends_child.
Qed.

Lemma descends_level s root k : descends s root k → ∃ n, level s root n k.
Proof.
  induction 1 as [|k r p Hr Hp _ [n IH]]; [exists 0; constructor|].
  destruct (decide (k = root)) as [->|Hne]; [exists 0; constructor|].
  exists (S n). by eapply level_child.
Qed.

(** Below a key of generation [n] there is one of every generation up to
    [n]. *)
Lemma level_ancestor s root n m k :
  level s root n k → m ≤ n → ∃ k', level s root m k'.
Proof.
  induction 1 as [|n k r p Hne Hr Hp Hl IH]; intros Hm.
  - replace m with 0 by lia. exists root. constructor.
  - destruct (decide (m = S n)) as [->|Hlt].
    + exists k. by eapply level_child.
    + apply IH. lia.
Qed.

(** [n] rounds of the cascade take the generations up to [n]. *)
Lemma cascade_level n s root D j :
  (∀ k, k ∈ D ↔ ∃ m, m ≤ j ∧ level s root m k) →
  ∀ k, k ∈ cascade n s D ↔ ∃ m, m ≤ j + n ∧ level s root m k.
Proof.
  revert D j. induction n as [|n IH]; intros D j HD k.
  - rewrite Nat.add_0_r. apply HD.
  - rewrite cascade_S, (IH _ (S j)).
    + by replace (S j + n) with (j + S n) by lia.
    + intros k'. rewrite elem_of_union, HD, elem_of_children_of. split.
      * intros [(m & Hm & Hl)|(r & p & Hr & Hp & HpD)].
        -- exists m. split; [lia|done].
        -- apply HD in HpD as (m & Hm & Hl).
           destruct (decide (k' = root)) as [->|Hne].
           ++ exists 0. split; [lia|constructor].
           ++ exists (S m). split; [lia|]. by eapply level_child.
      * intros (m & Hm & Hl).
        destruct (decide (m = S j)) as [->|Hlt].
        -- right. inversion Hl as [|? ? r p _ Hr Hp Hl']; simplify_eq.
           exists r, p. split_and!; [done..|]. apply HD. eauto.
        -- left. exists m. split; [lia|done].
Qed.

Lemma elem_of_cascade n s root k :
  k ∈ cascade n s {[root]} ↔ ∃ m, m ≤ n ∧ level s root m k.
Proof.
  apply (cascade_level n s root {[root]} 0).
  intros k'. rewrite elem_of_singleton. split.
  - intros ->. exists 0. split; [done|constructor].
  - intros (m & Hm & Hl). replace m with 0 in Hl by lia. by inversion Hl.
Qed.

(** The cascade stays within the levels the engine grants exactly when no
    key is one generation further. *)
Lemma cascade_closed_level n s root :
  children_of s (cascade n s {[root]}) ⊆ cascade n s {[root]}
  ↔ ¬ ∃ k, level s root (S n) k.
Proof.
  split.
  - intros Hc [k Hk].
    inversion Hk as [|? ? r p Hne Hr Hp Hl]; simplify_eq.
    assert (k ∈ cascade n s {[root]}) as Hin.
    { apply Hc, elem_of_children_of. exists r, p. split_and!; [done..|].
      apply elem_of_cascade. eauto. }
    apply elem_of_cascade in Hin as (m & Hm & Hl').
    pose proof (level_functional _ _ _ _ _ Hk Hl'). lia.
  - intros Hno k (r & p & Hr & Hp & (m & Hm & Hl)%elem_of_cascade)%elem_of_children_of.
    apply elem_of_cascade.
    destruct (decide (k = root)) as [->|Hne].
    + exists 0. split; [lia|constructor].
    + destruct (decide (m = n)) as [->|Hlt].
      * destruct Hno. exists k. by eapply level_child.
      * exists (S m). split; [lia|]. by eapply level_child.
Qed.

Lemma delete_task_within s trigger_depth id task :
  keyed_store s → s !! id = Some task →
  (∀ n k, level s id n k → n < trigger_depth) →
  delete_task s trigger_depth id
  = (filter (fun kr : string * TaskDB.t =>
               kr.1 ∉ cascade (trigger_depth - 1) s {[id]}) s, Ok ()).
Proof.
  intros Hk Hid Hlev. unfold delete_task. rewrite Hid, (Hk _ _ Hid).
  destruct trigger_depth as [|levels].
  { pose proof (Hlev 0 id (level_root s id)). lia. }
  replace (S levels - 1) with levels by lia. cbv zeta.
  rewrite bool_decide_eq_true_2; [done|].
  apply cascade_closed_level. intros [k Hl]. apply Hlev in Hl. lia.
Qed.

Lemma delete_task_beyond s trigger_depth id task :
  keyed_store s → s !! id = Some task →
  (∃ n k, level s id n k ∧ trigger_depth ≤ n) →
  delete_task s trigger_depth id = (s, Err OperationalError).
Proof.
  intros Hk Hid (n & k & Hl & Hn). unfold delete_task.
  rewrite Hid, (Hk _ _ Hid).
  destruct trigger_depth as [|levels]; [done|]. cbv zeta.
  rewrite bool_decide_eq_false_2; [done|].
  rewrite cascade_closed_level. intros Hno. apply Hno.
  by apply (level_ancestor s id n (S levels) k).
Qed.

(** When the cascade stays within the levels, it takes the keys that
    descend from the deleted one. *)
Lemma elem_of_cascade_descends s trigger_depth id k :
  (∀ n k, level s id n k → n < trigger_depth) →
  k ∈ cascade (trigger_depth - 1) s {[id]} ↔ descends s id k.
Proof.
  intros Hlev. rewrite elem_of_cascade. split.
  - intros (m & _ & Hl). by eapply level_descends.
  - intros [n Hl]%descends_level. exists n. split; [|done].
    apply Hlev in Hl. lia.
Qed.

Lemma delete_task_lookup_descends s trigger_depth id task k :
  keyed_store s → s !! id = Some task →
  (∀ n k, level s id n k → n < trigger_depth) →
  (delete_task s trigger_depth id).1 !! k
  = if decide (k ∈ cascade (trigger_depth - 1) s {[id]})
    then None else s !! k.
Proof.
  intros Hk Hid Hlev.
  rewrite (delete_task_within s trigger_depth id task Hk Hid Hlev). cbn [fst].
  destruct (decide _) as [Hin|Hin].
  - apply map_lookup_filter_None. right. intros r _. simpl. tauto.
  - destruct (s !! k) as [r|] eqn:Hr.
    + apply map_lookup_filter_Some. by split.
    + apply map_lookup_filter_None. left. done.
Qed.

(** ** Referential integrity *)

Lemma referential_integrity_insert s r :
  referential_integrity s →
  fk_ok s (TaskDB.id r) (TaskDB.parent_id r) = true →
  referential_integrity (<[TaskDB.id r := r]> s).
Proof.
  intros Hs Hfk k r' p Hk Hp. rewrite dom_insert.
  destruct (decide (TaskDB.id r = k)) as [<-|Hne].
  - rewrite lookup_insert_eq in Hk. simplify_eq. rewrite Hp in Hfk. simpl in Hfk.
    apply orb_true_iff in Hfk as [H|H]; apply bool_decide_eq_true in H;
      set_solver.
  - rewrite lookup_insert_ne in Hk by done. pose proof (Hs k r' p Hk Hp).
    set_solver.
Qed.

Lemma db_insert_referential_integrity s r s' :
  db_insert s r = Ok s' → referential_integrity s → referential_integrity s'.
Proof.
  unfold db_insert. intros H Hs. case_bool_decide; [done|].
  destruct (fk_ok _ _ _) eqn:Hfk; [|done]. simplify_eq.
  by apply referential_integrity_insert.
Qed.

Lemma db_update_referential_integrity s r s' :
  db_update s r = Ok s' → referential_integrity s → referential_integrity s'.
Proof.
  unfold db_update. intros H Hs.
  destruct (fk_ok _ _ _) eqn:Hfk; [|done]. simplify_eq.
  by apply referential_integrity_insert.
Qed.

Lemma run_statements_referential_integrity stmt s rows s' :
  (∀ s r s', stmt s r = Ok s' → referential_integrity s →
             referential_integrity s') →
  run_statements stmt s rows = Ok s' →
  referential_integrity s → referential_integrity s'.
Proof.
  intros Hstmt. revert s. induction rows as [|r rows IH]; intros s H Hs.
  - simpl in H. by simplify_eq.
  - cbn [run_statements] in H. destruct (stmt s r) as [s1|e] eqn:H1; [|done].
    apply (IH s1); [done|]. by eapply Hstmt.
Qed.

Lemma create_referential_integrity s uuid now task_input :
  referential_integrity s →
  referential_integrity (create_task s uuid now task_input).1.
Proof.
  intros Hs. unfold create_task.
  repeat (match goal with
          | |- context [if ?b then _ else _] => destruct b eqn:?
          | |- context [match db_insert ?a ?b with _ => _ end] =>
              destruct (db_insert a b) eqn:?
          end; cbn [fst]; try done);
    by eapply db_insert_referential_integrity.
Qed.

Lemma update_referential_integrity fromisoformat s id u ius im n1 n2 :
  referential_integrity s →
  referential_integrity (update_task fromisoformat s id u ius im n1 n2).1.
Proof.
  intros Hs. unfold update_task.
  destruct (s !! id) as [task|]; [|done].
  destruct (updated_row _ _ _ _ _ _ _ _) as [d|e]; [|done].
  destruct (Dirty.null_assigned d); [done|].
  destruct (db_update s (Dirty.task d)) as [s'|e] eqn:Hu; [|done].
  cbn [fst]. by eapply db_update_referential_integrity.
Qed.

Lemma import_tasks_Err s depth tasks validate_only oc s' e :
  import_tasks s depth tasks validate_only oc = (s', Err e) → s' = s.
Proof. unfold import_tasks. intros H. repeat case_match; by simplify_eq. Qed.

Lemma import_referential_integrity s depth tasks validate_only oc :
  referential_integrity s →
  referential_integrity (import_tasks s depth tasks validate_only oc).1.
Proof.
  intros Hs. destruct validate_only.
  { rewrite import_tasks_validate_only. by repeat case_match. }
  destruct (import_tasks s depth tasks false oc) as [s' [resp|e]] eqn:H.
  2:{ by apply import_tasks_Err in H as ->. }
  apply import_tasks_committed in H as (_ & sorted & _ & Hc & _). simpl.
  unfold commit in Hc.
  destruct (run_statements db_update s _) as [s1|] eqn:H1; [|done]. simpl in Hc.
  eapply (run_statements_referential_integrity db_insert);
    [apply db_insert_referential_integrity|exact Hc|].
  eapply (run_statements_referential_integrity db_update);
    [apply db_update_referential_integrity|exact H1|done].
Qed.

Lemma delete_referential_integrity s trigger_depth id :
  keyed_store s → referential_integrity s →
  referential_integrity (delete_task s trigger_depth id).1.
Proof.
  intros Hk Hs. unfold delete_task.
  destruct (s !! id) as [task|] eqn:Hid; [|done].
  destruct trigger_depth as [|levels]; [done|]. cbv zeta.
  case_bool_decide as Hclosed; [|done]. cbn [fst].
  intros k r p [Hr Hk']%map_lookup_filter_Some Hp. simpl in Hk'.
  pose proof (Hs k r p Hr Hp) as [parent Hparent]%elem_of_dom.
  apply elem_of_dom. exists parent.
  apply map_lookup_filter_Some. split; [done|]. simpl.
  intros Hin. apply Hk', Hclosed, elem_of_children_of. eauto.
Qed.
(** ** create_task, get_task and update_task *)

Lemma db_to_task_created_at r : Task.created_at (db_to_task r) = TaskDB.created_at r.
Proof. reflexivity. Qed.

Lemma db_to_task_updated_at r : Task.updated_at (db_to_task r) = TaskDB.updated_at r.
Proof. reflexivity. Qed.

Lemma get_task_insert s r :
  get_task (<[TaskDB.id r := r]> s) (TaskDB.id r)
  = Ok (db_to_task r, calculate_etag r).
Proof. unfold get_task. by rewrite lookup_insert_eq. Qed.

(** *** The field loop, column by column *)

Lemma apply_field_other s d fv d' n :
  apply_field s d fv = Ok d' → name_of fv ≠ n →
  column n (Dirty.task d') = column n (Dirty.task d).
Proof.
  intros H Hn. destruct fv as [v|v|v|v|v|v|v|v|v]; simpl in H;
    try destruct v; repeat case_match; simplify_eq;
    destruct n; try done; simpl;
    repeat case_match; by destruct (Dirty.task d).
Qed.

Lemma apply_fields_other s d update_data d' n :
  apply_fields s d update_data = Ok d' →
  Forall (fun fv => name_of fv ≠ n) update_data →
  column n (Dirty.task d') = column n (Dirty.task d).
Proof.
  revert d. induction update_data as [|fv l IH]; intros d H Hl.
  - simpl in H. by simplify_eq.
  - cbn [apply_fields] in H.
    destruct (apply_field s d fv) as [d1|e] eqn:H1; [|done].
    apply Forall_cons in Hl as [Hfv Hl].
    rewrite (IH d1 H Hl). by eapply apply_field_other.
Qed.

Lemma apply_field_written s d fv d' :
  apply_field s d fv = Ok d' → Dirty.null_assigned d' = false →
  column (name_of fv) (Dirty.task d') = stored fv.
Proof.
  intros H Hd. destruct fv as [v|v|v|v|v|v|v|v|v]; simpl in H;
    try destruct v as [v|]; repeat case_match; simplify_eq; try done;
    simpl in *; try done; by destruct v.
Qed.

Lemma apply_field_null_assigned s d fv d' :
  apply_field s d fv = Ok d' → Dirty.null_assigned d' = false →
  Dirty.null_assigned d = false.
Proof. intros H Hd. by destruct (apply_field_completed _ _ _ _ H Hd). Qed.

Lemma apply_fields_null_assigned s d update_data d' :
  apply_fields s d update_data = Ok d' → Dirty.null_assigned d' = false →
  Dirty.null_assigned d = false.
Proof. intros H Hd. by destruct (apply_fields_completed _ _ _ _ H Hd). Qed.

Lemma apply_fields_written s d l1 fv l2 d' :
  apply_fields s d (l1 ++ fv :: l2) = Ok d' →
  Dirty.null_assigned d' = false →
  Forall (fun fv' => name_of fv' ≠ name_of fv) l2 →
  column (name_of fv) (Dirty.task d') = stored fv.
Proof.
  revert d. induction l1 as [|x l1 IH]; intros d H Hd Hl2.
  - cbn [app apply_fields] in H.
    destruct (apply_field s d fv) as [d1|e] eqn:H1; [|done].
    rewrite (apply_fields_other _ _ _ _ _ H Hl2).
    apply (apply_field_written _ _ _ _ H1).
    by eapply apply_fields_null_assigned.
  - cbn [app apply_fields] in H.
    destruct (apply_field s d x) as [d1|e] eqn:H1; [|done].
    by apply (IH d1).
Qed.

(** [update_data] holds the fields that were sent, once each. *)
Lemma model_dump_names u :
  name_of <$> model_dump u = filter (fun n => sent n u = true) field_names.
Proof.
  destruct u as [[?|] [?|] [?|] [?|] [?|] [?|] [?|] [?|] [?|]]; reflexivity.
Qed.

Lemma field_names_NoDup : NoDup field_names.
Proof. by apply (bool_decide_unpack _). Qed.

Lemma model_dump_NoDup u : NoDup (name_of <$> model_dump u).
Proof. rewrite model_dump_names. apply NoDup_filter, field_names_NoDup. Qed.

Lemma model_dump_sent u fv : fv ∈ model_dump u → sent (name_of fv) u = true.
Proof.
  intros H. apply (list_elem_of_fmap_2 name_of) in H.
  rewrite model_dump_names in H. by apply list_elem_of_filter in H as [? _].
Qed.

Lemma model_dump_not_sent u n :
  sent n u = false → Forall (fun fv => name_of fv ≠ n) (model_dump u).
Proof.
  intros Hn. apply Forall_forall. intros fv Hfv <-.
  apply model_dump_sent in Hfv. congruence.
Qed.

Lemma committed_row_column task u n1 n2 d n :
  column n (committed_row task u n1 n2 d) = column n (Dirty.task d).
Proof.
  unfold committed_row, completion_rule.
  repeat case_match; destruct n; by destruct (Dirty.task d).
Qed.

Lemma update_task_row fromisoformat s id task u ius im n1 n2 s' resp :
  keyed_store s → s !! id = Some task →
  update_task fromisoformat s id u ius im n1 n2 = (s', Ok resp) →
  ∃ d, apply_fields s (Dirty.Build task false) (model_dump u) = Ok d
       ∧ Dirty.null_assigned d = false
       ∧ s' = <[id := committed_row task u n1 n2 d]> s
       ∧ resp = db_to_task (committed_row task u n1 n2 d).
Proof.
  intros Hk Hid H.
  apply (update_task_Ok _ _ _ _ _ _ _ _ _ _ _ Hid) in H
    as (d & _ & _ & Hd & Hn & -> & ->).
  exists d. by rewrite (Hk _ _ Hid).
Qed.
(** ** create_task *)

(** The row [create_task] inserts when the id is new and the parent, if
    one is named, is stored. *)
Lemma create_task_Ok s uuid now task_input :
  uuid ∉ dom s →
  (∀ p, TaskInput.parent_id task_input = Some p → p ∈ dom s) →
  ∃ r, create_task s uuid now task_input
       = (<[uuid := r]> s, Ok (db_to_task r))
       ∧ TaskDB.id r = uuid
       ∧ TaskDB.title r = TaskInput.title task_input
       ∧ TaskDB.description r = TaskInput.description task_input
       ∧ TaskDB.completed r = default false (TaskInput.completed task_input)
       ∧ TaskDB.archived r = default false (TaskInput.archived task_input)
       ∧ TaskDB.priority r = default 0%Z (TaskInput.priority task_input)
       ∧ TaskDB.due_date r = TaskInput.due_date task_input
       ∧ TaskDB.completion_date r
         = (if default false (TaskInput.completed task_input)
            then Some now else None)
       ∧ TaskDB.parent_id r = TaskInput.parent_id task_input
       ∧ f_tags (TaskDB.tags r) = stored (f_tags (TaskInput.tags task_input))
       ∧ f_metadata (TaskDB.task_metadata r)
         = stored (f_metadata (TaskInput.metadata task_input))
       ∧ TaskDB.created_at r = now
       ∧ TaskDB.updated_at r = now.
Proof.
  intros Hfresh Hparent.
  destruct task_input as [title desc c a prio due tags md p].
  simpl in Hparent. unfold create_task. cbn [TaskInput.title
    TaskInput.description TaskInput.completed TaskInput.archived
    TaskInput.priority TaskInput.due_date TaskInput.tags TaskInput.metadata
    TaskInput.parent_id].
  set (r0 := TaskDB.Build _ _ _ _ _ _ _ _ _ _ _ _ _).
  set (r1 := match tags with Some l => TaskDB.set_tags (Some l) r0 | None => r0 end).
  set (r2 := match md with Some d => TaskDB.set_metadata (Some d) r1 | None => r1 end).
  set (r3 := if TaskDB.completed r2
             then TaskDB.with_completion_date (Some now) r2 else r2).
  assert (TaskDB.id r3 = uuid ∧ TaskDB.parent_id r3 = p) as [Hid Hp].
  { subst r3 r2 r1 r0. destruct tags as [[|??]|], md as [[|??]|], (default false c);
      by simpl. }
  exists r3. rewrite Hp.
  assert (match p with
          | Some p0 => Py.truthy p0 && negb (bool_decide (p0 ∈ dom s))
          | None => false
          end = false) as ->.
  { destruct p as [p|]; [|done]. rewrite (bool_decide_true _ (Hparent p eq_refl)).
    by rewrite andb_false_r. }
  assert (db_insert s r3 = Ok (<[uuid := r3]> s)) as ->.
  { unfold db_insert. rewrite Hid, Hp. rewrite bool_decide_false by done.
    destruct p as [p|]; simpl; [|done].
    by rewrite (bool_decide_true _ (Hparent p eq_refl)). }
  split; [done|].
  subst r3 r2 r1 r0.
  destruct tags as [[|??]|], md as [[|??]|], c as [[]|]; simpl; by split_and!.
Qed.

(** A successful [create_task] inserts one row under the new id. *)
Lemma create_task_success s uuid now task_input t :
  (create_task s uuid now task_input).2 = Ok t →
  ∃ r, (create_task s uuid now task_input).1 = <[uuid := r]> s
       ∧ TaskDB.id r = uuid.
Proof.
  unfold create_task.
  set (r0 := TaskDB.Build _ _ _ _ _ _ _ _ _ _ _ _ _).
  set (r1 := match TaskInput.tags task_input with
             | Some l => TaskDB.set_tags (Some l) r0 | None => r0 end).
  set (r2 := match TaskInput.metadata task_input with
             | Some d => TaskDB.set_metadata (Some d) r1 | None => r1 end).
  set (r3 := if TaskDB.completed r2
             then TaskDB.with_completion_date (Some now) r2 else r2).
  assert (TaskDB.id r3 = uuid) as Hid.
  { subst r3 r2 r1 r0.
    destruct (TaskInput.tags task_input) as [[|??]|],
             (TaskInput.metadata task_input) as [[|??]|],
             (default false (TaskInput.completed task_input)); by simpl. }
  destruct (match TaskDB.parent_id r3 with
            | Some p => Py.truthy p && negb (bool_decide (p ∈ dom s))
            | None => false
            end); [done|].
  destruct (db_insert s r3) as [s'|e] eqn:Hins; [|done].
  intros _. exists r3. split; [|done]. cbn [fst].
  apply db_insert_writes_row in Hins. by rewrite Hins, Hid.
Qed.
(** ** The preconditions of update_task *)

Lemma append_char_inj c s1 s2 :
  s1 +:+ String c EmptyString = s2 +:+ String c EmptyString → s1 = s2.
Proof.
  revert s2. induction s1 as [|a s1 IH]; intros [|b s2] H; simplify_eq/=.
  - done.
  - by destruct s2.
  - by destruct s1.
  - f_equal. by apply IH.
Qed.

Lemma calculate_etag_inj a b :
  calculate_etag a = calculate_etag b → TaskDB.updated_at a = TaskDB.updated_at b.
Proof.
  unfold calculate_etag. intros H. injection H as H.
  by apply append_char_inj in H.
Qed.

Lemma committed_row_updated_at task u n1 n2 d :
  TaskDB.updated_at (committed_row task u n1 n2 d) = n2.
Proof. reflexivity. Qed.

Lemma committed_row_created_at task u n1 n2 d :
  TaskDB.created_at (committed_row task u n1 n2 d)
  = TaskDB.created_at (Dirty.task d).
Proof.
  unfold committed_row, completion_rule. repeat case_match; by destruct (Dirty.task d).
Qed.

Section PreconditionProofs.

Variable fromisoformat : string → option datetime.

Lemma check_if_unmodified_since_parsed task v a b :
  Py.truthy (TaskDB.updated_at task) = true → Py.truthy v = true →
  fromisoformat (utc_offset (TaskDB.updated_at task)) = Some a →
  fromisoformat (utc_offset v) = Some b →
  aware a = aware b →
  check_if_unmodified_since fromisoformat task (Some v)
  = if (instant b <? instant a)%Z
    then Err (PreconditionFailed "Task has been modified since specified time")
    else Ok ().
Proof.
  intros Hu Hv Ha Hb Hab. unfold check_if_unmodified_since, parse_datetime.
  cbn [Py.truthy_opt]. rewrite Hv, Hu, Ha, Hb. cbn.
  unfold datetime_gt. rewrite Hab, Bool.eqb_reflx. by destruct (_ <? _)%Z.
Qed.

Lemma update_task_check_passes s id u v im n1 n2 task :
  s !! id = Some task →
  check_if_unmodified_since fromisoformat task (Some v) = Ok () →
  update_task fromisoformat s id u (Some v) im n1 n2
  = update_task fromisoformat s id u None im n1 n2.
Proof.
  intros Hid Hc. unfold update_task, updated_row. rewrite Hid, Hc. done.
Qed.

Lemma update_task_check_fails s id u v im n1 n2 task e :
  s !! id = Some task →
  check_if_unmodified_since fromisoformat task (Some v) = Err e →
  update_task fromisoformat s id u (Some v) im n1 n2 = (s, Err e).
Proof.
  intros Hid Hc. unfold update_task, updated_row. rewrite Hid, Hc. done.
Qed.

Lemma update_task_if_match_fails s id u im n1 n2 task :
  s !! id = Some task → Py.truthy im = true → im ≠ calculate_etag task →
  update_task fromisoformat s id u None (Some im) n1 n2
  = (s, Err (PreconditionFailed "ETag does not match current resource")).
Proof.
  intros Hid Ht Hne. unfold update_task, updated_row. rewrite Hid.
  by rewrite (check_if_match_other task im Hne Ht).
Qed.

End PreconditionProofs.
(** ** list_tasks *)

(** *** The order *)

Lemma directed_opp o c : directed o (CompOpp c) = CompOpp (directed o c).
Proof. by destruct o, c. Qed.

Lemma directed_Eq o c : directed o c = Eq → c = Eq.
Proof. by destruct o, c. Qed.

Lemma bool_compare_antisym a b : Bool.compare b a = CompOpp (Bool.compare a b).
Proof. by destruct a, b. Qed.

Lemma string_compare_refl s : (s ?= s)%string = Eq.
Proof.
  pose proof (String.compare_antisym s s) as H.
  by destruct (s ?= s)%string.
Qed.

Lemma string_compare_Lt_trans s1 s2 s3 :
  (s1 ?= s2)%string = Lt → (s2 ?= s3)%string = Lt → (s1 ?= s3)%string = Lt.
Proof.
  intros H12 H23.
  assert (String.le s1 s3) as H13.
  { trans s2; unfold String.le, String.leb; by rewrite ?H12, ?H23. }
  unfold String.le, String.leb in H13.
  destruct (s1 ?= s3)%string eqn:H; [|done..].
  apply String.compare_eq_iff in H as ->.
  rewrite String.compare_antisym, H12 in H23. done.
Qed.

Lemma string_ordering : ordering String.compare.
Proof.
  split; [apply String.compare_eq_iff|apply string_compare_refl
         |intros; apply String.compare_antisym|apply string_compare_Lt_trans].
Qed.

Lemma Z_ordering : ordering Z.compare.
Proof.
  split; [apply Z.compare_eq|apply Z.compare_refl
         |intros; apply Z.compare_antisym|].
  intros a b c. rewrite !Z.compare_lt_iff. lia.
Qed.

Lemma bool_ordering : ordering Bool.compare.
Proof. split; [by intros [] []|by intros []|by intros [] []|by intros [] [] []]. Qed.

Lemma directed_ordering {A} (cmp : A → A → comparison) o :
  ordering cmp → ordering (fun a b => directed o (cmp a b)).
Proof.
  intros [He Hr Ha Ht]. split.
  - intros a b H. by apply He, (directed_Eq o).
  - intros a. by rewrite Hr; destruct o.
  - intros a b. by rewrite Ha, directed_opp.
  - intros a b c. destruct o; simpl; [apply Ht|].
    intros H1 H2.
    assert (cmp c b = Lt) as H3 by (rewrite (Ha b c); by destruct (cmp b c)).
    assert (cmp b a = Lt) as H4 by (rewrite (Ha a b); by destruct (cmp a b)).
    by rewrite (Ha c a), (Ht c b a H3 H4).
Qed.

Lemma nulls_last_ordering {A} (cmp : A → A → comparison) :
  ordering cmp → ordering (nulls_last cmp).
Proof.
  intros [He Hr Ha Ht]. split.
  - intros [a|] [b|] H; simplify_eq/=; try done. f_equal. by apply He.
  - intros [a|]; simpl; [apply Hr|done].
  - intros [a|] [b|]; simpl; try done.
  - intros [a|] [b|] [c|]; simpl; try done. apply Ht.
Qed.

(** The sort key of a row under [q], and the comparison of two keys. *)
Lemma primary_compare_ordering q :
  ∃ (K : Type) (key : TaskDB.t → K) (cmp : K → K → comparison),
    ordering cmp ∧ ∀ a b, primary_compare q a b = cmp (key a) (key b).
Proof.
  unfold primary_compare. destruct (ListQuery.sort_by q).
  - exists string, TaskDB.created_at, (fun a b => directed (ListQuery.order q) (a ?= b)%string).
    split; [apply directed_ordering, string_ordering|done].
  - exists string, TaskDB.updated_at, (fun a b => directed (ListQuery.order q) (a ?= b)%string).
    split; [apply directed_ordering, string_ordering|done].
  - exists string, TaskDB.title, (fun a b => directed (ListQuery.order q) (a ?= b)%string).
    split; [apply directed_ordering, string_ordering|done].
  - exists Z, TaskDB.priority, (fun a b => directed (ListQuery.order q) (a ?= b)%Z).
    split; [apply directed_ordering, Z_ordering|done].
  - exists (option string), TaskDB.due_date,
      (nulls_last (fun a b => directed (ListQuery.order q) (a ?= b)%string)).
    split; [apply nulls_last_ordering, directed_ordering, string_ordering|].
    intros a b. unfold nulls_last. by repeat case_match.
  - exists bool, TaskDB.completed,
      (fun a b => directed (ListQuery.order q) (Bool.compare a b)).
    split; [apply directed_ordering, bool_ordering|done].
Qed.

Lemma order_by_total q : Total (order_by q).
Proof.
  intros a b. unfold order_by.
  destruct (primary_compare_ordering q) as (K & key & cmp & [He Hr Ha Ht] & Hpc).
  rewrite !Hpc. rewrite (Ha (key a) (key b)).
  destruct (cmp (key a) (key b)); simpl; auto.
  apply (total String.le).
Qed.

Lemma order_by_transitive q : Transitive (order_by q).
Proof.
  intros a b c. unfold order_by.
  destruct (primary_compare_ordering q) as (K & key & cmp & [He Hr Ha Ht] & Hpc).
  rewrite !Hpc.
  destruct (cmp (key a) (key b)) eqn:Hab; [| |done].
  - apply He in Hab. rewrite Hab.
    destruct (cmp (key b) (key c)); [|done..].
    intros ??. by trans (TaskDB.created_at b).
  - intros _. destruct (cmp (key b) (key c)) eqn:Hbc; [| |done]; intros _.
    + apply He in Hbc. rewrite <- Hbc. by rewrite Hab.
    + by rewrite (Ht _ _ _ Hab Hbc).
Qed.

Lemma selected_rows_sorted s q now :
  StronglySorted (order_by q) (selected_rows s q now).
Proof.
  apply StronglySorted_merge_sort;
    [apply order_by_transitive|apply order_by_total].
Qed.

Lemma string_compare_Lt s1 s2 :
  (s1 ?= s2)%string = Lt → String.le s1 s2 ∧ s1 ≠ s2.
Proof.
  intros H. split.
  - unfold String.le, String.leb. by rewrite H.
  - intros ->. by rewrite string_compare_refl in H.
Qed.

Lemma string_compare_Gt s1 s2 :
  (s1 ?= s2)%string = Gt → String.le s2 s1 ∧ s2 ≠ s1.
Proof.
  intros H. apply string_compare_Lt.
  by rewrite String.compare_antisym, H.
Qed.

(** The comparison the rows are sorted with orders them as the clause
    reads. *)
Lemma order_by_in_order q a b : order_by q a b → in_order q a b.
Proof.
  unfold order_by, primary_compare, in_order.
  destruct (ListQuery.sort_by q); cbn [sort_column fmap option_fmap option_map].
  - destruct (String.compare _ _) eqn:Hc, (ListQuery.order q);
      cbn [directed CompOpp]; try done; intros H.
    + apply String.compare_eq_iff in Hc. right. by rewrite Hc.
    + apply String.compare_eq_iff in Hc. right. by rewrite Hc.
    + left. by apply string_compare_Lt.
    + left. by apply string_compare_Gt.
  - destruct (String.compare _ _) eqn:Hc, (ListQuery.order q);
      cbn [directed CompOpp]; try done; intros H.
    + apply String.compare_eq_iff in Hc. right. by rewrite Hc.
    + apply String.compare_eq_iff in Hc. right. by rewrite Hc.
    + left. by apply string_compare_Lt.
    + left. by apply string_compare_Gt.
  - destruct (String.compare _ _) eqn:Hc, (ListQuery.order q);
      cbn [directed CompOpp]; try done; intros H.
    + apply String.compare_eq_iff in Hc. right. by rewrite Hc.
    + apply String.compare_eq_iff in Hc. right. by rewrite Hc.
    + left. by apply string_compare_Lt.
    + left. by apply string_compare_Gt.
  - destruct (Z.compare _ _) eqn:Hc, (ListQuery.order q);
      cbn [directed CompOpp]; try done; intros H.
    + apply Z.compare_eq in Hc. right. by rewrite Hc.
    + apply Z.compare_eq in Hc. right. by rewrite Hc.
    + left. by apply Z.compare_lt_iff.
    + left. simpl. by apply Z.compare_gt_iff.
  - destruct (TaskDB.due_date a) as [x|], (TaskDB.due_date b) as [y|];
      cbn [fmap option_fmap option_map]; try done.
    destruct (String.compare _ _) eqn:Hc, (ListQuery.order q);
      cbn [directed CompOpp]; try done; intros H.
    + apply String.compare_eq_iff in Hc. right. by rewrite Hc.
    + apply String.compare_eq_iff in Hc. right. by rewrite Hc.
    + left. by apply string_compare_Lt.
    + left. by apply string_compare_Gt.
  - destruct (TaskDB.completed a), (TaskDB.completed b), (ListQuery.order q);
      cbn [Bool.compare directed CompOpp value_lt]; try done; intros H;
      try (by right); by left.
Qed.

Lemma StronglySorted_impl {A} (R R' : relation A) (l : list A) :
  (∀ a b, R a b → R' a b) → StronglySorted R l → StronglySorted R' l.
Proof.
  intros HR. induction 1 as [|x l _ IH Hall]; constructor; [done|].
  eapply Forall_impl; [done|]. intros y. apply HR.
Qed.

Lemma StronglySorted_take_drop {A} (R : relation A) n m (l : list A) :
  StronglySorted R l → StronglySorted R (take n (drop m l)).
Proof.
  intros H. rewrite <-(take_drop m l) in H.
  apply StronglySorted_app_1_r in H.
  rewrite <-(take_drop n (drop m l)) in H.
  by apply StronglySorted_app_1_l in H.
Qed.

(** *** The rows selected *)

Lemma elem_of_selected_rows s q now r :
  r ∈ selected_rows s q now
  ↔ (∃ k, s !! k = Some r) ∧ where_clause q now r = true.
Proof.
  unfold selected_rows. rewrite merge_sort_Permutation.
  rewrite list_elem_of_filter, elem_of_table_rows.
  rewrite Is_true_true. tauto.
Qed.

Lemma elem_of_list_tasks s q now t :
  t ∈ TaskList.data (list_tasks s q now) →
  ∃ r, t = db_to_task r ∧ r ∈ selected_rows s q now.
Proof.
  unfold list_tasks. simpl. intros (r & -> & Hr)%list_elem_of_fmap.
  exists r. split; [done|].
  eapply elem_of_sublist in Hr; [done|apply sublist_take_drop].
Qed.

Lemma selected_rows_page s q now limit offset :
  selected_rows s (page limit offset q) now = selected_rows s q now.
Proof. by destruct q. Qed.

Lemma other_filters_under p q now r :
  other_filters (under p q) now r = other_filters q now r.
Proof. by destruct q. Qed.

Lemma selected_rows_children s q now p :
  ListQuery.parent_id q = Some p → p ≠ "null" →
  selected_rows s q now ≡ₚ filter (child_and_filtered p q now) (table_rows s).
Proof.
  intros Hq Hp. unfold selected_rows. rewrite merge_sort_Permutation.
  erewrite list_filter_iff; [done|]. intros r.
  unfold where_clause, child_and_filtered, parent_filter. rewrite Hq.
  rewrite bool_decide_false by done.
  rewrite andb_True, !Is_true_true. unfold sql_test.
  destruct (TaskDB.parent_id r) as [v|]; [rewrite bool_decide_eq_true|];
    split; intros [??]; split; congruence.
Qed.

Lemma selected_rows_null s q now :
  ListQuery.parent_id q = Some "null" →
  selected_rows s q now = selected_rows s (under None q) now.
Proof. destruct q. simpl. by intros ->. Qed.
(** ** LIKE: what a search and a tag filter never miss *)

Lemma append_nil_l s : "" +:+ s = s.
Proof. reflexivity. Qed.

Lemma append_cons c s1 s2 : String c s1 +:+ s2 = String c (s1 +:+ s2).
Proof. reflexivity. Qed.

Lemma append_nil_r s : s +:+ "" = s.
Proof. induction s as [|c s IH]; [done|]. by rewrite append_cons, IH. Qed.

Lemma append_assoc s1 s2 s3 : (s1 +:+ s2) +:+ s3 = s1 +:+ (s2 +:+ s3).
Proof.
  induction s1 as [|c s1 IH]; [done|]. rewrite !append_cons. by rewrite IH.
Qed.

Lemma like_percent p pat txt :
  Sqlite.is_percent p = true →
  Sqlite.like (String p pat) txt
  = Sqlite.like pat txt
    || match txt with
       | EmptyString => false
       | String _ txt' => Sqlite.like (String p pat) txt'
       end.
Proof. intros Hp. destruct txt; simpl; by rewrite Hp. Qed.

Lemma like_char p pat t txt :
  Sqlite.is_percent p = false →
  Sqlite.like (String p pat) (String t txt)
  = (Sqlite.is_underscore p
     || bool_decide (Sqlite.fold_ascii p = Sqlite.fold_ascii t))
    && Sqlite.like pat txt.
Proof. intros Hp. simpl. by rewrite Hp. Qed.

(** A leading [%] takes any prefix. *)
Lemma like_skip p pat a txt :
  Sqlite.is_percent p = true →
  Sqlite.like (String p pat) txt = true →
  Sqlite.like (String p pat) (a +:+ txt) = true.
Proof.
  intros Hp H. induction a as [|c a IH]; [done|].
  rewrite append_cons, (like_percent p pat _ Hp), IH. apply orb_true_r.
Qed.

Lemma like_percent_intro p pat txt :
  Sqlite.is_percent p = true →
  Sqlite.like pat txt = true → Sqlite.like (String p pat) txt = true.
Proof. intros Hp H. by rewrite (like_percent p pat _ Hp), H. Qed.

Lemma like_percent_all txt : Sqlite.like "%" txt = true.
Proof.
  induction txt as [|c txt IH]; [done|].
  rewrite (like_percent "%" "" _ eq_refl), IH. apply orb_true_r.
Qed.

(** A pattern matches its own text, whatever wildcards it holds, and up to
    the case of ASCII letters. *)
Lemma like_same_fold q q' rest txt :
  fold_string q = fold_string q' → Sqlite.like rest txt = true →
  Sqlite.like (q +:+ rest) (q' +:+ txt) = true.
Proof.
  intros Hq Hrest. revert q' Hq.
  induction q as [|p q IH]; intros [|t q'] Hq; try done.
  simpl in Hq. injection Hq as H H0.
  rewrite !append_cons. destruct (Sqlite.is_percent p) eqn:Hp.
  - rewrite (like_percent p _ _ Hp).
    rewrite (like_percent_intro p _ _ Hp (IH q' H0)). apply orb_true_r.
  - rewrite (like_char p _ _ _ Hp), (IH q' H0), H.
    rewrite bool_decide_true by done. by rewrite orb_true_r.
Qed.



(** *** Tags *)

Lemma escape_char_plain c :
  plain_char c = true → Json.escape_char c = String c EmptyString.
Proof. by destruct c as [[] [] [] [] [] [] [] []]. Qed.

Lemma escape_plain s : plain s = true → Json.escape s = s.
Proof.
  induction s as [|c s IH]; [done|]. simpl.
  intros [Hc Hs]%andb_true_iff. by rewrite (escape_char_plain c Hc), (IH Hs).
Qed.

Lemma fold_lower_char_plain c :
  plain_char c = true →
  Sqlite.fold_ascii (Py.lower_char c) = Sqlite.fold_ascii c.
Proof. by destruct c as [[] [] [] [] [] [] [] []]. Qed.

Lemma fold_lower_plain s :
  plain s = true → fold_string (Py.lower s) = fold_string s.
Proof.
  induction s as [|c s IH]; [done|]. simpl.
  intros [Hc Hs]%andb_true_iff. by rewrite (fold_lower_char_plain c Hc), (IH Hs).
Qed.

Lemma fold_string_app s1 s2 :
  fold_string (s1 +:+ s2) = fold_string s1 +:+ fold_string s2.
Proof.
  induction s1 as [|c s1 IH]; [done|]. rewrite append_cons. simpl.
  by rewrite IH, append_cons.
Qed.

Lemma join_elem_of sep l x :
  x ∈ l → ∃ a b, Json.join sep l = a +:+ x +:+ b.
Proof.
  induction l as [|y l IH]; [by intros ?%elem_of_nil|].
  intros [->|Hx]%elem_of_cons.
  - destruct l as [|z l].
    + exists "", "". by rewrite append_nil_l, append_nil_r.
    + exists "", (sep +:+ Json.join sep (z :: l)). by rewrite append_nil_l.
  - destruct (IH Hx) as (a & b & Hab). destruct l as [|z l].
    { by apply elem_of_nil in Hx. }
    exists (y +:+ sep +:+ a), b.
    change (Json.join sep (y :: z :: l))
      with (y +:+ sep +:+ Json.join sep (z :: l)).
    by rewrite Hab, !append_assoc.
Qed.

Lemma dumps_elem_of l t :
  t ∈ l → ∃ a b, Json.dumps l = a +:+ Json.dumps_str t +:+ b.
Proof.
  intros Ht. apply (list_elem_of_fmap_2 Json.dumps_str) in Ht.
  destruct (join_elem_of ", " _ _ Ht) as (a & b & Hab).
  exists ("[" +:+ a), (b +:+ "]"). unfold Json.dumps.
  by rewrite Hab, !append_assoc.
Qed.

Lemma tag_pattern_plain tag_filter t l :
  plain t = true → t ∈ l →
  Py.lower (Py.strip tag_filter) = Py.lower t →
  Sqlite.like (tag_pattern tag_filter) (Json.dumps l) = true.
Proof.
  intros Hplain Ht Hf. destruct (dumps_elem_of l t Ht) as (a & b & ->).
  unfold tag_pattern, Json.dumps_str. rewrite Hf, (escape_plain t Hplain).
  rewrite (append_cons "%" ""), append_nil_l.
  apply (like_skip "%" _ _ _ eq_refl), (like_percent_intro "%" _ _ eq_refl).
  replace (String Json.quote (Py.lower t +:+ String Json.quote "%"))
    with (String Json.quote (Py.lower t +:+ String Json.quote "") +:+ "%").
  2:{ rewrite append_cons, append_assoc. done. }
  apply like_same_fold; [|apply like_percent_all].
  simpl. f_equal. rewrite !fold_string_app. f_equal.
  by apply fold_lower_plain.
Qed.
(** ** export_tasks *)

Lemma by_created_at_asc_total : Total by_created_at_asc.
Proof. intros a b. apply (total String.le). Qed.

Lemma by_created_at_asc_transitive : Transitive by_created_at_asc.
Proof. intros a b c. unfold by_created_at_asc. apply transitivity. Qed.

Lemma export_tasks_split s :
  ∃ root_tasks child_tasks,
    export_tasks s = root_tasks ++ child_tasks
    ∧ Forall (fun t => Task.parent_id t = None) root_tasks
    ∧ Forall (fun t => Task.parent_id t ≠ None) child_tasks
    ∧ StronglySorted created_before root_tasks
    ∧ StronglySorted created_before child_tasks.
Proof.
  unfold export_tasks. cbv zeta. rewrite fmap_app.
  eexists _, _. split; [reflexivity|].
  split_and!.
  - apply Forall_fmap. rewrite merge_sort_Permutation.
    apply Forall_forall. by intros r [? _]%list_elem_of_filter.
  - apply Forall_fmap. rewrite merge_sort_Permutation.
    apply Forall_forall. by intros r [? _]%list_elem_of_filter.
  - apply (StronglySorted_fmap _ by_created_at_asc); [done|].
    apply StronglySorted_merge_sort;
      [apply by_created_at_asc_transitive|apply by_created_at_asc_total].
  - apply (StronglySorted_fmap _ by_created_at_asc); [done|].
    apply StronglySorted_merge_sort;
      [apply by_created_at_asc_transitive|apply by_created_at_asc_total].
Qed.

Lemma export_tasks_Permutation s :
  export_tasks s ≡ₚ db_to_task <$> table_rows s.
Proof. by rewrite export_tasks_rows, export_rows_Permutation. Qed.

Lemma export_tasks_length s : length (export_tasks s) = size s.
Proof.
  rewrite export_tasks_Permutation. unfold table_rows.
  by rewrite !length_fmap, length_map_to_list.
Qed.
(** ** import_tasks: the table after a successful import *)

Lemma db_insert_checks_fk : checks_fk db_insert.
Proof.
  intros s r s' H. unfold db_insert in H. case_bool_decide; [done|].
  destruct (fk_ok _ _ _) eqn:Hfk; by simplify_eq.
Qed.

Lemma db_update_checks_fk : checks_fk db_update.
Proof.
  intros s r s' H. unfold db_update in H.
  destruct (fk_ok _ _ _) eqn:Hfk; by simplify_eq.
Qed.

Lemma checks_fk_writes_row stmt : checks_fk stmt → writes_row stmt.
Proof. intros H s r s' Hs. by destruct (H s r s' Hs). Qed.

(** Each row of a flush is read back under its id, and no other key
    changes. *)
Lemma run_statements_lookup stmt s rows s' :
  writes_row stmt → run_statements stmt s rows = Ok s' →
  NoDup (TaskDB.id <$> rows) →
  (∀ r, r ∈ rows → s' !! TaskDB.id r = Some r)
  ∧ (∀ k, k ∉ TaskDB.id <$> rows → s' !! k = s !! k).
Proof.
  intros Hstmt. revert s. induction rows as [|r rows IH]; intros s H Hnd.
  - simpl in H. simplify_eq. split; [by intros r ?%elem_of_nil|done].
  - cbn [run_statements] in H. destruct (stmt s r) as [s1|e] eqn:H1; [|done].
    apply Hstmt in H1 as ->. rewrite fmap_cons in Hnd.
    apply NoDup_cons in Hnd as [Hr Hnd].
    destruct (IH _ H Hnd) as [IH1 IH2]. split.
    + intros r' [->|Hr']%elem_of_cons; [|by apply IH1].
      by rewrite (IH2 _ Hr), lookup_insert_eq.
    + intros k Hk. rewrite fmap_cons in Hk.
      apply not_elem_of_cons in Hk as [Hk1 Hk2].
      by rewrite (IH2 _ Hk2), lookup_insert_ne.
Qed.

(** The keys only grow, and the parent of every row written is a key at
    the end. *)
Lemma run_statements_parents stmt s rows s' :
  checks_fk stmt → run_statements stmt s rows = Ok s' →
  dom s ⊆ dom s'
  ∧ ∀ r p, r ∈ rows → TaskDB.parent_id r = Some p → p ∈ dom s'.
Proof.
  intros Hstmt. revert s. induction rows as [|r rows IH]; intros s H.
  - simpl in H. simplify_eq. split; [done|]. by intros r p ?%elem_of_nil.
  - cbn [run_statements] in H. destruct (stmt s r) as [s1|e] eqn:H1; [|done].
    apply Hstmt in H1 as [-> Hfk].
    destruct (IH _ H) as [IH1 IH2]. rewrite dom_insert in IH1. split.
    + set_solver.
    + intros r' p [->|Hr']%elem_of_cons Hp; [|by eapply IH2].
      rewrite Hp in Hfk. simpl in Hfk.
      apply orb_true_iff in Hfk as [Hd|Hd]; apply bool_decide_eq_true in Hd;
        set_solver.
Qed.

Lemma commit_lookup s p s' :
  commit s p = Ok s' → NoDup (TaskDB.id <$> pending_rows p) →
  (∀ r, r ∈ pending_rows p → s' !! TaskDB.id r = Some r)
  ∧ (∀ k, k ∉ TaskDB.id <$> pending_rows p → s' !! k = s !! k).
Proof.
  unfold commit, pending_rows. intros H Hnd.
  destruct (run_statements db_update s _) as [s1|] eqn:H1; [|done].
  cbn in H. rewrite fmap_app in Hnd. apply NoDup_app in Hnd as (Hu & Hd & Hi).
  destruct (run_statements_lookup _ _ _ _ db_update_writes_row H1 Hu)
    as [U1 U2].
  destruct (run_statements_lookup _ _ _ _ db_insert_writes_row H Hi)
    as [I1 I2].
  split.
  - intros r [Hr|Hr]%elem_of_app; [|by apply I1].
    rewrite I2; [by apply U1|]. apply Hd. by apply list_elem_of_fmap_2.
  - intros k Hk. rewrite fmap_app in Hk.
    apply not_elem_of_app in Hk as [Hk1 Hk2]. by rewrite I2, U2.
Qed.

Lemma commit_parents s p s' :
  commit s p = Ok s' →
  dom s ⊆ dom s'
  ∧ ∀ r q, r ∈ pending_rows p → TaskDB.parent_id r = Some q → q ∈ dom s'.
Proof.
  unfold commit, pending_rows. intros H.
  destruct (run_statements db_update s _) as [s1|] eqn:H1; [|done].
  cbn in H.
  destruct (run_statements_parents _ _ _ _ db_update_checks_fk H1) as [U1 U2].
  destruct (run_statements_parents _ _ _ _ db_insert_checks_fk H) as [I1 I2].
  split; [set_solver|].
  intros r q [Hr|Hr]%elem_of_app Hq; [|by eapply I2].
  apply I1. by eapply U2.
Qed.

(** The write loop leaves one row per record, under the record's id. *)
Lemma write_loop_pending s oc existing sorted :
  keyed_store s → (∀ k, k ∈ existing → k ∈ dom s) →
  TaskDB.id <$> pending_rows (write_loop s oc existing sorted) ≡ₚ ids sorted
  ∧ ∀ t, t ∈ sorted →
         import_row (Task.id t) t
         ∈ pending_rows (write_loop s oc existing sorted).
Proof.
  intros Hk Hex. induction sorted as [|task rest [IH1 IH2]].
  - split; [done|]. by intros t ?%elem_of_nil.
  - cbn [write_loop]. cbv zeta.
    destruct (bool_decide (oc = upsert) && bool_decide (Task.id task ∈ existing))
      eqn:Hb.
    + apply andb_true_iff in Hb as [_ Hin]. apply bool_decide_eq_true in Hin.
      apply Hex, elem_of_dom in Hin as [db_task Hdb]. rewrite Hdb.
      rewrite (Hk _ _ Hdb). unfold pending_rows in *. cbn. split.
      * rewrite import_row_id. by f_equiv.
      * intros t [->|Ht]%elem_of_cons; [left|right; by apply IH2].
    + unfold pending_rows in *. cbn. split.
      * rewrite fmap_app, fmap_cons, import_row_id.
        rewrite <-Permutation_middle. f_equiv. by rewrite <-fmap_app.
      * intros t [->|Ht]%elem_of_cons.
        -- apply elem_of_app. right. left.
        -- specialize (IH2 t Ht). apply elem_of_app in IH2 as [?|?];
             apply elem_of_app; [by left|right; by right].
Qed.

Lemma elem_of_ids_remaining_tasks s oc tasks k :
  k ∈ ids (remaining_tasks s oc tasks)
  ↔ k ∈ ids tasks ∧ ¬ (oc = skip ∧ k ∈ dom s).
Proof.
  unfold ids. rewrite !list_elem_of_fmap. split.
  - intros (t & -> & Ht). apply elem_of_remaining_tasks in Ht as [Ht Hn]. eauto.
  - intros [(t & -> & Ht) Hn]. exists t. split; [done|].
    by apply elem_of_remaining_tasks.
Qed.

(** The table a successful import leaves: the records that were not
    skipped are stored as [import_row] writes them, every other key is as
    before. *)
Lemma import_tasks_lookup s depth tasks oc s' resp :
  keyed_store s →
  import_tasks s depth tasks false oc = (s', Ok resp) →
  (∀ t, t ∈ remaining_tasks s oc tasks →
        s' !! Task.id t = Some (import_row (Task.id t) t))
  ∧ (∀ k, k ∉ ids (remaining_tasks s oc tasks) → s' !! k = s !! k)
  ∧ (∀ t p, t ∈ remaining_tasks s oc tasks → Task.parent_id t = Some p →
            p ∈ dom s')
  ∧ resp = ImportResponse.Build 201 (length (remaining_tasks s oc tasks)).
Proof.
  intros Hk H.
  apply import_tasks_committed in H as (Hnd & sorted & Hsort & Hc & ->).
  pose proof (remaining_tasks_NoDup s oc tasks Hnd) as Hnd'.
  destruct (sort_tasks_Some _ _ _ Hnd' Hsort) as [Hperm _].
  assert (∀ k, k ∈ existing_ids s tasks → k ∈ dom s) as Hex.
  { by intros k [? _]%elem_of_existing_ids. }
  destruct (write_loop_pending s oc (existing_ids s tasks) sorted Hk Hex)
    as [Hids Hrows].
  assert (NoDup (TaskDB.id <$>
            pending_rows (write_loop s oc (existing_ids s tasks) sorted)))
    as Hnd''.
  { rewrite Hids. unfold ids. by rewrite Hperm. }
  destruct (commit_lookup _ _ _ Hc Hnd'') as [L1 L2].
  destruct (commit_parents _ _ _ Hc) as [_ P2].
  split_and!.
  - intros t Ht. rewrite <-Hperm in Ht. specialize (L1 _ (Hrows t Ht)).
    by rewrite import_row_id in L1.
  - intros k Hn. apply L2. rewrite Hids. unfold ids in *. by rewrite Hperm.
  - intros t p Ht Hp. rewrite <-Hperm in Ht.
    apply (P2 _ p (Hrows t Ht)). by rewrite import_row_parent_id.
  - f_equal. rewrite <-Hperm. apply write_loop_count.
    intros t _ Hin. apply elem_of_dom. by apply Hex.
Qed.
(** ** import_tasks twice *)

Lemma remaining_tasks_not_skip s oc tasks :
  oc ≠ skip → remaining_tasks s oc tasks = tasks.
Proof.
  intros Hoc. unfold remaining_tasks.
  rewrite (bool_decide_false (oc = skip)) by done. by rewrite andb_false_r.
Qed.

Lemma sort_tasks_nil depth : sort_tasks depth [] = Some [].
Proof. reflexivity. Qed.

(** Under [upsert], on a table that holds every record as it would write
    it, the write loop only leaves UPDATEs of the rows by themselves. *)
Lemma write_loop_stored s existing sorted :
  (∀ t, t ∈ sorted →
        Task.id t ∈ existing
        ∧ s !! Task.id t = Some (import_row (Task.id t) t)) →
  write_loop s upsert existing sorted
  = Pending.Build (inserted_row <$> sorted) [] (length sorted).
Proof.
  induction sorted as [|task rest IH]; intros H; [done|].
  cbn [write_loop]. cbv zeta. rewrite IH.
  2:{ intros t Ht. apply H. by right. }
  destruct (H task) as [Hin Hs]; [by left|].
  rewrite bool_decide_true by done. rewrite bool_decide_true by done.
  cbn [andb]. rewrite Hs. cbn. by rewrite import_row_id.
Qed.

Lemma run_updates_stored s rows :
  (∀ r, r ∈ rows →
        s !! TaskDB.id r = Some r
        ∧ ∀ p, TaskDB.parent_id r = Some p → p ∈ dom s) →
  run_statements db_update s rows = Ok s.
Proof.
  induction rows as [|r rows IH]; intros H; [done|].
  cbn [run_statements]. destruct (H r) as [Hr Hp]; [by left|].
  assert (db_update s r = Ok s) as ->.
  { unfold db_update.
    assert (fk_ok s (TaskDB.id r) (TaskDB.parent_id r) = true) as ->.
    { unfold fk_ok. destruct (TaskDB.parent_id r) as [p|]; [|done].
      by rewrite (bool_decide_true _ (Hp p eq_refl)). }
    by rewrite insert_id. }
  cbn. apply IH. intros r' Hr'. apply H. by right.
Qed.
(** ** update_task: when it fails and when it succeeds *)

Lemma apply_fields_app s d l1 l2 :
  apply_fields s d (l1 ++ l2)
  = (d' ← apply_fields s d l1; apply_fields s d' l2).
Proof.
  revert d. induction l1 as [|fv l1 IH]; intros d; [done|].
  cbn [app apply_fields]. destruct (apply_field s d fv) as [d1|e]; [|done].
  cbn. apply IH.
Qed.

Lemma apply_field_null s d fv d' :
  apply_field s d fv = Ok d' →
  Dirty.null_assigned d' = Dirty.null_assigned d || null_for_not_null fv.
Proof.
  intros H. destruct fv as [v|v|v|v|v|v|v|v|v]; simpl in H;
    try destruct v as [v|]; repeat case_match; simplify_eq; simpl;
    by rewrite ?orb_false_r, ?orb_true_r.
Qed.

Lemma apply_fields_null s d l d' :
  apply_fields s d l = Ok d' →
  Dirty.null_assigned d'
  = Dirty.null_assigned d || existsb null_for_not_null l.
Proof.
  revert d. induction l as [|fv l IH]; intros d H.
  - simpl in H. simplify_eq. by rewrite orb_false_r.
  - cbn [apply_fields] in H.
    destruct (apply_field s d fv) as [d1|e] eqn:H1; [|done].
    rewrite (IH d1 H), (apply_field_null _ _ _ _ H1). simpl.
    by rewrite orb_assoc.
Qed.

(** Only the [parent_id] item can stop the field loop. *)
Lemma apply_field_total s d fv :
  name_of fv ≠ n_parent_id → ∃ d', apply_field s d fv = Ok d'.
Proof. destruct fv; simpl; intros H; try done; eauto. Qed.

Lemma apply_fields_total s d l :
  Forall (fun fv => name_of fv ≠ n_parent_id) l →
  ∃ d', apply_fields s d l = Ok d'.
Proof.
  revert d. induction l as [|fv l IH]; intros d Hl; [by exists d|].
  apply Forall_cons in Hl as [Hfv Hl].
  destruct (apply_field_total s d fv Hfv) as [d1 H1].
  cbn [apply_fields]. rewrite H1. cbn. apply IH, Hl.
Qed.

(** [parent_id] is the last item of [update_data]. *)
Lemma model_dump_parent_last u :
  ∃ pre, model_dump u
         = pre ++ option_list (f_parent_id <$> TaskUpdate.parent_id u)
         ∧ Forall (fun fv => name_of fv ≠ n_parent_id) pre.
Proof.
  unfold model_dump.
  exists (option_list (f_title <$> TaskUpdate.title u)
          ++ option_list (f_description <$> TaskUpdate.description u)
          ++ option_list (f_completed <$> TaskUpdate.completed u)
          ++ option_list (f_archived <$> TaskUpdate.archived u)
          ++ option_list (f_priority <$> TaskUpdate.priority u)
          ++ option_list (f_due_date <$> TaskUpdate.due_date u)
          ++ option_list (f_tags <$> TaskUpdate.tags u)
          ++ option_list (f_metadata <$> TaskUpdate.metadata u)).
  split; [by rewrite <-!app_assoc|].
  rewrite !Forall_app.
  split_and!; by destruct u as [[?|] [?|] [?|] [?|] [?|] [?|] [?|] [?|] ?];
    repeat constructor.
Qed.

Lemma sends_null_model_dump u :
  existsb null_for_not_null (model_dump u) = sends_null u.
Proof.
  unfold model_dump, sends_null. rewrite !existsb_app.
  assert (∀ o, existsb null_for_not_null (option_list (f_title <$> o))
               = bool_decide (o = Some None)) as -> by by intros [[?|]|].
  assert (∀ o, existsb null_for_not_null (option_list (f_completed <$> o))
               = bool_decide (o = Some None)) as -> by by intros [[?|]|].
  assert (∀ o, existsb null_for_not_null (option_list (f_archived <$> o))
               = bool_decide (o = Some None)) as -> by by intros [[?|]|].
  assert (∀ o, existsb null_for_not_null (option_list (f_priority <$> o))
               = bool_decide (o = Some None)) as -> by by intros [[?|]|].
  assert (∀ o, existsb null_for_not_null (option_list (f_description <$> o))
               = false) as -> by by intros [?|].
  assert (∀ o, existsb null_for_not_null (option_list (f_due_date <$> o))
               = false) as -> by by intros [?|].
  assert (∀ o, existsb null_for_not_null (option_list (f_tags <$> o))
               = false) as -> by by intros [?|].
  assert (∀ o, existsb null_for_not_null (option_list (f_metadata <$> o))
               = false) as -> by by intros [?|].
  assert (∀ o, existsb null_for_not_null (option_list (f_parent_id <$> o))
               = false) as -> by by intros [?|].
  by rewrite !orb_false_r, !orb_false_l, !orb_assoc.
Qed.

Lemma apply_fields_singleton s d fv :
  apply_fields s d [fv] = apply_field s d fv.
Proof. cbn [apply_fields]. by destruct (apply_field s d fv). Qed.

(** The field loop on a stored task, with its outcome at the [parent_id]
    item. *)
Lemma apply_fields_model_dump s task u :
  ∃ d0, same_identity (Dirty.task d0) task
    ∧ apply_fields s (Dirty.Build task false) (model_dump u)
      = match TaskUpdate.parent_id u with
        | Some value => apply_field s d0 (f_parent_id value)
        | None => Ok d0
        end.
Proof.
  destruct (model_dump_parent_last u) as (pre & -> & Hpre).
  destruct (apply_fields_total s (Dirty.Build task false) pre Hpre) as [d0 H0].
  exists d0. split; [by apply apply_fields_identity in H0|].
  rewrite apply_fields_app, H0.
  destruct (TaskUpdate.parent_id u) as [value|]; [|done].
  apply apply_fields_singleton.
Qed.

(** With a parent that passes the checks the field loop runs to its end. *)
Lemma apply_fields_accepted s id task u :
  keyed_store s → s !! id = Some task → parent_accepted s id u →
  ∃ d, apply_fields s (Dirty.Build task false) (model_dump u) = Ok d
       ∧ Dirty.null_assigned d = sends_null u.
Proof.
  intros Hk Hid Hpar.
  destruct (apply_fields_model_dump s task u) as (d0 & (Hi & _) & Hd).
  assert (∃ d, apply_fields s (Dirty.Build task false) (model_dump u) = Ok d)
    as [d Hd'].
  { rewrite Hd. destruct (TaskUpdate.parent_id u) as [[p|]|] eqn:Hp; eauto.
    destruct (Hpar p Hp) as [Hin Hne]. simpl.
    rewrite (bool_decide_true _ Hin). rewrite andb_false_r.
    destruct (Py.truthy p); [|eauto]. cbn [andb].
    rewrite bool_decide_false; [eauto|]. rewrite Hi, (Hk _ _ Hid).
    by apply Hne. }
  exists d. split; [done|].
  by rewrite (apply_fields_null _ _ _ _ Hd'), sends_null_model_dump.
Qed.

(** The [parent_id] column after the field loop. *)
Lemma apply_fields_parent_id s task u d :
  apply_fields s (Dirty.Build task false) (model_dump u) = Ok d →
  Dirty.null_assigned d = false →
  TaskDB.parent_id (Dirty.task d)
  = match TaskUpdate.parent_id u with
    | Some value => value
    | None => TaskDB.parent_id task
    end.
Proof.
  intros Hd Hn. destruct (TaskUpdate.parent_id u) as [value|] eqn:Hv.
  - destruct (model_dump_parent_last u) as (pre & Hmd & _).
    rewrite Hmd, Hv in Hd. simpl in Hd.
    pose proof (apply_fields_written s _ pre (f_parent_id value) [] d Hd Hn
                  (Forall_nil_2 _)) as Hw.
    simpl in Hw. by injection Hw.
  - assert (sent n_parent_id u = false) as Hsent.
    { simpl. rewrite Hv. by apply bool_decide_eq_false; intros []. }
    pose proof (apply_fields_other _ _ _ _ n_parent_id Hd
                  (model_dump_not_sent u n_parent_id Hsent)) as Hcol.
    simpl in Hcol. by injection Hcol.
Qed.

Section UpdateOutcomes.

Variable fromisoformat : string → option datetime.

Lemma update_task_no_headers s id task u n1 n2 :
  s !! id = Some task →
  update_task fromisoformat s id u None None n1 n2
  = match apply_fields s (Dirty.Build task false) (model_dump u) with
    | Err e => (s, Err e)
    | Ok d =>
        if Dirty.null_assigned d then (s, Err IntegrityError)
        else
          match db_update s (committed_row task u n1 n2 d) with
          | Ok s' => (s', Ok (db_to_task (committed_row task u n1 n2 d)))
          | Err e => (s, Err e)
          end
    end.
Proof.
  intros Hid. unfold update_task, updated_row. rewrite Hid. cbn.
  by destruct (apply_fields _ _ _).
Qed.

End UpdateOutcomes.
(** ** json.loads after json.dumps *)

Lemma scanstring_escape_char c rest :
  JsonDecoder.scanstring JsonDecoder.Plain (Json.escape_char c +:+ rest)
  = match JsonDecoder.scanstring JsonDecoder.Plain rest with
    | Some (s, rest') => Some (String c s, rest')
    | None => None
    end.
Proof. destruct c as [[] [] [] [] [] [] [] []]; reflexivity. Qed.

Lemma scanstring_escape s rest :
  JsonDecoder.scanstring JsonDecoder.Plain
    (Json.escape s +:+ String Json.quote rest)
  = Some (s, rest).
Proof.
  induction s as [|c s IH]; [done|].
  cbn [Json.escape]. by rewrite append_assoc, scanstring_escape_char, IH.
Qed.

Lemma scanstring_dumps_str s rest :
  Json.dumps_str s +:+ rest
  = String Json.quote (Json.escape s +:+ String Json.quote rest).
Proof.
  unfold Json.dumps_str. by rewrite append_cons, append_assoc, append_cons.
Qed.

Lemma skip_whitespace_space txt :
  JsonDecoder.skip_whitespace (String " " txt) = JsonDecoder.skip_whitespace txt.
Proof. reflexivity. Qed.

Lemma skip_whitespace_stop c txt :
  JsonDecoder.is_whitespace c = false →
  JsonDecoder.skip_whitespace (String c txt) = String c txt.
Proof. intros H. simpl. by rewrite H. Qed.

(** A list that is not empty is written with a quote first. *)
Lemma join_quote x l rest :
  ∃ t, Json.join ", " (Json.dumps_str <$> x :: l) +:+ rest
       = String Json.quote t.
Proof.
  cbn [fmap list_fmap]. destruct l; cbn [Json.join];
    rewrite ?append_assoc, scanstring_dumps_str; eauto.
Qed.

Lemma array_items_join fuel x l rest :
  length l < fuel →
  JsonDecoder.array_items fuel
    (Json.join ", " (Json.dumps_str <$> x :: l) +:+ String "]" rest)
  = Some (x :: l, rest).
Proof.
  revert fuel x. induction l as [|y l IH]; intros [|fuel] x Hf;
    try (simpl in Hf; lia).
  - cbn [fmap list_fmap Json.join]. rewrite scanstring_dumps_str.
    cbn [JsonDecoder.array_items].
    change (nat_of_ascii Json.quote =? 34) with true. cbn match.
    rewrite scanstring_escape. reflexivity.
  - change (Json.join ", " (Json.dumps_str <$> x :: y :: l))
      with (Json.dumps_str x +:+ ", "
            +:+ Json.join ", " (Json.dumps_str <$> y :: l)).
    rewrite !append_assoc, scanstring_dumps_str.
    cbn [JsonDecoder.array_items].
    change (nat_of_ascii Json.quote =? 34) with true. cbn match.
    rewrite scanstring_escape.
    rewrite !append_cons, append_nil_l.
    rewrite (skip_whitespace_stop ",") by done.
    change (nat_of_ascii "," =? 44) with true. cbn match.
    rewrite skip_whitespace_space.
    destruct (join_quote y l (String "]" rest)) as [t Ht].
    rewrite Ht, (skip_whitespace_stop Json.quote) by done. rewrite <-Ht.
    rewrite IH by (simpl in Hf; lia). reflexivity.
Qed.

Lemma length_append s1 s2 :
  String.length (s1 +:+ s2) = String.length s1 + String.length s2.
Proof.
  induction s1 as [|c s1 IH]; [done|]. rewrite append_cons. simpl. by rewrite IH.
Qed.

Lemma length_join l :
  length l ≤ String.length (Json.join ", " (Json.dumps_str <$> l)).
Proof.
  induction l as [|x [|y l] IH]; [done|simpl; lia|].
  change (Json.join ", " (Json.dumps_str <$> x :: y :: l))
    with (Json.dumps_str x +:+ ", "
          +:+ Json.join ", " (Json.dumps_str <$> y :: l)).
  rewrite !length_append. simpl in *. lia.
Qed.

Lemma loads_dumps l : JsonDecoder.loads (Json.dumps l) = Some l.
Proof.
  destruct l as [|x l]; [reflexivity|].
  unfold JsonDecoder.loads, Json.dumps.
  rewrite (append_cons "[" ""), append_nil_l.
  rewrite (skip_whitespace_stop "[") by done.
  change (nat_of_ascii "[" =? 91) with true. cbn match.
  destruct (join_quote x l "]") as [t Ht].
  rewrite Ht, (skip_whitespace_stop Json.quote) by done.
  change (nat_of_ascii Json.quote =? 93) with false. cbn match.
  rewrite <-Ht. rewrite array_items_join; [reflexivity|].
  cbn [String.length]. rewrite length_append.
  pose proof (length_join (x :: l)) as Hl.
  change (length (x :: l)) with (S (length l)) in Hl. lia.
Qed.

Lemma dumps_truthy l : Py.truthy (Json.dumps l) = true.
Proof. reflexivity. Qed.
(** ** get_utc_now *)

(** *** The Z suffix *)

Lemma no_plus_app s1 s2 : no_plus (s1 +:+ s2) = no_plus s1 && no_plus s2.
Proof.
  induction s1 as [|c s1 IH]; [done|]. rewrite append_cons. simpl.
  by rewrite IH, andb_assoc.
Qed.

Lemma mod_10_cases (n : N) :
  (n mod 10 = 0 ∨ n mod 10 = 1 ∨ n mod 10 = 2 ∨ n mod 10 = 3 ∨ n mod 10 = 4
   ∨ n mod 10 = 5 ∨ n mod 10 = 6 ∨ n mod 10 = 7 ∨ n mod 10 = 8
   ∨ n mod 10 = 9)%N.
Proof.
  assert (n mod 10 < 10)%N as H by (apply N.mod_upper_bound; lia).
  revert H. generalize (n mod 10)%N. intros m H.
  destruct m as [|p]; [by left|].
  do 4 (try destruct p as [p|p|]); try lia; auto 20.
Qed.

Lemma no_plus_zero_padded width n : no_plus (zero_padded width n) = true.
Proof.
  revert n. induction width as [|w IH]; intros n; [done|].
  cbn [zero_padded]. rewrite no_plus_app, IH.
  destruct (mod_10_cases n) as [->|[->|[->|[->|[->|[->|[->|[->|[->| ->]]]]]]]]];
    reflexivity.
Qed.

Lemma no_plus_isoformat d :
  no_plus (isoformat_seconds d +:+ isoformat_fraction d) = true.
Proof.
  unfold isoformat_seconds, isoformat_fraction.
  rewrite !no_plus_app, !no_plus_zero_padded.
  destruct (UtcDatetime.microsecond d =? 0)%N; [done|].
  by rewrite no_plus_app, no_plus_zero_padded.
Qed.

Lemma replace_offset body :
  no_plus body = true →
  replace "+00:00" "Z" (body +:+ "+00:00") = body +:+ "Z".
Proof.
  unfold replace. induction body as [|c body IH]; [done|].
  simpl. intros [Hc Hb]%andb_true_iff. apply negb_true_iff in Hc.
  apply bool_decide_eq_false in Hc. rewrite !append_cons.
  cbn [replace_from startswith].
  rewrite (bool_decide_false ("+"%char = c)) by congruence.
  cbn [andb]. by rewrite IH.
Qed.

Lemma utc_offset_Z body : utc_offset (body +:+ "Z") = body +:+ "+00:00".
Proof.
  induction body as [|c body IH]; [done|].
  rewrite !append_cons. rewrite <-IH.
  destruct body; reflexivity.
Qed.

Lemma get_utc_now_Z d :
  get_utc_now d = (isoformat_seconds d +:+ isoformat_fraction d) +:+ "Z".
Proof.
  unfold get_utc_now, isoformat. rewrite <-append_assoc.
  apply replace_offset, no_plus_isoformat.
Qed.

(** *** The order of the strings *)

Lemma length_zero_padded width n : String.length (zero_padded width n) = width.
Proof.
  revert n. induction width as [|w IH]; intros n; [done|].
  cbn [zero_padded]. rewrite length_append, IH. simpl. lia.
Qed.

Lemma then_compare_assoc c1 c2 c3 :
  then_compare (then_compare c1 c2) c3 = then_compare c1 (then_compare c2 c3).
Proof. by destruct c1. Qed.

(** Strings of one length compare before what follows them. *)
Lemma compare_app a b x y :
  String.length a = String.length b →
  String.compare (a +:+ x) (b +:+ y)
  = then_compare (String.compare a b) (String.compare x y).
Proof.
  revert b. induction a as [|c a IH]; intros [|c' b] Hl; try done.
  simpl in Hl. injection Hl as Hl.
  rewrite !append_cons. cbn [String.compare].
  destruct (Ascii.compare c c'); [|done..]. by apply IH.
Qed.

Lemma compare_digit (x y : N) :
  (x < 10)%N → (y < 10)%N →
  String.compare (String (digit x) "") (String (digit y) "") = (x ?= y)%N.
Proof.
  intros Hx Hy. simpl. unfold Ascii.compare, digit.
  rewrite !N_ascii_embedding by lia.
  destruct (N.compare_spec x y), (N.compare_spec (48 + x) (48 + y));
    try done; lia.
Qed.

Lemma compare_div_mod (a b : N) :
  (a ?= b)%N
  = then_compare (a / 10 ?= b / 10)%N (a mod 10 ?= b mod 10)%N.
Proof.
  assert (a = 10 * (a / 10) + a mod 10)%N as Ha by (apply N.div_mod; lia).
  assert (b = 10 * (b / 10) + b mod 10)%N as Hb by (apply N.div_mod; lia).
  assert (a mod 10 < 10)%N as Ha' by (apply N.mod_upper_bound; lia).
  assert (b mod 10 < 10)%N as Hb' by (apply N.mod_upper_bound; lia).
  revert Ha Hb Ha' Hb'.
  generalize (a / 10)%N (a mod 10)%N (b / 10)%N (b mod 10)%N.
  intros qa ra qb rb -> -> Ha Hb.
  destruct (N.compare_spec qa qb); simpl;
    [destruct (N.compare_spec ra rb)|..];
    destruct (N.compare_spec (10 * qa + ra) (10 * qb + rb)); try done; lia.
Qed.

Lemma compare_zero_padded width (a b : N) :
  (a < 10 ^ N.of_nat width)%N → (b < 10 ^ N.of_nat width)%N →
  String.compare (zero_padded width a) (zero_padded width b) = (a ?= b)%N.
Proof.
  revert a b. induction width as [|w IH]; intros a b Ha Hb.
  - simpl in *. assert (a = 0%N) as -> by lia. by assert (b = 0%N) as -> by lia.
  - rewrite Nat2N.inj_succ, N.pow_succ_r' in Ha, Hb.
    cbn [zero_padded]. rewrite compare_app by by rewrite !length_zero_padded.
    rewrite IH by (apply N.Div0.div_lt_upper_bound; lia).
    rewrite compare_digit by (apply N.mod_upper_bound; lia).
    by rewrite <-compare_div_mod.
Qed.

Lemma compare_char_app c x y :
  String.compare (String c x) (String c y) = String.compare x y.
Proof.
  simpl. unfold Ascii.compare. by rewrite N.compare_refl.
Qed.

Lemma compare_isoformat_seconds a b x y :
  in_range a → in_range b →
  String.compare (isoformat_seconds a +:+ x) (isoformat_seconds b +:+ y)
  = then_compare (compare_seconds a b) (String.compare x y).
Proof.
  intros (?&?&?&?&?&?&?) (?&?&?&?&?&?&?).
  unfold isoformat_seconds, compare_seconds.
  rewrite !append_assoc.
  repeat (rewrite compare_app by (by rewrite !length_zero_padded);
          rewrite compare_zero_padded by (simpl; lia);
          rewrite ?append_cons, ?append_nil_l, ?compare_char_app).
  by rewrite !then_compare_assoc.
Qed.

Lemma length_isoformat_seconds d : String.length (isoformat_seconds d) = 19.
Proof.
  unfold isoformat_seconds. by rewrite !length_append, !length_zero_padded.
Qed.

Lemma compare_get_utc_now a b :
  in_range a → in_range b →
  String.compare (get_utc_now a) (get_utc_now b)
  = then_compare (compare_seconds a b)
      (String.compare (isoformat_fraction a +:+ "Z")
         (isoformat_fraction b +:+ "Z")).
Proof.
  intros Ha Hb. rewrite !get_utc_now_Z, !append_assoc.
  by apply compare_isoformat_seconds.
Qed.
(** * The claims *)

(** ** C1: no task is its own parent

    C1, as the code has it: in every table the handlers can produce from
    the empty one (by create, update, delete and import, in any number and
    order), a row whose [parent_id] is a non-empty string differs from it in
    [id].  Create finds the parent among the existing rows and inserts
    under a new key; update rejects a truthy [parent_id] equal to the id;
    import orders its batch only when no record names itself through a
    truthy id, the recursion never returning otherwise. *)
Theorem reachable_no_self_parent fromisoformat s :
  reachable fromisoformat s → no_self_parent s.
Proof. intros H. by apply reachable_invariants in H as (_ & ? & _). Qed.

(** The table an import of a child and its parent leaves is reachable. *)
Lemma reachable_no_self_parent_witness :
  no_self_parent
    (import_tasks ∅ 3 [record "B" (Some "A"); record "A" None] false fail).1.
Proof.
  apply (reachable_no_self_parent no_datetime).
  apply reachable_import, reachable_empty.
Defined.

(** C1 as stated fails: importing the record with the empty id and the
    empty parent id leaves a row that is its own parent. *)
Lemma empty_id_self_parent_counterexample :
  reachable no_datetime
    (import_tasks ∅ 3 [record "" (Some "")] false fail).1
  ∧ ∃ r, (import_tasks ∅ 3 [record "" (Some "")] false fail).1 !! "" = Some r
         ∧ TaskDB.parent_id r = Some (TaskDB.id r).
Proof.
  split; [apply reachable_import, reachable_empty|].
  exists (sample_row "" (Some "")). split; [vm_compute|]; reflexivity.
Qed.

(** ** C2: the tag filter

    The claim's own example holds: of a task tagged Work, Urgent, extra and
    a task tagged work, the filter work, urgent selects the first only. *)
Example tag_filter_spec_example :
  let s : Store :=
    <["t1" := (tagged_row "t1" ["Work"; "Urgent"; "extra"])]>
      {["t2" := (tagged_row "t2" ["work"])]} in
  TaskList.data (list_tasks s (tag_query ["work"; "urgent"]) "2025-11-02")
  = [db_to_task (tagged_row "t1" ["Work"; "Urgent"; "extra"])].
Proof. vm_compute. reflexivity. Qed.

(** C2, where the code departs from it: the filter goes through LIKE on
    the stored JSON text, so an underscore in a filter matches any
    character, and a tag that [json.dumps] escapes is missed by its own
    filter. *)
Lemma tag_filter_wildcard_divergence :
  (* a tag filter with an underscore selects a task that lacks the tag *)
  TaskList.data
    (list_tasks {["t1" := (tagged_row "t1" ["work"])]} (tag_query ["w_rk"])
       "2025-11-02")
  = [db_to_task (tagged_row "t1" ["work"])]
  ∧ tags_present ["w_rk"] (tagged_row "t1" ["work"]) = false
  (* a tag with a backslash is stored escaped and its own filter misses it *)
  ∧ TaskList.data
      (list_tasks {["t1" := (tagged_row "t1" ["R&D\QA"])]} (tag_query ["R&D\QA"])
         "2025-11-02")
    = []
  ∧ tags_present ["R&D\QA"] (tagged_row "t1" ["R&D\QA"]) = true.
Proof. split_and!; vm_compute; reflexivity. Qed.

(** ** C3: export, then import into the emptied table

    C3, as the code has it: when every row's parent chain leads, through
    at most [n] non-empty ids of rows of the table, to a row without
    parent, and the recursion of the import has more than [n] frames,
    importing the export of the table into the empty table gives back the
    table itself, under every conflict policy, and counts every row.  In a
    table without cycle (a forest) the chains have fewer links than the
    table has rows, so as many frames as rows are enough.  The rows are
    keyed and normalised, as they are in every reachable table. *)
Theorem export_import_roundtrip s n depth on_conflict :
  keyed_store s → normal_store s →
  ((∀ k r, s !! k = Some r → rooted_within s n r) → n < depth →
   import_tasks ∅ depth (export_tasks s) false on_conflict
   = (s, Ok (ImportResponse.Build 201 (size s))))
  ∧ (forest s → size s ≤ depth →
     import_tasks ∅ depth (export_tasks s) false on_conflict
     = (s, Ok (ImportResponse.Build 201 (size s)))).
Proof.
  intros Hs Hn. split.
  - intros Hf Hd. apply import_export_ordered; [done|done| |].
    + intros k r Hr. eapply rooted_within_rooted. by eapply Hf.
    + apply (sort_tasks_within n); [|done].
      by apply export_tasks_grounded_within.
  - intros Hf Hd. apply import_export_ordered; [done..|].
    apply sort_tasks_acyclic.
    + by apply acyclic_all_grounded, export_tasks_all_grounded.
    + by rewrite export_tasks_size.
Qed.

(** A parent and its child make the round trip with two frames. *)
Lemma export_import_roundtrip_witness :
  import_tasks ∅ 2 (export_tasks parent_and_child) false fail
  = (parent_and_child, Ok (ImportResponse.Build 201 (size parent_and_child))).
Proof.
  refine (proj1 (export_import_roundtrip parent_and_child 1 2 fail _ _) _ _).
  - intros k r [[-> ->]|[-> ->]]%parent_and_child_lookup; reflexivity.
  - intros k r [[-> ->]|[-> ->]]%parent_and_child_lookup; by split.
  - intros k r [[-> ->]|[-> ->]]%parent_and_child_lookup.
    + eapply (rooted_within_child _ _ _ "A");
        [reflexivity|reflexivity|reflexivity|].
      by apply rooted_within_root.
    + by apply rooted_within_root.
  - lia.
Defined.

(** C3 as stated fails.  The table with two tasks that are each other's
    parent is reachable, and importing its export into the empty table
    ends in [RecursionError] whatever the depth, the table staying empty.
    And a table without cycle fails the round trip when its chains are as
    long as the recursion is deep: in [reversed_chain] the deepest task is
    the oldest, the export lists it before its parent, and two frames are
    not enough for its two ancestors. *)
Lemma roundtrip_counterexample :
  (reachable no_datetime two_cycle
   ∧ is_Some (two_cycle !! "A")
   ∧ ∀ depth on_conflict,
       import_tasks ∅ depth (export_tasks two_cycle) false on_conflict
       = (∅, Err RecursionError))
  ∧ (reachable no_datetime reversed_chain
     ∧ forest reversed_chain
     ∧ size reversed_chain = 3
     ∧ ∀ depth on_conflict, depth ≤ 2 →
         import_tasks ∅ depth (export_tasks reversed_chain) false on_conflict
         = (∅, Err RecursionError)).
Proof.
  split.
  - split; [apply two_cycle_reachable|].
    split; [eexists; vm_compute; reflexivity|].
    intros depth oc. apply import_cyclic_export.
    + by apply (reachable_invariants no_datetime), two_cycle_reachable.
    + eapply (two_cycle_not_all_grounded _ "A" "B").
      * by apply (reachable_invariants no_datetime), two_cycle_reachable.
      * vm_compute. reflexivity.
      * vm_compute. reflexivity.
      * reflexivity.
      * reflexivity.
      * reflexivity.
      * reflexivity.
  - split; [apply reversed_chain_reachable|].
    split.
    { intros k r Hr. eapply rooted_within_rooted.
      by eapply reversed_chain_rooted_within. }
    split; [vm_compute; reflexivity|].
    intros depth oc Hd.
    destruct depth as [|[|[|depth]]]; [..|lia];
      destruct oc; vm_compute; reflexivity.
Qed.

(** ** C4: the processing order puts a parent before its child

    C4, as the code has it.  The import orders the records the conflict
    policy leaves: all of the batch, except under [skip] those whose id is
    stored.  In a batch with distinct ids, let [B]'s [parent_id] be the
    non-empty id of [A], and let the policy leave both.  Then every
    processing order the import computes has [A] before [B]; it computes
    one when every chain of in-batch parent references ends within [n]
    references and the recursion has more than [n] frames, which is so
    when the references form no cycle and the frames are as many as the
    records; and an import that commits has written its rows in such an
    order. *)
Theorem import_order_parent_before_child s depth tasks on_conflict
    (A B : Task.t) :
  NoDup (ids tasks) → A ∈ tasks → B ∈ tasks →
  Task.parent_id B = Some (Task.id A) → Py.truthy (Task.id A) = true →
  (on_conflict = skip → Task.id A ∉ dom s ∧ Task.id B ∉ dom s) →
  (∀ sorted,
     sort_tasks depth (remaining_tasks s on_conflict tasks) = Some sorted →
     before A B sorted)
  ∧ (∀ n,
       Forall (grounded_within
                 (index_by_id (remaining_tasks s on_conflict tasks)) n)
         (remaining_tasks s on_conflict tasks) →
       n < depth →
       ∃ sorted,
         sort_tasks depth (remaining_tasks s on_conflict tasks) = Some sorted
         ∧ before A B sorted)
  ∧ (acyclic (remaining_tasks s on_conflict tasks) →
     length (remaining_tasks s on_conflict tasks) ≤ depth →
     ∃ sorted,
       sort_tasks depth (remaining_tasks s on_conflict tasks) = Some sorted
       ∧ before A B sorted)
  ∧ (∀ s' resp,
       import_tasks s depth tasks false on_conflict = (s', Ok resp) →
       ∃ sorted,
         sort_tasks depth (remaining_tasks s on_conflict tasks) = Some sorted
         ∧ before A B sorted
         ∧ commit s (write_loop s on_conflict (existing_ids s tasks) sorted)
           = Ok s').
Proof.
  intros Hnd HA HB Hp Htr Hskip.
  set (processed := remaining_tasks s on_conflict tasks).
  assert (NoDup (ids processed)) as Hnd' by by apply remaining_tasks_NoDup.
  assert (A ∈ processed) as HA'.
  { apply elem_of_remaining_tasks. split; [done|]. intros [Ho ?].
    by destruct (Hskip Ho). }
  assert (B ∈ processed) as HB'.
  { apply elem_of_remaining_tasks. split; [done|]. intros [Ho ?].
    by destruct (Hskip Ho). }
  assert (∀ sorted, sort_tasks depth processed = Some sorted →
                    before A B sorted) as Hbefore.
  { intros sorted Hs.
    destruct (sort_tasks_Some _ _ _ Hnd' Hs) as [Hperm Hpf].
    assert (B ∈ sorted) as HBs by by rewrite Hperm.
    apply list_elem_of_split in HBs as (l & l3 & ->).
    assert (parent_in_batch (index_by_id processed) B = Some A) as HpB.
    { unfold parent_in_batch. rewrite Hp, Htr. by apply index_by_id_indexed. }
    pose proof (Hpf l B l3 A eq_refl HpB) as HAl.
    apply list_elem_of_split in HAl as (l1 & l2 & ->).
    exists l1, l2, l3. by rewrite <- app_assoc. }
  split_and!.
  - done.
  - intros n Hg Hd.
    destruct (sort_tasks_within n depth processed Hg Hd) as [sorted Hs].
    exists sorted. auto.
  - intros Hac Hd.
    destruct (sort_tasks_acyclic depth processed Hac Hd) as [sorted Hs].
    exists sorted. auto.
  - intros s' resp H.
    apply import_tasks_committed in H as (_ & sorted & Hs & Hc & _).
    exists sorted. auto.
Qed.

(** The batch of the claim, imported into the empty table with two
    frames: B submitted before its parent A. *)
Lemma import_order_witness :
  ∃ sorted,
    sort_tasks 2
      (remaining_tasks ∅ fail [record "B" (Some "A"); record "A" None])
    = Some sorted
    ∧ before (record "A" None) (record "B" (Some "A")) sorted.
Proof.
  refine (proj1 (proj2 (import_order_parent_before_child ∅ 2
                   [record "B" (Some "A"); record "A" None] fail
                   (record "A" None) (record "B" (Some "A")) _ _ _ _ _ _))
            1 _ _).
  - apply NoDup_cons.
    split; [by intros [=]%list_elem_of_singleton|apply NoDup_singleton].
  - set_solver.
  - set_solver.
  - reflexivity.
  - reflexivity.
  - intros [=].
  - apply Forall_cons. split; [|apply Forall_cons; split; [|constructor]].
    + eapply grounded_within_step; [reflexivity|].
      by apply grounded_within_root.
    + by apply grounded_within_root.
  - lia.
Defined.

(** The order computed for it, and the rows the import sends. *)
Example import_order_example :
  sort_tasks 2 (remaining_tasks ∅ fail [record "B" (Some "A"); record "A" None])
  = Some [record "A" None; record "B" (Some "A")]
  ∧ Pending.inserts
      (write_loop ∅ fail
         (existing_ids ∅ [record "B" (Some "A"); record "A" None])
         [record "A" None; record "B" (Some "A")])
    = [sample_row "A" None; sample_row "B" (Some "A")].
Proof. split; vm_compute; reflexivity. Qed.

(** C4 as stated fails.  When [B] refers to the record with the empty id,
    the order keeps [B] first; and under [skip], with [A] stored, the
    order the import computes for the batch of the claim holds [B] only. *)
Lemma import_order_counterexample :
  (Task.parent_id (record "B" (Some "")) = Some (Task.id (record "" None))
   ∧ sort_tasks 3
       (remaining_tasks ∅ fail [record "B" (Some ""); record "" None])
     = Some [record "B" (Some ""); record "" None]
   ∧ ¬ before (record "" None) (record "B" (Some ""))
         [record "B" (Some ""); record "" None])
  ∧ (sort_tasks 3
       (remaining_tasks {["A" := sample_row "A" None]} skip
          [record "B" (Some "A"); record "A" None])
     = Some [record "B" (Some "A")]
     ∧ ¬ before (record "A" None) (record "B" (Some "A"))
           [record "B" (Some "A")]
     ∧ import_tasks {["A" := sample_row "A" None]} 3
         [record "B" (Some "A"); record "A" None] false skip
       = (parent_and_child, Ok (ImportResponse.Build 201 1))).
Proof.
  split.
  - split_and!; [reflexivity|vm_compute; reflexivity|].
    intros (l1 & l2 & l3 & E).
    destruct l1 as [|x [|y l1]]; [done| |].
    + injection E as _ E. by destruct l2.
    + injection E as _ _ E. by destruct l1.
  - split_and!; [vm_compute; reflexivity| |].
    + intros (l1 & l2 & l3 & E).
      destruct l1 as [|x l1].
      * injection E as _ E. by destruct l2.
      * injection E as _ E. by destruct l1.
    + rewrite import_tasks_run. vm_compute. reflexivity.
Qed.

(** ** C5: completion_date follows the change of completed

    C5: an update that succeeds on a stored task leaves, under the task's
    id, the row it answers with, and in that row [completion_date] is the
    first clock reading when the payload sets [completed] to true on a task
    that was not completed, NULL when it sets it to false on a completed
    task, and untouched when the payload does not mention [completed]. *)
Theorem update_derives_completion_date fromisoformat s id task u ius im n1 n2 resp :
  s !! id = Some task → TaskDB.id task = id →
  (update_task fromisoformat s id u ius im n1 n2).2 = Ok resp →
  ∃ row,
    (update_task fromisoformat s id u ius im n1 n2).1 !! id = Some row
    ∧ resp = db_to_task row
    ∧ (TaskUpdate.completed u = Some (Some true) →
       TaskDB.completed task = false →
       TaskDB.completion_date row = Some n1)
    ∧ (TaskUpdate.completed u = Some (Some false) →
       TaskDB.completed task = true →
       TaskDB.completion_date row = None)
    ∧ (TaskUpdate.completed u = None →
       TaskDB.completion_date row = TaskDB.completion_date task).
Proof.
  intros Ht Hid H.
  destruct (update_task fromisoformat s id u ius im n1 n2) as [s' r] eqn:Hu.
  simpl in H. subst r.
  destruct (update_task_Ok _ _ _ _ _ _ _ _ _ _ _ Ht Hu)
    as (d & _ & _ & Hd & Hn & -> & ->).
  exists (committed_row task u n1 n2 d). rewrite Hid. cbn [fst].
  rewrite lookup_insert_eq. split; [done|]. split; [done|].
  rewrite (committed_row_completion_date _ _ _ _ _ _ Hd Hn).
  split_and!.
  - by intros -> ->.
  - by intros -> ->.
  - by intros ->.
Qed.

(** Completing the task of [one_task] stamps it with the first clock
    reading. *)
Lemma update_derives_completion_date_witness :
  ∃ row,
    (update_task no_datetime one_task "t1" (set_completed true) None None
       "2025-11-02T10:00:00Z" "2025-11-02T10:00:01Z").1 !! "t1" = Some row
    ∧ TaskDB.completion_date row = Some "2025-11-02T10:00:00Z".
Proof.
  destruct (update_derives_completion_date no_datetime one_task "t1"
              (sample_row "t1" None) (set_completed true) None None
              "2025-11-02T10:00:00Z" "2025-11-02T10:00:01Z"
              (db_to_task
                 (TaskDB.with_updated_at "2025-11-02T10:00:01Z"
                    (TaskDB.with_completion_date (Some "2025-11-02T10:00:00Z")
                       (TaskDB.with_completed true (sample_row "t1" None))))))
    as (row & Hrow & _ & Hset & _).
  - reflexivity.
  - reflexivity.
  - vm_compute. reflexivity.
  - exists row. split; [exact Hrow|]. apply Hset; reflexivity.
Defined.


(** ** C6: validate_only

    C6, as the code has it.  A [validate_only] run never changes the
    table, and its answer does not depend on whether the batch can be
    written: it is [ValidationError] when an id occurs twice; else
    [Conflict] with the stored ids of the batch when the policy is [fail]
    and some id of the batch is stored; else 200 with the number of
    records the policy keeps (all of them, except under [skip] those whose
    id is stored).  Whenever the run that commits succeeds, that number is
    the number of records it wrote; and an error of the dry run is the
    error of the committing run. *)
Theorem validate_only_is_a_dry_run s depth tasks on_conflict :
  (import_tasks s depth tasks true on_conflict).1 = s
  ∧ (¬ NoDup (ids tasks) →
     import_tasks s depth tasks true on_conflict
     = (s, Err (ValidationError "Duplicate IDs in import payload")))
  ∧ (NoDup (ids tasks) → on_conflict = fail →
     (∃ t, t ∈ tasks ∧ Task.id t ∈ dom s) →
     import_tasks s depth tasks true on_conflict
     = (s, Err (Conflict (existing_ids s tasks))))
  ∧ (NoDup (ids tasks) →
     (on_conflict = fail → ∀ t, t ∈ tasks → Task.id t ∉ dom s) →
     import_tasks s depth tasks true on_conflict
     = (s, Ok (ImportResponse.Build 200
                 (length (filter (kept s on_conflict) tasks)))))
  ∧ (∀ s' resp,
       import_tasks s depth tasks false on_conflict = (s', Ok resp) →
       import_tasks s depth tasks true on_conflict
       = (s, Ok (ImportResponse.Build 200 (ImportResponse.imported_count resp))))
  ∧ (∀ e, (import_tasks s depth tasks true on_conflict).2 = Err e →
       import_tasks s depth tasks false on_conflict = (s, Err e)).
Proof.
  split_and!.
  - rewrite import_tasks_validate_only. by repeat case_match.
  - intros Hdup. rewrite import_tasks_validate_only.
    by rewrite bool_decide_eq_true_2.
  - intros Hnd -> (t & Ht & Hd). rewrite import_tasks_validate_only.
    rewrite bool_decide_eq_false_2 by (by intros []).
    rewrite bool_decide_eq_true_2; [by rewrite bool_decide_eq_true_2|].
    intros He. by apply (proj1 (existing_ids_nil s tasks) He t Ht).
  - intros Hnd Hfail. rewrite import_tasks_validate_only.
    rewrite bool_decide_eq_false_2 by (by intros []).
    rewrite remaining_tasks_kept.
    destruct (decide (on_conflict = fail)) as [Ho|Ho].
    + rewrite (bool_decide_eq_false_2 (existing_ids s tasks ≠ [])); [done|].
      intros He. apply He. apply existing_ids_nil. by apply Hfail.
    + rewrite (bool_decide_eq_false_2 (on_conflict = fail)) by done.
      by rewrite andb_false_r.
  - intros s' resp H. pose proof H as H'.
    apply import_tasks_committed in H as (Hnd & sorted & Hs & Hc & ->).
    rewrite import_tasks_validate_only.
    rewrite bool_decide_eq_false_2 by (by intros []).
    rewrite import_tasks_run in H'.
    rewrite bool_decide_eq_false_2 in H' by (by intros []).
    destruct (bool_decide (existing_ids s tasks ≠ [])
              && bool_decide (on_conflict = fail)); [done|].
    simpl. do 3 f_equal.
    rewrite write_loop_count.
    + symmetry. apply Permutation_length.
      by apply (sort_tasks_Some depth); [apply remaining_tasks_NoDup|].
    + intros t _ [Hin _]%elem_of_existing_ids. by apply elem_of_dom.
  - rewrite import_tasks_validate_only, import_tasks_run.
    case_bool_decide; [by intros e [= <-]|].
    destruct (_ && _); [by intros e [= <-]|done].
Qed.

(** Under [skip], with one id of two already stored, the dry run counts
    the one record the real run writes. *)
Lemma validate_only_witness :
  import_tasks one_task 3 [record "t1" None; record "t2" (Some "t1")] true skip
  = (one_task, Ok (ImportResponse.Build 200 1)).
Proof.
  apply (proj1 (proj2 (proj2 (proj2 (proj2
           (validate_only_is_a_dry_run one_task 3
              [record "t1" None; record "t2" (Some "t1")] skip)))))
           (<["t2" := sample_row "t2" (Some "t1")]> one_task)
           (ImportResponse.Build 201 1)).
  vm_compute. reflexivity.
Defined.

(** C6 as stated fails: for the record that is its own parent the dry run
    answers 1, and the run that commits writes nothing, whatever the
    depth; for a child whose parent is neither stored nor in the batch the
    dry run answers 1, and the run that commits is refused by the foreign
    key. *)
Lemma validate_only_counterexample :
  (import_tasks ∅ 3 [record "A" (Some "A")] true fail
   = (∅, Ok (ImportResponse.Build 200 1))
   ∧ ∀ depth,
       import_tasks ∅ depth [record "A" (Some "A")] false fail
       = (∅, Err RecursionError))
  ∧ (import_tasks ∅ 3 [record "B" (Some "A")] true fail
     = (∅, Ok (ImportResponse.Build 200 1))
     ∧ import_tasks ∅ 3 [record "B" (Some "A")] false fail
       = (∅, Err IntegrityError)).
Proof.
  split; [|split; vm_compute; reflexivity].
  split; [reflexivity|]. intros depth.
  rewrite import_tasks_run.
  rewrite bool_decide_eq_false_2 by (intros []; apply NoDup_singleton).
  unfold remaining_tasks. rewrite existing_ids_empty. simpl.
  destruct (sort_tasks depth [record "A" (Some "A")]) as [sorted|] eqn:Hs; [|done].
  exfalso. apply sort_tasks_all_grounded in Hs.
  - apply Forall_cons in Hs as [Hg _]. revert Hg.
    by apply self_parent_not_grounded.
  - apply NoDup_singleton.
Qed.

(** ** C7: the If-Match precondition

    C7, as the code has it: with [If-Match] equal to the quoted stored
    [updated_at] the update does what it does without the header; with any
    other non-empty value it fails and leaves the table as it was, with
    [PreconditionFailed] for the ETag unless the [If-Unmodified-Since]
    check failed before it. *)
Theorem if_match_precondition fromisoformat s id task u ius n1 n2 :
  s !! id = Some task →
  update_task fromisoformat s id u ius (Some (calculate_etag task)) n1 n2
  = update_task fromisoformat s id u ius None n1 n2
  ∧ ∀ v, v ≠ calculate_etag task → Py.truthy v = true →
      ∃ e, update_task fromisoformat s id u ius (Some v) n1 n2 = (s, Err e)
           ∧ (check_if_unmodified_since fromisoformat task ius = Ok () →
              e = PreconditionFailed "ETag does not match current resource").
Proof.
  intros Ht. split.
  - unfold update_task, updated_row. rewrite Ht.
    by rewrite check_if_match_current.
  - intros v Hv Htr. unfold update_task, updated_row. rewrite Ht.
    rewrite (check_if_match_other _ _ Hv Htr).
    destruct (check_if_unmodified_since _ _ _) as [[]|e]; simpl; eauto.
    exists e. split; [done|]. intros [=].
Qed.

(** On [one_task]: the current ETag changes nothing, a wrong one is
    refused. *)
Lemma if_match_precondition_witness :
  update_task no_datetime one_task "t1" (set_title "Updated") None
    (Some (calculate_etag (sample_row "t1" None)))
    "2025-11-02T10:00:00Z" "2025-11-02T10:00:01Z"
  = update_task no_datetime one_task "t1" (set_title "Updated") None None
      "2025-11-02T10:00:00Z" "2025-11-02T10:00:01Z"
  ∧ ∃ e, update_task no_datetime one_task "t1" (set_title "Updated") None
           (Some "wrong-etag") "2025-11-02T10:00:00Z" "2025-11-02T10:00:01Z"
         = (one_task, Err e)
         ∧ e = PreconditionFailed "ETag does not match current resource".
Proof.
  destruct (if_match_precondition no_datetime one_task "t1"
              (sample_row "t1" None) (set_title "Updated") None
              "2025-11-02T10:00:00Z" "2025-11-02T10:00:01Z") as [Hsame Hother].
  - reflexivity.
  - split; [exact Hsame|].
    destruct (Hother "wrong-etag") as (e & He & Hpf).
    + intros [=].
    + reflexivity.
    + exists e. split; [exact He|]. apply Hpf. reflexivity.
Defined.

(** C7 as stated fails: the empty [If-Match] value is not the ETag, and
    the update goes through. *)
Lemma if_match_empty_counterexample :
  Some "" ≠ Some (calculate_etag (sample_row "t1" None))
  ∧ (update_task no_datetime one_task "t1" (set_title "Updated") None (Some "")
       "2025-11-02T10:00:00Z" "2025-11-02T10:00:01Z").2
    = Ok (db_to_task
            (TaskDB.with_updated_at "2025-11-02T10:00:01Z"
               (TaskDB.with_title "Updated" (sample_row "t1" None))))
  ∧ (update_task no_datetime one_task "t1" (set_title "Updated") None (Some "")
       "2025-11-02T10:00:00Z" "2025-11-02T10:00:01Z").1 !! "t1"
    = Some (TaskDB.with_updated_at "2025-11-02T10:00:01Z"
              (TaskDB.with_title "Updated" (sample_row "t1" None))).
Proof. split_and!; [by intros [=]|vm_compute; reflexivity..]. Qed.

(** The spec's first half on an example: with the current ETag a valid
    update succeeds. *)
Example if_match_current_succeeds :
  (update_task no_datetime one_task "t1" (set_title "Updated") None
     (Some (calculate_etag (sample_row "t1" None)))
     "2025-11-02T10:00:00Z" "2025-11-02T10:00:01Z").2
  = Ok (db_to_task
          (TaskDB.with_updated_at "2025-11-02T10:00:01Z"
             (TaskDB.with_title "Updated" (sample_row "t1" None)))).
Proof. vm_compute. reflexivity. Qed.

(** ** C8: duplicate ids in a batch

    C8: a batch in which some id occurs twice is rejected with
    [ValidationError], whatever the conflict policy and the
    [validate_only] flag, and the table stays as it was. *)
Theorem import_rejects_duplicate_ids s depth (tasks : list Task.t) validate_only on_conflict :
  ¬ NoDup (Task.id <$> tasks) →
  import_tasks s depth tasks validate_only on_conflict
  = (s, Err (ValidationError "Duplicate IDs in import payload")).
Proof.
  intros Hdup. unfold import_tasks.
  rewrite bool_decide_eq_true_2; [done|].
  by rewrite length_size_NoDup.
Qed.

(** The batch of the test: the same id twice. *)
Lemma import_rejects_duplicate_ids_witness :
  import_tasks one_task 3 [record "dup" None; record "dup" None] false upsert
  = (one_task, Err (ValidationError "Duplicate IDs in import payload")).
Proof.
  apply (import_rejects_duplicate_ids one_task 3
           [record "dup" None; record "dup" None] false upsert).
  intros [Hin _]%NoDup_cons. apply Hin. by left.
Defined.

(** ** C9: the default listing

    C9: without a [parent_id] filter, the rows the query selects are
    exactly the root rows of the table that pass the other filters; [total]
    counts them; every task of the page is one of them; and the page is all
    of them when it starts at 0 and the limit is not below their number. *)
Theorem default_listing_is_root_only s q now :
  ListQuery.parent_id q = None →
  selected_rows s q now ≡ₚ filter (root_and_filtered q now) (table_rows s)
  ∧ TaskList.total (list_tasks s q now)
    = length (filter (root_and_filtered q now) (table_rows s))
  ∧ (∀ t, t ∈ TaskList.data (list_tasks s q now) →
       Task.parent_id t = None
       ∧ ∃ k r, s !! k = Some r ∧ t = db_to_task r
                ∧ other_filters q now r = true)
  ∧ (ListQuery.offset q = 0 →
     TaskList.total (list_tasks s q now) ≤ ListQuery.limit q →
     TaskList.data (list_tasks s q now)
     ≡ₚ db_to_task <$> filter (root_and_filtered q now) (table_rows s)).
Proof.
  intros Hq. pose proof (selected_rows_default s q now Hq) as Hsel.
  split_and!.
  - done.
  - unfold list_tasks. simpl. by rewrite Hsel.
  - unfold list_tasks. simpl. intros t (r & -> & Hr)%list_elem_of_fmap.
    eapply elem_of_sublist in Hr; [|apply sublist_take_drop].
    rewrite Hsel in Hr. apply list_elem_of_filter in Hr as [[Hroot Hf] Hr].
    apply elem_of_table_rows in Hr as [k Hk]. split; [done|]. eauto.
  - unfold list_tasks. simpl. intros -> Hle.
    rewrite drop_0, take_ge by done. by rewrite Hsel.
Qed.

(** The default listing of a parent and its child. *)
Lemma default_listing_witness :
  TaskList.data
    (list_tasks parent_and_child ListQuery.default "2025-11-02T00:00:00Z")
  ≡ₚ db_to_task
     <$> filter (root_and_filtered ListQuery.default "2025-11-02T00:00:00Z")
           (table_rows parent_and_child).
Proof.
  apply (default_listing_is_root_only parent_and_child ListQuery.default
           "2025-11-02T00:00:00Z" eq_refl).
  - reflexivity.
  - vm_compute. lia.
Defined.

(** It holds the parent only. *)
Example default_listing_example :
  TaskList.data
    (list_tasks parent_and_child ListQuery.default "2025-11-02T00:00:00Z")
  = [db_to_task (sample_row "A" None)].
Proof. vm_compute. reflexivity. Qed.


(** ** C10: when the reordering returns

    C10, as the code has it, on a batch with distinct ids (the only ones
    the reordering runs on), a reference being what the recursion follows:
    a non-empty [parent_id] that is an id of the batch.  When every chain
    of references ends within [n] of them and the recursion has more than
    [n] frames, it returns a permutation of the batch that holds no record
    twice.  In a batch without cycle every chain ends within fewer
    references than the batch has records.  On a batch with a cycle the
    recursion runs out of frames however many it has; and so it does on
    any batch whose first record has as many references above it as there
    are frames. *)
Theorem reordering_terminates (batch : list Task.t) :
  NoDup (ids batch) →
  (∀ n depth,
     Forall (grounded_within (index_by_id batch) n) batch → n < depth →
     ∃ sorted, sort_tasks depth batch = Some sorted
               ∧ sorted ≡ₚ batch ∧ NoDup sorted)
  ∧ (acyclic batch →
     Forall (grounded_within (index_by_id batch) (length batch - 1)) batch)
  ∧ (¬ acyclic batch → ∀ depth, sort_tasks depth batch = None)
  ∧ (∀ depth t rest,
       batch = t :: rest → chain_of (index_by_id batch) depth t →
       sort_tasks depth batch = None).
Proof.
  intros Hnd. split_and!.
  - intros n depth Hg Hd.
    destruct (sort_tasks_within n depth batch Hg Hd) as [sorted Hs].
    exists sorted. destruct (sort_tasks_Some _ _ _ Hnd Hs) as [Hperm _].
    split_and!; [done..|]. rewrite Hperm. by apply NoDup_ids.
  - apply acyclic_grounded_within.
  - intros Hcyc depth. by apply sort_tasks_cyclic.
  - intros depth t rest -> Hc. by apply sort_tasks_chain.
Qed.

(** The batch of C4 is ordered with two frames. *)
Lemma reordering_witness :
  ∃ sorted, sort_tasks 2 [record "B" (Some "A"); record "A" None] = Some sorted
            ∧ sorted ≡ₚ [record "B" (Some "A"); record "A" None] ∧ NoDup sorted.
Proof.
  refine (proj1 (reordering_terminates
                   [record "B" (Some "A"); record "A" None] _) 1 2 _ _).
  - apply NoDup_cons.
    split; [by intros [=]%list_elem_of_singleton|apply NoDup_singleton].
  - apply Forall_cons. split; [|apply Forall_cons; split; [|constructor]].
    + eapply grounded_within_step; [reflexivity|].
      by apply grounded_within_root.
    + by apply grounded_within_root.
  - lia.
Defined.

(** C10 as stated fails, in both directions.  Without cycle the recursion
    need not return: the chain of [depth + 1] records, submitted from its
    deepest record, has distinct ids and no cycle, and the recursion runs
    out of its [depth] frames, while one frame more is enough.  And a
    cycle need not stop it: the record with the empty id that names itself
    as parent is ordered with one frame, the empty [parent_id] not being
    followed. *)
Lemma reordering_counterexample :
  (∀ depth,
     NoDup (ids (chain_batch depth)) ∧ acyclic (chain_batch depth)
     ∧ length (chain_batch depth) = S depth
     ∧ sort_tasks depth (chain_batch depth) = None
     ∧ is_Some (sort_tasks (S depth) (chain_batch depth)))
  ∧ (Task.parent_id (record "" (Some "")) = Some (Task.id (record "" (Some "")))
     ∧ ∀ depth, 0 < depth →
         sort_tasks depth [record "" (Some "")] = Some [record "" (Some "")]).
Proof.
  split.
  - intros depth. split_and!.
    + apply chain_batch_NoDup.
    + apply chain_batch_acyclic.
    + induction depth as [|depth IH]; [done|]. simpl in *. by rewrite IH.
    + apply sort_tasks_chain_batch.
    + apply sort_tasks_chain_batch_Some.
  - split; [reflexivity|]. intros [|depth] Hd; [lia|]. reflexivity.
Qed.

(** Two records that are each other's parent: no depth is enough. *)
Example reordering_cycle_example depth :
  sort_tasks depth [record "A" (Some "B"); record "B" (Some "A")] = None.
Proof.
  apply sort_tasks_cyclic.
  - apply NoDup_cons.
    split; [by intros [=]%list_elem_of_singleton|apply NoDup_singleton].
  - intros Hac. apply (Hac (record "A" (Some "B"))); [by left|].
    eapply reaches_step; [reflexivity|]. by apply reaches_parent.
Qed.

(** * Further properties of the handlers *)

(** ** Referential integrity *)

(** X1: in every table the handlers can produce from the empty one, every
    [parent_id] that is not NULL is the id of a stored task.  Create,
    update and import are held to it by the foreign key, which the engine
    checks statement by statement; delete keeps it because the cascade
    takes every descendant with the deleted task, or fails and takes
    nothing. *)
Theorem reachable_referential_integrity fromisoformat s :
  reachable fromisoformat s → referential_integrity s.
Proof.
  intros H. assert (keyed_store s ∧ referential_integrity s) as [_ ?]; [|done].
  induction H as [|s uuid now inp _ [Hk IH]|s id u ius im n1 n2 _ [Hk IH]
                  |s trigger_depth id _ [Hk IH]|s depth tasks vo oc _ [Hk IH]].
  - split; intros k r; [intros Hr|intros p Hr]; by rewrite lookup_empty in Hr.
  - split; [by apply create_keyed|by apply create_referential_integrity].
  - split; [by apply update_keyed|by apply update_referential_integrity].
  - split; [|by apply delete_referential_integrity].
    intros k r Hr. apply delete_task_lookup in Hr. by apply Hk.
  - split; [by apply import_keyed|by apply import_referential_integrity].
Qed.

(** Deleting the parent of an imported pair leaves no orphan. *)
Lemma reachable_referential_integrity_witness :
  referential_integrity
    (delete_task
       (import_tasks ∅ 3 [record "B" (Some "A"); record "A" None] false fail).1
       1000 "A").1.
Proof.
  apply (reachable_referential_integrity no_datetime).
  apply reachable_delete, reachable_import, reachable_empty.
Defined.

(** ** delete_task *)

Lemma parent_and_child_keyed : keyed_store parent_and_child.
Proof. intros k r [[-> ->]|[-> ->]]%parent_and_child_lookup; reflexivity. Qed.

(** X2: [delete_task] on a stored task, [trigger_depth] being the number
    of nested trigger levels the engine grants to the cascade (1000 unless
    configured otherwise).  The tasks that descend from the deleted one
    through [parent_id], the task itself included, are those some number
    of generations below it.  When all of them are fewer than
    [trigger_depth] generations below it, the delete succeeds, removes
    exactly them and leaves every other task as it was; [get_task] on a
    removed id answers 404, and so does a second [delete_task].  When some
    task is [trigger_depth] generations below it or more, the delete fails
    with [OperationalError] and removes nothing. *)
Theorem delete_task_removes_descendants s trigger_depth id task :
  keyed_store s → s !! id = Some task →
  (∀ k, descends s id k ↔ ∃ n, level s id n k)
  ∧ ((∀ n k, level s id n k → n < trigger_depth) →
     (delete_task s trigger_depth id).2 = Ok ()
     ∧ (∀ k, descends s id k →
             (delete_task s trigger_depth id).1 !! k = None
             ∧ get_task (delete_task s trigger_depth id).1 k = Err NotFound)
     ∧ (∀ k, ¬ descends s id k →
             (delete_task s trigger_depth id).1 !! k = s !! k)
     ∧ delete_task (delete_task s trigger_depth id).1 trigger_depth id
       = ((delete_task s trigger_depth id).1, Err NotFound))
  ∧ ((∃ n k, level s id n k ∧ trigger_depth ≤ n) →
     delete_task s trigger_depth id = (s, Err OperationalError)).
Proof.
  intros Hk Hid. split_and!.
  - intros k. split; [apply descends_level|].
    intros [n Hl]. by eapply level_descends.
  - intros Hlev.
    assert (∀ k, descends s id k →
                 (delete_task s trigger_depth id).1 !! k = None) as Hgone.
    { intros k Hd.
      rewrite (delete_task_lookup_descends s _ id task k Hk Hid Hlev).
      apply (elem_of_cascade_descends s trigger_depth id k Hlev) in Hd.
      by rewrite decide_True. }
    split_and!.
    + by rewrite (delete_task_within s _ id task Hk Hid Hlev).
    + intros k Hd. split; [by apply Hgone|].
      unfold get_task. by rewrite (Hgone k Hd).
    + intros k Hd.
      rewrite (delete_task_lookup_descends s _ id task k Hk Hid Hlev).
      rewrite decide_False; [done|].
      by rewrite (elem_of_cascade_descends s trigger_depth id k Hlev).
    + unfold delete_task at 1. by rewrite (Hgone id (descends_self s id)).
  - by apply (delete_task_beyond s trigger_depth id task).
Qed.

(** Deleting the parent takes the child with it. *)
Lemma delete_task_removes_descendants_witness :
  (delete_task parent_and_child 1000 "A").1 !! "B" = None.
Proof.
  refine (proj1 (proj1 (proj2 (proj1 (proj2
            (delete_task_removes_descendants parent_and_child 1000 "A"
               (sample_row "A" None) parent_and_child_keyed eq_refl)) _))
            "B" _)).
  - intros n k Hl.
    assert (n ≤ 1); [|lia].
    inversion Hl as [|n' ? r p Hne Hr Hp Hl']; [lia|]. subst.
    inversion Hl' as [|? ? r' p' Hne' Hr' Hp' _]; [lia|]. subst.
    apply parent_and_child_lookup in Hr as [[-> ->]|[-> ->]]; [|done].
    injection Hp as <-. done.
  - apply (descends_child _ _ "B" (sample_row "B" (Some "A")) "A");
      [reflexivity|reflexivity|apply descends_self].
Defined.

(** With two levels granted, the root of a chain of three cannot be
    deleted, and its child can. *)
Example delete_task_depth_example :
  delete_task reversed_chain 2 "A" = (reversed_chain, Err OperationalError)
  ∧ (delete_task reversed_chain 2 "B").2 = Ok ()
  ∧ dom (delete_task reversed_chain 2 "B").1 = {["A"]}.
Proof. split_and!; vm_compute; reflexivity. Qed.

(** ** create_task and get_task *)

(** X3: with a new id and a parent that is absent or stored, [create_task]
    succeeds; [get_task] on the new id then returns the very task of the
    response, with the creation time between quotes as ETag; the task
    carries the payload's fields, the defaults for those left out, its
    tags trimmed, both timestamps equal to the creation time and a
    completion date exactly when it is created completed; no other task
    changes. *)
Theorem create_then_get s uuid now task_input :
  uuid ∉ dom s →
  (∀ p, TaskInput.parent_id task_input = Some p → p ∈ dom s) →
  ∃ t, (create_task s uuid now task_input).2 = Ok t
       ∧ get_task (create_task s uuid now task_input).1 uuid
         = Ok (t, String Json.quote (now +:+ String Json.quote EmptyString))
       ∧ Task.id t = uuid
       ∧ Task.title t = TaskInput.title task_input
       ∧ Task.description t = TaskInput.description task_input
       ∧ Task.completed t = default false (TaskInput.completed task_input)
       ∧ Task.archived t = default false (TaskInput.archived task_input)
       ∧ Task.priority t = default 0%Z (TaskInput.priority task_input)
       ∧ Task.due_date t = TaskInput.due_date task_input
       ∧ Task.parent_id t = TaskInput.parent_id task_input
       ∧ Task.tags t
         = Some (Py.strip <$> default [] (TaskInput.tags task_input))
       ∧ f_metadata (Task.metadata t)
         = stored (f_metadata (TaskInput.metadata task_input))
       ∧ Task.completion_date t
         = (if Task.completed t then Some now else None)
       ∧ Task.created_at t = now
       ∧ Task.updated_at t = now
       ∧ ∀ k, k ≠ uuid →
              (create_task s uuid now task_input).1 !! k = s !! k.
Proof.
  intros Hfresh Hparent.
  destruct (create_task_Ok s uuid now task_input Hfresh Hparent)
    as (r & -> & Hid & Ht & Hd & Hc & Ha & Hp & Hdue & Hcd & Hpar & Htags
        & Hmd & Hcr & Hup).
  exists (db_to_task r). cbn [fst snd]. split; [done|]. split.
  { rewrite <-Hid at 1 2. rewrite get_task_insert. unfold calculate_etag.
    by rewrite Hup. }
  split_and!; try done.
  - simpl. unfold TaskDB.get_tags. f_equal.
    destruct (TaskInput.tags task_input) as [[|x l]|]; simpl in Htags;
      by injection Htags as ->.
  - simpl. by rewrite Hcd, Hc.
  - intros k Hk. by rewrite lookup_insert_ne.
Qed.

(** The first task of an empty table. *)
Lemma create_then_get_witness :
  ∃ t, (create_task ∅ "t1" "2025-11-01T00:00:00Z" (new_task "A" None)).2 = Ok t
       ∧ Task.id t = "t1".
Proof.
  destruct (create_then_get ∅ "t1" "2025-11-01T00:00:00Z" (new_task "A" None))
    as (t & Ht & _ & Hid & _).
  - rewrite dom_empty_L. apply not_elem_of_empty.
  - simpl. intros p Hp. discriminate Hp.
  - exists t. by split.
Defined.

(** X4: [create_task] with a [parent_id] that is not the id of a stored
    task fails and leaves the table as it was.  A non-empty [parent_id] is
    caught by the handler's own lookup (422, "Parent task not found"); the
    empty string passes that lookup, which is guarded by truthiness, and
    is refused by the foreign key at commit. *)
Theorem create_task_missing_parent s uuid now task_input p :
  TaskInput.parent_id task_input = Some p → p ∉ dom s → uuid ≠ p →
  create_task s uuid now task_input
  = (s, Err (if Py.truthy p then ValidationError "Parent task not found"
             else IntegrityError)).
Proof.
  intros Hp Hmiss Hne.
  destruct task_input as [title desc c a prio due tags md p'].
  simpl in Hp. subst p'. unfold create_task. cbn [TaskInput.title
    TaskInput.description TaskInput.completed TaskInput.archived
    TaskInput.priority TaskInput.due_date TaskInput.tags TaskInput.metadata
    TaskInput.parent_id].
  set (r0 := TaskDB.Build _ _ _ _ _ _ _ _ _ _ _ _ _).
  set (r1 := match tags with Some l => TaskDB.set_tags (Some l) r0 | None => r0 end).
  set (r2 := match md with Some d => TaskDB.set_metadata (Some d) r1 | None => r1 end).
  set (r3 := if TaskDB.completed r2
             then TaskDB.with_completion_date (Some now) r2 else r2).
  assert (TaskDB.id r3 = uuid ∧ TaskDB.parent_id r3 = Some p) as [Hid Hp].
  { subst r3 r2 r1 r0. destruct tags as [[|??]|], md as [[|??]|], (default false c);
      by simpl. }
  rewrite Hp. rewrite (bool_decide_false _ Hmiss). simpl negb.
  rewrite andb_true_r. destruct (Py.truthy p); [done|].
  unfold db_insert. rewrite Hid, Hp. unfold fk_ok.
  rewrite (bool_decide_false _ Hmiss).
  rewrite (bool_decide_false (p = uuid)) by done.
  by case_bool_decide.
Qed.

(** A child of the empty-string id in the empty table. *)
Lemma create_task_missing_parent_witness :
  create_task ∅ "t1" "2025-11-01T00:00:00Z" (new_task "A" (Some ""))
  = (∅, Err IntegrityError).
Proof.
  apply (create_task_missing_parent ∅ "t1" "2025-11-01T00:00:00Z"
           (new_task "A" (Some "")) "" eq_refl).
  - rewrite dom_empty_L. apply not_elem_of_empty.
  - discriminate.
Defined.

(** ** update_task *)

(** X5: a successful update is a partial update.  Each field the payload
    sends ends in its column as the setter stores it (tags stripped, an
    empty tag list or dict as NULL, every other value as sent), and each
    of the nine fields the payload leaves out keeps its column. *)
Theorem update_task_patch fromisoformat s id task u ius im n1 n2 s' resp :
  keyed_store s → s !! id = Some task →
  update_task fromisoformat s id u ius im n1 n2 = (s', Ok resp) →
  ∃ row, s' !! id = Some row
         ∧ resp = db_to_task row
         ∧ (∀ fv, fv ∈ model_dump u → column (name_of fv) row = stored fv)
         ∧ (∀ n, sent n u = false → column n row = column n task).
Proof.
  intros Hk Hid H.
  apply (update_task_row _ _ _ _ _ _ _ _ _ _ _ Hk Hid) in H
    as (d & Hd & Hn & -> & ->).
  exists (committed_row task u n1 n2 d). rewrite lookup_insert_eq.
  split_and!; try done.
  - intros fv Hfv. rewrite committed_row_column.
    apply list_elem_of_split in Hfv as (l1 & l2 & Hl).
    pose proof (model_dump_NoDup u) as Hnd. rewrite Hl in Hd, Hnd.
    apply (apply_fields_written _ _ _ _ _ _ Hd Hn).
    rewrite fmap_app, fmap_cons in Hnd.
    apply NoDup_app in Hnd as (_ & _ & Hnd). apply NoDup_cons in Hnd as [Hnd _].
    apply Forall_forall. intros fv' Hfv' Heq. apply Hnd. rewrite <-Heq.
    by apply list_elem_of_fmap_2.
  - intros n Hs. rewrite committed_row_column.
    apply (apply_fields_other _ _ _ _ _ Hd). by apply model_dump_not_sent.
Qed.

Lemma one_task_keyed : keyed_store one_task.
Proof.
  intros k r Hr. unfold one_task in Hr.
  apply lookup_singleton_Some in Hr as [<- <-]. reflexivity.
Qed.

(** Renaming the task of [one_task] keeps its priority. *)
Lemma update_task_patch_witness :
  ∃ row, (update_task no_datetime one_task "t1" (set_title "B") None None
            "2025-11-02T00:00:00Z" "2025-11-02T00:00:00Z").1 !! "t1" = Some row
         ∧ column n_title row = f_title (Some "B")
         ∧ column n_priority row = column n_priority (sample_row "t1" None).
Proof.
  destruct (update_task_patch no_datetime one_task "t1" (sample_row "t1" None)
              (set_title "B") None None "2025-11-02T00:00:00Z"
              "2025-11-02T00:00:00Z"
              (update_task no_datetime one_task "t1" (set_title "B") None None
                 "2025-11-02T00:00:00Z" "2025-11-02T00:00:00Z").1
              (db_to_task
                 (TaskDB.with_updated_at "2025-11-02T00:00:00Z"
                    (TaskDB.with_title "B" (sample_row "t1" None))))
              one_task_keyed eq_refl)
    as (row & Hrow & _ & Hsent & Hunsent).
  - vm_compute. reflexivity.
  - exists row. split; [exact Hrow|]. split.
    + apply (Hsent (f_title (Some "B"))). vm_compute. left.
    + apply Hunsent. reflexivity.
Defined.

(** X6: after a successful update, [get_task] returns the task of the
    response, and its ETag is the time of the update between quotes; the
    task keeps its id and its creation time, its [updated_at] is the time
    of the update, and no other task changes. *)
Theorem update_then_get fromisoformat s id task u ius im n1 n2 s' resp :
  keyed_store s → s !! id = Some task →
  update_task fromisoformat s id u ius im n1 n2 = (s', Ok resp) →
  get_task s' id
  = Ok (resp, String Json.quote (n2 +:+ String Json.quote EmptyString))
  ∧ Task.id resp = id
  ∧ Task.created_at resp = TaskDB.created_at task
  ∧ Task.updated_at resp = n2
  ∧ ∀ k, k ≠ id → s' !! k = s !! k.
Proof.
  intros Hk Hid H.
  apply (update_task_row _ _ _ _ _ _ _ _ _ _ _ Hk Hid) in H
    as (d & Hd & Hn & -> & ->).
  apply apply_fields_identity in Hd as (Hi & _ & Hc & _). simpl in Hi, Hc.
  split_and!.
  - unfold get_task. by rewrite lookup_insert_eq.
  - rewrite db_to_task_id, committed_row_id, Hi. by apply Hk.
  - by rewrite db_to_task_created_at, committed_row_created_at.
  - done.
  - intros k Hne. by rewrite lookup_insert_ne.
Qed.

(** Completing the task of [one_task], and reading it back. *)
Lemma update_then_get_witness :
  get_task
    (update_task no_datetime one_task "t1" (set_completed true) None None
       "2025-11-02T00:00:00Z" "2025-11-02T00:00:01Z").1 "t1"
  = Ok (db_to_task
          (TaskDB.with_updated_at "2025-11-02T00:00:01Z"
             (TaskDB.with_completion_date (Some "2025-11-02T00:00:00Z")
                (TaskDB.with_completed true (sample_row "t1" None)))),
        String Json.quote ("2025-11-02T00:00:01Z" +:+ String Json.quote "")).
Proof.
  apply (update_then_get no_datetime one_task "t1" (sample_row "t1" None)
           (set_completed true) None None "2025-11-02T00:00:00Z"
           "2025-11-02T00:00:01Z" _ _ one_task_keyed eq_refl).
  vm_compute. reflexivity.
Defined.

(** X7: the [If-Unmodified-Since] precondition.  When the stored
    [updated_at] and the header both parse, to datetimes that are both
    aware or both naive, the update fails with 412 and changes nothing if
    the task was updated after the header's instant, and otherwise goes on
    as it would without the header. *)
Theorem if_unmodified_since_precondition fromisoformat s id task u v im n1 n2
    a b :
  s !! id = Some task →
  Py.truthy (TaskDB.updated_at task) = true → Py.truthy v = true →
  fromisoformat (utc_offset (TaskDB.updated_at task)) = Some a →
  fromisoformat (utc_offset v) = Some b →
  aware a = aware b →
  update_task fromisoformat s id u (Some v) im n1 n2
  = if (instant b <? instant a)%Z
    then (s, Err (PreconditionFailed
                    "Task has been modified since specified time"))
    else update_task fromisoformat s id u None im n1 n2.
Proof.
  intros Hid Hu Hv Ha Hb Hab.
  pose proof (check_if_unmodified_since_parsed fromisoformat task v a b
                Hu Hv Ha Hb Hab) as Hc.
  destruct (instant b <? instant a)%Z.
  - by apply (update_task_check_fails _ _ _ _ _ _ _ _ task).
  - by apply (update_task_check_passes _ _ _ _ _ _ _ _ task).
Qed.

(** A task imported with a later [updated_at] than the header allows. *)
Lemma if_unmodified_since_precondition_witness :
  update_task sample_fromisoformat
    {["t1" := TaskDB.with_updated_at "2025-11-02T00:00:00Z" (sample_row "t1" None)]}
    "t1" (set_title "B") (Some "2025-11-01T00:00:00Z") None
    "2025-11-03T00:00:00Z" "2025-11-03T00:00:00Z"
  = ({["t1" := TaskDB.with_updated_at "2025-11-02T00:00:00Z" (sample_row "t1" None)]},
     Err (PreconditionFailed "Task has been modified since specified time")).
Proof.
  apply (if_unmodified_since_precondition sample_fromisoformat _ "t1"
           (TaskDB.with_updated_at "2025-11-02T00:00:00Z" (sample_row "t1" None))
           (set_title "B") "2025-11-01T00:00:00Z" None _ _
           (Build_datetime true 86400000000) (Build_datetime true 0));
    reflexivity.
Defined.

(** X8: optimistic concurrency.  A client that read a task with
    [get_task], and sends the ETag it got as [If-Match] after another
    update of the task has been committed at a different [updated_at],
    is refused with 412 and changes nothing. *)
Theorem stale_etag_rejected fromisoformat s id t etag u1 ius im n1 n2 s1 resp
    u2 m1 m2 :
  keyed_store s →
  get_task s id = Ok (t, etag) →
  update_task fromisoformat s id u1 ius im n1 n2 = (s1, Ok resp) →
  n2 ≠ Task.updated_at t →
  update_task fromisoformat s1 id u2 None (Some etag) m1 m2
  = (s1, Err (PreconditionFailed "ETag does not match current resource")).
Proof.
  intros Hk Hget H Hne. unfold get_task in Hget.
  destruct (s !! id) as [task|] eqn:Hid; [|done]. simplify_eq.
  apply (update_task_row _ _ _ _ _ _ _ _ _ _ _ Hk Hid) in H
    as (d & Hd & Hn & -> & ->).
  apply (update_task_if_match_fails _ _ _ _ _ _ _
           (committed_row task u1 n1 n2 d)).
  - by rewrite lookup_insert_eq.
  - apply calculate_etag_truthy.
  - intros Heq%calculate_etag_inj. by rewrite committed_row_updated_at in Heq.
Qed.

(** The ETag read before a rename no longer opens the task. *)
Lemma stale_etag_rejected_witness :
  update_task no_datetime
    (update_task no_datetime one_task "t1" (set_title "B") None None
       "2025-11-02T00:00:00Z" "2025-11-02T00:00:00Z").1
    "t1" (set_title "C") None
    (Some (calculate_etag (sample_row "t1" None)))
    "2025-11-03T00:00:00Z" "2025-11-03T00:00:00Z"
  = ((update_task no_datetime one_task "t1" (set_title "B") None None
        "2025-11-02T00:00:00Z" "2025-11-02T00:00:00Z").1,
     Err (PreconditionFailed "ETag does not match current resource")).
Proof.
  apply (stale_etag_rejected no_datetime one_task "t1"
           (db_to_task (sample_row "t1" None)) _ (set_title "B") None None
           "2025-11-02T00:00:00Z" "2025-11-02T00:00:00Z" _
           (db_to_task
              (TaskDB.with_updated_at "2025-11-02T00:00:00Z"
                 (TaskDB.with_title "B" (sample_row "t1" None))))
           (set_title "C") "2025-11-03T00:00:00Z" "2025-11-03T00:00:00Z"
           one_task_keyed).
  - reflexivity.
  - vm_compute. reflexivity.
  - discriminate.
Defined.
(** ** list_tasks *)

(** X9: the page of [list_tasks] is in the order asked for.  Its rows are
    stored rows, and of any two of them the earlier one stands before the
    later one as [ORDER BY sort_col, created_at DESC] reads: its value in
    the column [sort_by] names comes strictly first in the direction
    [order] names (text by code points, integers by value, false before
    true); or it has a due date and the later one has none, under
    [due_date] in either direction; or both have the same value there, or
    no due date, and the earlier one was not created before the later
    one. *)
Theorem list_tasks_sorted s q now :
  ∃ rows, TaskList.data (list_tasks s q now) = db_to_task <$> rows
          ∧ StronglySorted (in_order q) rows
          ∧ ∀ r, r ∈ rows → ∃ k, s !! k = Some r.
Proof.
  exists (take (ListQuery.limit q)
            (drop (ListQuery.offset q) (selected_rows s q now))).
  split_and!.
  - reflexivity.
  - apply StronglySorted_take_drop.
    eapply StronglySorted_impl; [apply order_by_in_order|].
    apply selected_rows_sorted.
  - intros r Hr. eapply elem_of_sublist in Hr; [|apply sublist_take_drop].
    by apply elem_of_selected_rows in Hr as [? _].
Qed.

(** X10: [list_tasks] never returns a task that fails a filter of the
    query: [completed], [archived] and [priority] are equal to the values
    asked for, the due date is strictly before [due_before], after
    [due_after], and, under [overdue], before the current time on a task
    that is not completed.  A task without due date is never listed under
    any of the three due-date filters. *)
Theorem list_tasks_respects_filters s q now t :
  t ∈ TaskList.data (list_tasks s q now) →
  (∀ c, ListQuery.completed q = Some c → Task.completed t = c)
  ∧ (∀ a, ListQuery.archived q = Some a → Task.archived t = a)
  ∧ (∀ p, ListQuery.priority q = Some p → Task.priority t = p)
  ∧ (∀ d, ListQuery.due_before q = Some d → Py.truthy d = true →
          ∃ v, Task.due_date t = Some v ∧ String.ltb v d = true)
  ∧ (∀ d, ListQuery.due_after q = Some d → Py.truthy d = true →
          ∃ v, Task.due_date t = Some v ∧ String.ltb d v = true)
  ∧ (ListQuery.overdue q = Some true →
     Task.completed t = false
     ∧ ∃ v, Task.due_date t = Some v ∧ String.ltb v now = true).
Proof.
  intros (r & -> & Hr)%elem_of_list_tasks.
  apply elem_of_selected_rows in Hr as [_ Hw].
  unfold where_clause in Hw. apply andb_true_iff in Hw as [_ Hf].
  unfold other_filters in Hf.
  repeat (apply andb_true_iff in Hf as [Hf ?]).
  split_and!.
  - intros c Hc. rewrite Hc in Hf. by apply bool_decide_eq_true in Hf.
  - intros a Ha. rewrite Ha in H5. by apply bool_decide_eq_true in H5.
  - intros p Hp. rewrite Hp in H4. by apply bool_decide_eq_true in H4.
  - intros d Hd Ht. rewrite Hd, Ht in H1. simpl. unfold sql_test in H1.
    destruct (TaskDB.due_date r) as [v|]; [by exists v|done].
  - intros d Hd Ht. rewrite Hd, Ht in H0. simpl. unfold sql_test in H0.
    destruct (TaskDB.due_date r) as [v|]; [by exists v|done].
  - intros Ho. rewrite Ho in H. apply andb_true_iff in H as [H Hc].
    simpl. split; [by apply negb_true_iff|]. unfold sql_test in H.
    destruct (TaskDB.due_date r) as [v|]; [by exists v|done].
Qed.

(** The default listing of a parent and its child, asked for tasks that
    are not completed. *)
Lemma list_tasks_respects_filters_witness :
  Task.completed (db_to_task (sample_row "A" None)) = false.
Proof.
  destruct (list_tasks_respects_filters parent_and_child
              (ListQuery.Build (Some false) None None None None None None None
                 None by_created_at desc 100 0)
              "2025-11-02T00:00:00Z" (db_to_task (sample_row "A" None)))
    as [Hc _].
  - vm_compute. left.
  - exact (Hc false eq_refl).
Defined.

(** X11: pagination.  [total] counts the selected tasks whatever the page;
    a page holds [limit] tasks, or what is left after [offset] when that
    is less; and two consecutive pages put together are the page of both
    limits, so paging through loses and repeats nothing. *)
Theorem list_tasks_pagination s q now limit offset limit' :
  TaskList.total (list_tasks s (page limit offset q) now)
  = TaskList.total (list_tasks s q now)
  ∧ length (TaskList.data (list_tasks s (page limit offset q) now))
    = limit `min` (TaskList.total (list_tasks s q now) - offset)
  ∧ TaskList.data (list_tasks s (page limit offset q) now)
    ++ TaskList.data (list_tasks s (page limit' (offset + limit) q) now)
    = TaskList.data (list_tasks s (page (limit + limit') offset q) now).
Proof.
  unfold list_tasks. rewrite !selected_rows_page. cbn.
  split_and!.
  - done.
  - by rewrite length_fmap, length_take, length_drop.
  - rewrite <-fmap_app. f_equal.
    rewrite <-(take_take_drop _ limit limit'). f_equal.
    by rewrite drop_drop.
Qed.

(** X12: the [parent_id] parameter.  With a [parent_id] other than the
    word null, the rows selected are exactly the stored rows with that
    parent that pass the other filters, [total] counts them and every
    task of the page has that parent.  The word null selects as the
    absent parameter does, the root tasks: the children of a task whose
    id is the string null cannot be listed. *)
Theorem list_tasks_children s q now p :
  ListQuery.parent_id q = Some p →
  (p ≠ "null" →
   selected_rows s q now ≡ₚ filter (child_and_filtered p q now) (table_rows s)
   ∧ TaskList.total (list_tasks s q now)
     = length (filter (child_and_filtered p q now) (table_rows s))
   ∧ ∀ t, t ∈ TaskList.data (list_tasks s q now) → Task.parent_id t = Some p)
  ∧ (p = "null" → list_tasks s q now = list_tasks s (under None q) now).
Proof.
  intros Hq. split.
  - intros Hp. pose proof (selected_rows_children s q now p Hq Hp) as Hsel.
    split_and!; [done|unfold list_tasks; simpl; by rewrite Hsel|].
    intros t (r & -> & Hr)%elem_of_list_tasks. rewrite Hsel in Hr.
    by apply list_elem_of_filter in Hr as [[? _] _].
  - intros ->. unfold list_tasks.
    rewrite (selected_rows_null s q now Hq). by destruct q.
Qed.

(** The children of A in [parent_and_child]. *)
Lemma list_tasks_children_witness :
  TaskList.total
    (list_tasks parent_and_child (under (Some "A") ListQuery.default)
       "2025-11-02T00:00:00Z")
  = length (filter (child_and_filtered "A" (under (Some "A") ListQuery.default)
                      "2025-11-02T00:00:00Z")
              (table_rows parent_and_child)).
Proof.
  apply (list_tasks_children parent_and_child
           (under (Some "A") ListQuery.default) "2025-11-02T00:00:00Z" "A"
           eq_refl).
  discriminate.
Defined.



(** X14: the tag filter never misses a plain tag.  When the tags of a
    stored row are made of the characters from space to tilde without the
    quote and the backslash, and every tag of the filter, trimmed and in
    lower case, is one of the row's tags in lower case, the row passes the
    tag filter. *)
Theorem tag_filter_finds_plain_tags filters r :
  Forall (fun t => plain t = true) (TaskDB.get_tags r) →
  tags_present filters r = true →
  tag_filters (Some filters) r = true.
Proof.
  intros Hplain Hpresent. unfold tag_filters, tags_present in *.
  apply forallb_forall. intros f Hf.
  rewrite forallb_forall in Hpresent. specialize (Hpresent f Hf).
  apply existsb_exists in Hpresent as (t & Ht & Heq).
  apply bool_decide_eq_true in Heq.
  unfold TaskDB.get_tags in *. unfold TaskDB.tags_text.
  destruct (TaskDB.tags r) as [l|]; [|by destruct Ht]. simpl.
  apply (tag_pattern_plain f t).
  - rewrite Forall_forall in Hplain. apply Hplain. by apply list_elem_of_In.
  - by apply list_elem_of_In.
  - done.
Qed.

(** The filter work, urgent on a task tagged Work, Urgent, extra. *)
Lemma tag_filter_finds_plain_tags_witness :
  tag_filters (Some [" work"; "URGENT"])
    (tagged_row "t1" ["Work"; "Urgent"; "extra"]) = true.
Proof.
  apply (tag_filter_finds_plain_tags [" work"; "URGENT"]
           (tagged_row "t1" ["Work"; "Urgent"; "extra"])).
  - repeat constructor.
  - reflexivity.
Defined.
(** ** export_tasks *)

(** X15: [export_tasks] returns every stored task exactly once: the tasks
    without parent first, then the tasks with a parent, each group in the
    order of the [created_at] strings.  So a task whose parent is a root
    task comes after its parent; the order within the second group is by
    creation time and not by depth. *)
Theorem export_tasks_order s :
  export_tasks s ≡ₚ db_to_task <$> table_rows s
  ∧ length (export_tasks s) = size s
  ∧ ∃ root_tasks child_tasks,
      export_tasks s = root_tasks ++ child_tasks
      ∧ Forall (fun t => Task.parent_id t = None) root_tasks
      ∧ Forall (fun t => Task.parent_id t ≠ None) child_tasks
      ∧ StronglySorted created_before root_tasks
      ∧ StronglySorted created_before child_tasks.
Proof.
  split_and!; [apply export_tasks_Permutation|apply export_tasks_length
              |apply export_tasks_split].
Qed.

(** ** import_tasks *)

(** X16: the table after a successful import.  Every record of the batch
    is stored under its id as [import_row] writes it (every field of the
    record, tags stripped, an empty tag list or dict as NULL), except,
    under [skip], the records whose id was stored already, which stay as
    they were; no key outside the batch changes; and under [fail] no id
    of the batch was stored before. *)
Theorem import_tasks_store s depth tasks on_conflict s' resp :
  keyed_store s →
  import_tasks s depth tasks false on_conflict = (s', Ok resp) →
  (∀ t, t ∈ tasks →
        s' !! Task.id t
        = if decide (on_conflict = skip ∧ Task.id t ∈ dom s)
          then s !! Task.id t
          else Some (import_row (Task.id t) t))
  ∧ (∀ k, k ∉ ids tasks → s' !! k = s !! k)
  ∧ (on_conflict = fail → ∀ t, t ∈ tasks → Task.id t ∉ dom s).
Proof.
  intros Hk H.
  destruct (import_tasks_lookup s depth tasks on_conflict s' resp Hk H)
    as (L1 & L2 & _ & _).
  split_and!.
  - intros t Ht. destruct (decide _) as [Hskip|Hskip].
    + apply L2. rewrite elem_of_ids_remaining_tasks. tauto.
    + apply L1. by apply elem_of_remaining_tasks.
  - intros k Hn. apply L2. rewrite elem_of_ids_remaining_tasks. tauto.
  - intros -> t Ht Hd. rewrite import_tasks_run in H.
    case_bool_decide; [done|].
    rewrite bool_decide_true in H.
    + by rewrite (bool_decide_true (fail = fail)) in H.
    + intros He.
      assert (Task.id t ∈ existing_ids s tasks) as Hin.
      { apply elem_of_existing_ids. split; [done|]. by apply list_elem_of_fmap_2. }
      rewrite He in Hin. by apply elem_of_nil in Hin.
Qed.

(** Importing a child and its parent into the empty table. *)
Lemma import_tasks_store_witness :
  (import_tasks ∅ 3 [record "B" (Some "A"); record "A" None] false fail).1
    !! "B"
  = Some (import_row "B" (record "B" (Some "A"))).
Proof.
  assert (keyed_store (∅ : Store)) as Hk.
  { intros k r Hr. by rewrite lookup_empty in Hr. }
  destruct (import_tasks_store ∅ 3 [record "B" (Some "A"); record "A" None]
              fail
              (import_tasks ∅ 3 [record "B" (Some "A"); record "A" None]
                 false fail).1
              (ImportResponse.Build 201 2) Hk) as [H _].
  - vm_compute. reflexivity.
  - apply (H (record "B" (Some "A"))). left.
Defined.

(** X17: importing under [skip] is idempotent.  Once an import under
    [skip] has succeeded, importing the same batch again under [skip]
    succeeds, writes nothing, reports [imported_count] 0, and leaves the
    table as the first import left it, whatever the recursion depth. *)
Theorem import_skip_idempotent s depth depth' tasks s' resp :
  keyed_store s →
  import_tasks s depth tasks false skip = (s', Ok resp) →
  import_tasks s' depth' tasks false skip
  = (s', Ok (ImportResponse.Build 201 0)).
Proof.
  intros Hk H.
  destruct (import_tasks_lookup s depth tasks skip s' resp Hk H)
    as (L1 & L2 & _ & _).
  pose proof (import_tasks_committed _ _ _ _ _ _ H) as [Hnd _].
  assert (remaining_tasks s' skip tasks = []) as Hrem.
  { destruct (remaining_tasks s' skip tasks) as [|t l] eqn:E; [done|].
    assert (t ∈ remaining_tasks s' skip tasks) as Ht by (rewrite E; left).
    apply elem_of_remaining_tasks in Ht as [Ht Hn]. exfalso. apply Hn.
    split; [done|]. apply elem_of_dom.
    destruct (decide (Task.id t ∈ dom s)) as [Hd|Hd].
    - rewrite L2; [by apply elem_of_dom|].
      rewrite elem_of_ids_remaining_tasks. tauto.
    - rewrite L1; [done|]. apply elem_of_remaining_tasks. tauto. }
  rewrite import_tasks_run. rewrite bool_decide_false by (by intros []).
  rewrite (bool_decide_false (skip = fail)) by done. rewrite andb_false_r.
  by rewrite Hrem.
Qed.

(** The pair of X16, imported twice. *)
Lemma import_skip_idempotent_witness :
  import_tasks
    (import_tasks ∅ 3 [record "B" (Some "A"); record "A" None] false skip).1
    0 [record "B" (Some "A"); record "A" None] false skip
  = ((import_tasks ∅ 3 [record "B" (Some "A"); record "A" None] false skip).1,
     Ok (ImportResponse.Build 201 0)).
Proof.
  apply (import_skip_idempotent ∅ 3 0 [record "B" (Some "A"); record "A" None]
           _ (ImportResponse.Build 201 2)).
  - intros k r Hr. by rewrite lookup_empty in Hr.
  - vm_compute. reflexivity.
Defined.

(** X18: importing under [upsert] is idempotent.  Once an import under
    [upsert] has succeeded, importing the same batch again under
    [upsert] succeeds with the same response and leaves the table as the
    first import left it. *)
Theorem import_upsert_idempotent s depth tasks s' resp :
  keyed_store s →
  import_tasks s depth tasks false upsert = (s', Ok resp) →
  import_tasks s' depth tasks false upsert = (s', Ok resp).
Proof.
  intros Hk H.
  destruct (import_tasks_lookup s depth tasks upsert s' resp Hk H)
    as (L1 & L2 & L3 & ->).
  pose proof (import_tasks_committed _ _ _ _ _ _ H)
    as (Hnd & sorted & Hsort & _ & _).
  rewrite remaining_tasks_not_skip in * by done.
  destruct (sort_tasks_Some _ _ _ Hnd Hsort) as [Hperm _].
  rewrite import_tasks_run. rewrite bool_decide_false by (by intros []).
  rewrite (bool_decide_false (upsert = fail)) by done. rewrite andb_false_r.
  rewrite remaining_tasks_not_skip by done. rewrite Hsort. cbv zeta.
  rewrite write_loop_stored.
  2:{ intros t Ht. rewrite Hperm in Ht. split; [|by apply L1].
      apply elem_of_existing_ids. split; [|by apply list_elem_of_fmap_2].
      apply elem_of_dom. by rewrite L1. }
  unfold commit. cbn [Pending.updates Pending.inserts Pending.imported_count].
  rewrite run_updates_stored.
  - cbn. by rewrite Hperm.
  - intros r (t & -> & Ht)%list_elem_of_fmap. rewrite Hperm in Ht.
    unfold inserted_row. rewrite import_row_id, import_row_parent_id.
    split; [by apply L1|]. intros p Hp. by apply (L3 t).
Qed.

(** The pair of X16, upserted twice. *)
Lemma import_upsert_idempotent_witness :
  import_tasks
    (import_tasks ∅ 3 [record "B" (Some "A"); record "A" None] false upsert).1
    3 [record "B" (Some "A"); record "A" None] false upsert
  = ((import_tasks ∅ 3 [record "B" (Some "A"); record "A" None] false upsert).1,
     Ok (ImportResponse.Build 201 2)).
Proof.
  apply (import_upsert_idempotent ∅ 3 [record "B" (Some "A"); record "A" None]).
  - intros k r Hr. by rewrite lookup_empty in Hr.
  - vm_compute. reflexivity.
Defined.

(** X19: an import never leaves a dangling parent.  When a record that is
    to be written names a parent that is neither stored nor in the batch,
    the import fails and the table stays as it was; the empty string
    counts as such a parent. *)
Theorem import_dangling_parent_fails s depth tasks on_conflict t p :
  keyed_store s →
  t ∈ tasks → ¬ (on_conflict = skip ∧ Task.id t ∈ dom s) →
  Task.parent_id t = Some p → p ∉ dom s → p ∉ ids tasks →
  ∃ e, import_tasks s depth tasks false on_conflict = (s, Err e).
Proof.
  intros Hk Ht Hskip Hp Hs Hb.
  destruct (import_tasks s depth tasks false on_conflict) as [s' [resp|e]] eqn:H.
  - exfalso.
    destruct (import_tasks_lookup s depth tasks on_conflict s' resp Hk H)
      as (_ & L2 & L3 & _).
    assert (p ∈ dom s') as Hd.
    { apply (L3 t); [|done]. by apply elem_of_remaining_tasks. }
    apply elem_of_dom in Hd. rewrite L2 in Hd; [by apply Hs, elem_of_dom|].
    rewrite elem_of_ids_remaining_tasks. tauto.
  - exists e. by apply import_tasks_Err in H as ->.
Qed.

(** A child whose parent is nowhere. *)
Lemma import_dangling_parent_fails_witness :
  ∃ e, import_tasks ∅ 3 [record "B" (Some "A")] false fail = (∅, Err e).
Proof.
  apply (import_dangling_parent_fails ∅ 3 [record "B" (Some "A")] fail
           (record "B" (Some "A")) "A").
  - intros k r Hr. by rewrite lookup_empty in Hr.
  - left.
  - intros [H _]. discriminate H.
  - reflexivity.
  - rewrite dom_empty_L. apply not_elem_of_empty.
  - vm_compute. intros H. apply list_elem_of_singleton in H. discriminate H.
Defined.

(** ** Tags *)

(** X20: tags that pass [validate_tags] are stored trimmed: [get_tags]
    after [set_tags] returns each tag stripped of the white space around
    it and otherwise as it was sent, the case included; the stored tags
    pass [validate_tags] again, so none is empty or longer than 64
    characters; and storing what [get_tags] returns changes nothing. *)
Theorem set_tags_get_tags l r :
  validate_tags (Some l) = true →
  TaskDB.get_tags (TaskDB.set_tags (Some l) r) = Py.strip <$> l
  ∧ validate_tags (Some (TaskDB.get_tags (TaskDB.set_tags (Some l) r))) = true
  ∧ TaskDB.set_tags (Some (TaskDB.get_tags (TaskDB.set_tags (Some l) r)))
      (TaskDB.set_tags (Some l) r)
    = TaskDB.set_tags (Some l) r.
Proof.
  intros Hv.
  assert (TaskDB.get_tags (TaskDB.set_tags (Some l) r) = Py.strip <$> l) as ->.
  { by destruct l. }
  split_and!; [done|by apply validate_tags_strip|].
  destruct l as [|x l]; [done|]. cbn.
  unfold TaskDB.with_tags. cbn. by rewrite strip_idemp,
    <-list_fmap_compose, (list_fmap_ext _ Py.strip) by (intros; apply strip_idemp).
Qed.

(** Two tags with white space around them. *)
Lemma set_tags_get_tags_witness :
  TaskDB.get_tags (TaskDB.set_tags (Some [" Work "; "x"]) (sample_row "t1" None))
  = Py.strip <$> [" Work "; "x"].
Proof.
  apply (set_tags_get_tags [" Work "; "x"] (sample_row "t1" None)).
  reflexivity.
Defined.
(** ** update_task: its failures and its success *)

(** X21: an update that names a parent with a non-empty id fails with 422
    and changes nothing when that id is not stored ("Parent task not
    found") or is the id of the task itself ("Task cannot be its own
    parent"), whatever else the payload sets. *)
Theorem update_task_parent_errors fromisoformat s id task u p n1 n2 :
  keyed_store s → s !! id = Some task →
  TaskUpdate.parent_id u = Some (Some p) → Py.truthy p = true →
  (p ∉ dom s →
   update_task fromisoformat s id u None None n1 n2
   = (s, Err (ValidationError "Parent task not found")))
  ∧ (p = id →
     update_task fromisoformat s id u None None n1 n2
     = (s, Err (ValidationError "Task cannot be its own parent"))).
Proof.
  intros Hk Hid Hp Ht.
  destruct (apply_fields_model_dump s task u) as (d0 & (Hi & _) & Hd).
  rewrite Hp in Hd. simpl in Hd. rewrite Ht in Hd. cbn [andb] in Hd.
  split.
  - intros Hmiss. rewrite (update_task_no_headers _ _ _ task) by done.
    rewrite Hd. by rewrite (bool_decide_false _ Hmiss).
  - intros ->. rewrite (update_task_no_headers _ _ _ task) by done.
    rewrite Hd. rewrite bool_decide_true by (by apply elem_of_dom).
    rewrite Hi, (Hk _ _ Hid). by rewrite bool_decide_true.
Qed.

(** Making the task of [one_task] its own parent. *)
Lemma update_task_parent_errors_witness :
  update_task no_datetime one_task "t1" (set_parent_id (Some "t1")) None None
    "2025-11-02T00:00:00Z" "2025-11-02T00:00:00Z"
  = (one_task, Err (ValidationError "Task cannot be its own parent")).
Proof.
  apply (update_task_parent_errors no_datetime one_task "t1"
           (sample_row "t1" None) (set_parent_id (Some "t1")) "t1"
           "2025-11-02T00:00:00Z" "2025-11-02T00:00:00Z" one_task_keyed);
    reflexivity.
Defined.

(** X22: an update that sends [null] for [title], [completed], [archived]
    or [priority] is not refused by the handler: the field loop assigns
    the [None], and the commit fails on the NOT NULL column, so the
    update ends in an [IntegrityError] (a 500 response) and changes
    nothing.  This holds whenever the parent the payload may name passes
    the handler's checks. *)
Theorem update_task_null_column fromisoformat s id task u n1 n2 :
  keyed_store s → s !! id = Some task →
  sends_null u = true → parent_accepted s id u →
  update_task fromisoformat s id u None None n1 n2 = (s, Err IntegrityError).
Proof.
  intros Hk Hid Hnull Hpar.
  destruct (apply_fields_accepted s id task u Hk Hid Hpar) as (d & Hd & Hn).
  rewrite (update_task_no_headers _ _ _ task) by done.
  by rewrite Hd, Hn, Hnull.
Qed.

(** Sending a null title to the task of [one_task]. *)
Lemma update_task_null_column_witness :
  update_task no_datetime one_task "t1"
    (TaskUpdate.Build (Some None) None None None None None None None None)
    None None "2025-11-02T00:00:00Z" "2025-11-02T00:00:00Z"
  = (one_task, Err IntegrityError).
Proof.
  apply (update_task_null_column no_datetime one_task "t1"
           (sample_row "t1" None)
           (TaskUpdate.Build (Some None) None None None None None None None
              None)
           "2025-11-02T00:00:00Z" "2025-11-02T00:00:00Z" one_task_keyed
           eq_refl eq_refl).
  intros p Hp. discriminate Hp.
Defined.

(** X23: when an update without precondition headers succeeds.  On a stored
    task of a table that keeps referential integrity, an update succeeds
    as soon as it sends no [null] for a NOT NULL column and the parent it
    may name is stored and is not the task itself. *)
Theorem update_task_succeeds fromisoformat s id task u n1 n2 :
  keyed_store s → referential_integrity s → s !! id = Some task →
  sends_null u = false → parent_accepted s id u →
  ∃ s' resp, update_task fromisoformat s id u None None n1 n2 = (s', Ok resp).
Proof.
  intros Hk Hri Hid Hnull Hpar.
  destruct (apply_fields_accepted s id task u Hk Hid Hpar) as (d & Hd & Hn).
  rewrite Hnull in Hn.
  rewrite (update_task_no_headers _ _ _ task) by done. rewrite Hd, Hn.
  unfold db_update.
  assert (fk_ok s (TaskDB.id (committed_row task u n1 n2 d))
            (TaskDB.parent_id (committed_row task u n1 n2 d)) = true) as ->;
    [|eauto].
  rewrite committed_row_parent_id, (apply_fields_parent_id s task u d Hd Hn).
  unfold fk_ok. destruct (TaskUpdate.parent_id u) as [[p|]|] eqn:Hp; [|done|].
  - destruct (Hpar p Hp) as [Hin _]. by rewrite (bool_decide_true _ Hin).
  - destruct (TaskDB.parent_id task) as [p|] eqn:Hp'; [|done].
    by rewrite (bool_decide_true _ (Hri _ _ _ Hid Hp')).
Qed.

(** Moving B of [parent_and_child] to the root. *)
Lemma update_task_succeeds_witness :
  ∃ s' resp,
    update_task no_datetime parent_and_child "B" (set_parent_id None) None
      None "2025-11-02T00:00:00Z" "2025-11-02T00:00:00Z"
    = (s', Ok resp).
Proof.
  apply (update_task_succeeds no_datetime parent_and_child "B"
           (sample_row "B" (Some "A")) (set_parent_id None)
           "2025-11-02T00:00:00Z" "2025-11-02T00:00:00Z"
           parent_and_child_keyed).
  - intros k r p [[-> ->]|[-> ->]]%parent_and_child_lookup Hp;
      simpl in Hp; simplify_eq. apply elem_of_dom. by eexists.
  - reflexivity.
  - reflexivity.
  - intros p Hp. discriminate Hp.
Defined.
(** ** The tags column as text *)

(** X24: the [tags] column round trip.  [json.loads] reads back every list
    of strings [json.dumps] writes; so [get_tags] on the text [set_tags]
    stores returns the tags trimmed, and the empty list for a falsy
    argument; the text is the one the row of the model stands for, and
    reading the column of any row gives the list the row keeps. *)
Theorem tags_column_roundtrip tags r :
  (∀ l, JsonDecoder.loads (Json.dumps l) = Some l)
  ∧ get_tags_text (set_tags_text tags) = Some (Py.strip <$> default [] tags)
  ∧ set_tags_text tags = TaskDB.tags_text (TaskDB.set_tags tags r)
  ∧ get_tags_text (TaskDB.tags_text r) = Some (TaskDB.get_tags r).
Proof.
  split_and!.
  - apply loads_dumps.
  - destruct tags as [[|x l]|]; try reflexivity.
    unfold set_tags_text, get_tags_text. by rewrite dumps_truthy, loads_dumps.
  - by destruct tags as [[|x l]|].
  - unfold TaskDB.tags_text, TaskDB.get_tags, get_tags_text.
    destruct (TaskDB.tags r) as [l|]; [|done].
    change (Json.dumps <$> Some l) with (Some (Json.dumps l)). cbv iota.
    by rewrite dumps_truthy, loads_dumps.
Qed.

(** ** import_tasks and the order of the batch *)

(** X25: the submitted order of a batch does not matter.  Two successful
    imports of the same records in different orders, into the same table
    and under the same policy, leave the same table and give the same
    response. *)
Theorem import_order_irrelevant s depth depth' tasks tasks' on_conflict
    s1 resp1 s2 resp2 :
  keyed_store s → tasks ≡ₚ tasks' →
  import_tasks s depth tasks false on_conflict = (s1, Ok resp1) →
  import_tasks s depth' tasks' false on_conflict = (s2, Ok resp2) →
  s1 = s2 ∧ resp1 = resp2.
Proof.
  intros Hk Hperm H1 H2.
  destruct (import_tasks_lookup _ _ _ _ _ _ Hk H1) as (A1 & A2 & _ & ->).
  destruct (import_tasks_lookup _ _ _ _ _ _ Hk H2) as (B1 & B2 & _ & ->).
  pose proof (import_tasks_committed _ _ _ _ _ _ H1) as [Hnd1 _].
  pose proof (import_tasks_committed _ _ _ _ _ _ H2) as [Hnd2 _].
  assert (∀ t, t ∈ remaining_tasks s on_conflict tasks
               ↔ t ∈ remaining_tasks s on_conflict tasks') as Hsame.
  { intros t. rewrite !elem_of_remaining_tasks. by rewrite Hperm. }
  split.
  - apply map_eq. intros k.
    destruct (decide (k ∈ ids (remaining_tasks s on_conflict tasks)))
      as [Hin|Hout].
    + apply list_elem_of_fmap in Hin as (t & -> & Ht).
      rewrite (A1 t Ht). symmetry. apply B1. by apply Hsame.
    + rewrite (A2 k Hout). symmetry. apply B2.
      intros (t & -> & Ht)%list_elem_of_fmap. apply Hout.
      apply list_elem_of_fmap. exists t. split; [done|]. by apply Hsame.
  - f_equal. apply Permutation_length. apply NoDup_Permutation; [| |done].
    + by apply NoDup_ids, remaining_tasks_NoDup.
    + by apply NoDup_ids, remaining_tasks_NoDup.
Qed.

(** A child and its parent, submitted in either order. *)
Lemma import_order_irrelevant_witness :
  (import_tasks ∅ 3 [record "B" (Some "A"); record "A" None] false fail).1
  = (import_tasks ∅ 3 [record "A" None; record "B" (Some "A")] false fail).1.
Proof.
  apply (import_order_irrelevant ∅ 3 3
           [record "B" (Some "A"); record "A" None]
           [record "A" None; record "B" (Some "A")] fail
           _ (ImportResponse.Build 201 2) _ (ImportResponse.Build 201 2)).
  - intros k r Hr. by rewrite lookup_empty in Hr.
  - apply perm_swap.
  - vm_compute. reflexivity.
  - vm_compute. reflexivity.
Defined.

(** X26: importing the export of a table into that same table.  Under
    [skip] it succeeds, writes nothing and leaves the table as it is,
    cycles among the tasks or not; under [fail] it is refused with 409
    and the ids of all the tasks, in ascending order, unless the table is
    empty. *)
Theorem reimport_export s depth :
  keyed_store s →
  import_tasks s depth (export_tasks s) false skip
  = (s, Ok (ImportResponse.Build 201 0))
  ∧ (s ≠ ∅ →
     ∃ conflicting,
       import_tasks s depth (export_tasks s) false fail
       = (s, Err (Conflict conflicting))
       ∧ conflicting ≡ₚ ids (export_tasks s)
       ∧ StronglySorted String.le conflicting).
Proof.
  intros Hk. pose proof (export_tasks_NoDup s Hk) as Hnd.
  assert (∀ t, t ∈ export_tasks s → Task.id t ∈ dom s) as Hdom.
  { intros t (k & r & Hr & ->)%elem_of_export_tasks.
    rewrite db_to_task_id, (Hk _ _ Hr). by apply elem_of_dom. }
  assert (∀ k, k ∈ dom s → k ∈ ids (export_tasks s)) as Hall.
  { intros k [r Hr]%elem_of_dom. apply list_elem_of_fmap.
    exists (db_to_task r). split.
    - by rewrite db_to_task_id, (Hk _ _ Hr).
    - apply elem_of_export_tasks. eauto. }
  assert (existing_ids s (export_tasks s) = index_keys s) as Hex.
  { unfold existing_ids. apply filter_all.
    intros k Hin%elem_of_index_keys. by apply Hall. }
  split.
  - assert (remaining_tasks s skip (export_tasks s) = []) as Hrem.
    { destruct (remaining_tasks s skip (export_tasks s)) as [|t l] eqn:E;
        [done|].
      assert (t ∈ remaining_tasks s skip (export_tasks s)) as Ht
        by (rewrite E; left).
      apply elem_of_remaining_tasks in Ht as [Ht Hn]. exfalso. apply Hn.
      split; [done|]. by apply Hdom. }
    rewrite import_tasks_run. rewrite bool_decide_false by (by intros []).
    rewrite (bool_decide_false (skip = fail)) by done. rewrite andb_false_r.
    by rewrite Hrem.
  - intros Hne. exists (index_keys s). split_and!.
    + rewrite import_tasks_run.
      rewrite bool_decide_false by (by intros []). rewrite Hex.
      rewrite bool_decide_true; [by rewrite bool_decide_true|].
      intros Hnil. apply Hne. apply dom_empty_iff_L.
      apply set_eq. intros k. rewrite <-elem_of_index_keys, Hnil.
      set_solver.
    + apply NoDup_Permutation; [apply NoDup_index_keys|done|].
      intros k. rewrite elem_of_index_keys. split; [apply Hall|].
      intros (t & -> & Ht)%list_elem_of_fmap. by apply Hdom.
    + apply index_keys_sorted.
Qed.

(** The export of a parent and its child, imported where it came from. *)
Lemma reimport_export_witness :
  import_tasks parent_and_child 0 (export_tasks parent_and_child) false skip
  = (parent_and_child, Ok (ImportResponse.Build 201 0)).
Proof.
  apply (reimport_export parent_and_child 0 parent_and_child_keyed).
Defined.

(** The ids of the 409 come in ascending order, the export in its own. *)
Example reimport_export_example :
  ids (export_tasks reversed_chain) = ["A"; "C"; "B"]
  ∧ import_tasks reversed_chain 3 (export_tasks reversed_chain) false fail
    = (reversed_chain, Err (Conflict ["A"; "B"; "C"])).
Proof. split; vm_compute; reflexivity. Qed.
(** ** get_utc_now *)

(** X27: [parse_datetime] reads back what [get_utc_now] writes.  The
    timestamp [get_utc_now] returns is the [isoformat()] text of the clock
    reading with the offset [+00:00] replaced by [Z]; [parse_datetime]
    puts the offset back, so [datetime.fromisoformat] gets the very text
    [isoformat()] gave. *)
Theorem get_utc_now_parse fromisoformat now :
  get_utc_now now
  = (isoformat_seconds now +:+ isoformat_fraction now) +:+ "Z"
  ∧ utc_offset (get_utc_now now) = isoformat now
  ∧ parse_datetime fromisoformat (Some (get_utc_now now))
    = match fromisoformat (isoformat now) with
      | Some d => Ok (Some d)
      | None => Err ValueError
      end.
Proof.
  assert (utc_offset (get_utc_now now) = isoformat now) as Hu.
  { rewrite get_utc_now_Z, utc_offset_Z. unfold isoformat.
    by rewrite append_assoc. }
  split_and!; [apply get_utc_now_Z|done|].
  unfold parse_datetime. rewrite Hu.
  assert (Py.truthy (get_utc_now now) = true) as ->; [|done].
  rewrite get_utc_now_Z.
  by destruct (isoformat_seconds now +:+ isoformat_fraction now).
Qed.

(** X28: the order of the timestamps.  Two timestamps of [get_utc_now]
    compare as strings the way their clock readings compare in time when
    both readings have microseconds or both have none; so sorting by
    [created_at] or [updated_at] is sorting by time.  The exception is a
    reading on a whole second, whose timestamp has no fraction: it sorts
    after the timestamp of every later reading within the same second. *)
Theorem get_utc_now_order a b :
  in_range a → in_range b →
  ((UtcDatetime.microsecond a = 0%N ↔ UtcDatetime.microsecond b = 0%N) →
   String.compare (get_utc_now a) (get_utc_now b) = compare_time a b)
  ∧ (compare_seconds a b = Eq →
     UtcDatetime.microsecond a = 0%N → UtcDatetime.microsecond b ≠ 0%N →
     compare_time a b = Lt
     ∧ String.compare (get_utc_now a) (get_utc_now b) = Gt).
Proof.
  intros Ha Hb. rewrite (compare_get_utc_now a b Ha Hb).
  unfold compare_time, isoformat_fraction.
  destruct Ha as (_&_&_&_&_&_&Ha), Hb as (_&_&_&_&_&_&Hb).
  split.
  - intros Hiff. f_equal.
    destruct (N.eqb_spec (UtcDatetime.microsecond a) 0) as [Ha0|Ha0],
             (N.eqb_spec (UtcDatetime.microsecond b) 0) as [Hb0|Hb0];
      try tauto.
    + by rewrite Ha0, Hb0.
    + rewrite !append_assoc, !append_cons, !append_nil_l, compare_char_app.
      rewrite compare_app by by rewrite !length_zero_padded.
      rewrite compare_zero_padded by (simpl; lia).
      by destruct (_ ?= _)%N.
  - intros -> Ha0 Hb0. rewrite Ha0.
    apply N.eqb_neq in Hb0 as Hb0'. rewrite Hb0'. split.
    + simpl. by destruct (UtcDatetime.microsecond b).
    + reflexivity.
Qed.

(** Midnight, and five microseconds later. *)
Lemma get_utc_now_order_witness :
  compare_time whole_second same_second = Lt
  ∧ String.compare (get_utc_now whole_second) (get_utc_now same_second) = Gt.
Proof.
  apply (get_utc_now_order whole_second same_second).
  - by repeat split.
  - by repeat split.
  - reflexivity.
  - reflexivity.
  - discriminate.
Defined.
(** ** create_task, then delete_task *)

(** X29: deleting a task that was just created restores the table.  On a
    table that keeps referential integrity, after a successful
    [create_task] under a new id, [delete_task] on that id succeeds,
    whatever the number of trigger levels the engine grants above zero,
    and leaves exactly the table from before the creation: the new task
    has no descendant yet, so the cascade takes nothing else. *)
Theorem create_then_delete s trigger_depth uuid now task_input t :
  keyed_store s → referential_integrity s → uuid ∉ dom s →
  0 < trigger_depth →
  (create_task s uuid now task_input).2 = Ok t →
  delete_task (create_task s uuid now task_input).1 trigger_depth uuid
  = (s, Ok ()).
Proof.
  intros Hk Hri Hfresh Hdepth Hok.
  destruct (create_task_success s uuid now task_input t Hok) as (r & Hs & Hid).
  pose proof (create_keyed s uuid now task_input Hk) as Hk'.
  pose proof (create_referential_integrity s uuid now task_input Hri) as Hri'.
  rewrite Hs in *.
  assert (<[uuid := r]> s !! uuid = Some r) as Hr by apply lookup_insert_eq.
  assert (∀ k, descends (<[uuid := r]> s) uuid k → k = uuid) as Honly.
  { intros k Hd. induction Hd as [|k r' p Hr' Hp _ ->]; [done|].
    destruct (decide (k = uuid)) as [|Hne]; [done|]. exfalso.
    rewrite lookup_insert_ne in Hr' by done.
    apply Hfresh. by eapply Hri. }
  assert (∀ n k, level (<[uuid := r]> s) uuid n k → n < trigger_depth)
    as Hlev.
  { intros n k Hl. destruct Hl as [|n k r' p Hne Hr' Hp Hl]; [done|].
    destruct Hne. apply Honly. eapply descends_child; [done|done|].
    by eapply level_descends. }
  rewrite (delete_task_within _ trigger_depth uuid r Hk' Hr Hlev). f_equal.
  apply map_eq. intros k.
  pose proof (delete_task_lookup_descends _ trigger_depth uuid r k Hk' Hr Hlev)
    as Hl.
  rewrite (delete_task_within _ trigger_depth uuid r Hk' Hr Hlev) in Hl.
  cbn [fst] in Hl. rewrite Hl.
  destruct (decide _) as [Hin|Hout].
  - apply (elem_of_cascade_descends _ trigger_depth uuid k Hlev), Honly
      in Hin as ->.
    symmetry. by apply not_elem_of_dom.
  - rewrite lookup_insert_ne; [done|]. intros <-. apply Hout.
    apply (elem_of_cascade_descends _ trigger_depth uuid uuid Hlev).
    constructor.
Qed.

(** A second task, created in [one_task] and deleted again. *)
Lemma create_then_delete_witness :
  delete_task
    (create_task one_task "t2" "2025-11-02T00:00:00Z"
       (new_task "B" (Some "t1"))).1 1000 "t2"
  = (one_task, Ok ()).
Proof.
  apply (create_then_delete one_task 1000 "t2" "2025-11-02T00:00:00Z"
           (new_task "B" (Some "t1"))
           (db_to_task
              (TaskDB.Build "t2" "B" None false false 0%Z None None
                 (Some "t1") None None "2025-11-02T00:00:00Z"
                 "2025-11-02T00:00:00Z"))
           one_task_keyed).
  - intros k r p Hr Hp. unfold one_task in Hr.
    apply lookup_singleton_Some in Hr as [<- <-]. discriminate Hp.
  - unfold one_task. rewrite dom_singleton_L.
    intros H. apply elem_of_singleton in H. discriminate H.
  - lia.
  - vm_compute. reflexivity.
Defined.
(** ** create_task, then list_tasks *)

(** X30: a task created at the root is the first of the default listing.
    When the creation time is later, as a string, than the [created_at]
    of every stored task, the default listing (root tasks, newest first)
    after a successful [create_task] without parent starts with the new
    task, and its [total] is one more than before. *)
Theorem create_then_list s uuid now task_input now' :
  uuid ∉ dom s → TaskInput.parent_id task_input = None →
  (∀ k r, s !! k = Some r → String.compare (TaskDB.created_at r) now = Lt) →
  ∃ t, (create_task s uuid now task_input).2 = Ok t
       ∧ TaskList.total
           (list_tasks (create_task s uuid now task_input).1
              ListQuery.default now')
         = S (TaskList.total (list_tasks s ListQuery.default now'))
       ∧ head (TaskList.data
                 (list_tasks (create_task s uuid now task_input).1
                    ListQuery.default now'))
         = Some t.
Proof.
  intros Hfresh Hroot Hnew.
  destruct (create_task_Ok s uuid now task_input Hfresh) as
    (r & -> & Hid & _ & _ & _ & _ & _ & _ & _ & Hpar & _ & _ & Hcr & _).
  { intros p Hp. congruence. }
  rewrite Hroot in Hpar. exists (db_to_task r). cbn [fst snd].
  split; [done|].
  assert (s !! uuid = None) as Hnone by by apply not_elem_of_dom.
  set (L := selected_rows (<[uuid := r]> s) ListQuery.default now').
  assert (r ∈ L) as HrL.
  { apply elem_of_selected_rows. split.
    - exists uuid. apply lookup_insert_eq.
    - unfold where_clause, parent_filter. cbn. rewrite Hpar.
      by rewrite bool_decide_true. }
  assert (L ≡ₚ r :: selected_rows s ListQuery.default now') as Hperm.
  { unfold L. rewrite !selected_rows_default by done.
    unfold table_rows. rewrite map_to_list_insert by done.
    rewrite fmap_cons. cbn [snd]. rewrite filter_cons_True; [done|].
    by split. }
  split.
  - unfold list_tasks. cbn. fold L. by rewrite Hperm.
  - unfold list_tasks. cbn. fold L. rewrite drop_0.
    pose proof (selected_rows_sorted (<[uuid := r]> s) ListQuery.default now')
      as Hsorted. fold L in Hsorted.
    destruct L as [|h tl]; [by apply elem_of_nil in HrL|].
    cbn. f_equal. f_equal.
    apply elem_of_cons in HrL as [->|Htl]; [done|].
    apply StronglySorted_inv in Hsorted as [_ Hall].
    rewrite Forall_forall in Hall. specialize (Hall r Htl).
    assert (h ∈ r :: selected_rows s ListQuery.default now') as Hh
      by (rewrite <-Hperm; left).
    apply elem_of_cons in Hh as [->|Hh]; [done|]. exfalso.
    apply elem_of_selected_rows in Hh as [[k Hk] _].
    unfold order_by, primary_compare in Hall. cbn in Hall.
    by rewrite Hcr, (Hnew k h Hk) in Hall.
Qed.

(** A second root task in [one_task]. *)
Lemma create_then_list_witness :
  ∃ t, (create_task one_task "t2" "2025-11-02T00:00:00Z"
          (new_task "B" None)).2 = Ok t
       ∧ TaskList.total
           (list_tasks
              (create_task one_task "t2" "2025-11-02T00:00:00Z"
                 (new_task "B" None)).1
              ListQuery.default "2025-11-03")
         = S (TaskList.total (list_tasks one_task ListQuery.default "2025-11-03"))
       ∧ head (TaskList.data
                 (list_tasks
                    (create_task one_task "t2" "2025-11-02T00:00:00Z"
                       (new_task "B" None)).1
                    ListQuery.default "2025-11-03"))
         = Some t.
Proof.
  apply (create_then_list one_task "t2" "2025-11-02T00:00:00Z"
           (new_task "B" None) "2025-11-03").
  - unfold one_task. rewrite dom_singleton_L.
    intros H. apply elem_of_singleton in H. discriminate H.
  - reflexivity.
  - intros k r Hr. unfold one_task in Hr.
    apply lookup_singleton_Some in Hr as [<- <-]. reflexivity.
Defined.
